(** * LinkedinWrapped: the parser worker (src/workers/parser.worker.ts)

    A shallow embedding of the ingestion pipeline of the parser worker:
    text normalisation, timestamp normalisation, the stable identifier,
    header aliases, the five record normalisers, the archive extractor and
    the message handler that assembles the aggregate payload.

    The sources hold two versions of the worker.  The embedding follows
    the later one, which computes the identifiers with SHA-1 and resolves
    the columns through header aliases; of the earlier one it keeps the
    rolling hash [simpleHash] only.

    JavaScript strings are sequences of UTF-16 code units; they are modelled
    as lists of [N].  The services of the JavaScript host on which the code
    relies but which it does not define (full Unicode lower-casing, the
    host's reading of date strings) are the fields of the class [Host].  The
    libraries that decode the files (JSZip, PapaParse, SheetJS) are not
    modelled: a file is given by what they return for it. *)

From Stdlib Require Import String Ascii DecimalString.
From Stdlib Require Import ZArith NArith Lia Bool List.
From Stdlib Require Import Permutation Sorting.Sorted.
Import ListNotations.

(* ------------------------------------------------------------------ *)
(** * JavaScript strings *)

Definition jsstring := list N.

(** The code units of an ASCII literal. *)
Definition js (s : string) : jsstring :=
  map N_of_ascii (list_ascii_of_string s).

Definition jsstring_eq_dec : forall a b : jsstring, {a = b} + {a <> b} :=
  list_eq_dec N.eq_dec.

Definition streq (a b : jsstring) : bool :=
  if jsstring_eq_dec a b then true else false.

(** Truthiness of a string: [!s] is true exactly for the empty string. *)
Definition truthy (s : jsstring) : bool :=
  match s with [] => false | _ => true end.

(** [a || b] on strings. *)
Definition orElse (a b : jsstring) : jsstring := if truthy a then a else b.

(** [a || undefined] for an optional record field. *)
Definition orUndefined (a : jsstring) : option jsstring :=
  if truthy a then Some a else None.

(** ECMAScript WhiteSpace and LineTerminator code points: the class that
    both [String.prototype.trim] and the regular expression escape [\s]
    use.  All of them lie in the Basic Multilingual Plane. *)
Definition isWhiteSpace (c : N) : bool :=
  ((9 <=? c) && (c <=? 13)
   || (c =? 32) || (c =? 160) || (c =? 5760)
   || ((8192 <=? c) && (c <=? 8202))
   || (c =? 8232) || (c =? 8233) || (c =? 8239) || (c =? 8287)
   || (c =? 12288) || (c =? 65279))%N.

Definition BOM : N := 65279%N.
Definition SPACE : N := 32%N.

Fixpoint trimStart (s : jsstring) : jsstring :=
  match s with
  | [] => []
  | c :: s' => if isWhiteSpace c then trimStart s' else s
  end.

Definition trimEnd (s : jsstring) : jsstring := rev (trimStart (rev s)).

Definition trim (s : jsstring) : jsstring := trimEnd (trimStart s).

(** [s.replace(/^\uFEFF/, '')] *)
Definition stripBOM (s : jsstring) : jsstring :=
  match s with
  | c :: s' => if (c =? BOM)%N then s' else s
  | [] => []
  end.

(** [s.replace(/\s+/g, ' ')]: every maximal run of white space becomes one
    space.  [inRun] tells that the previous code unit was white space. *)
Fixpoint collapseFrom (inRun : bool) (s : jsstring) : jsstring :=
  match s with
  | [] => []
  | c :: s' =>
      if isWhiteSpace c
      then (if inRun then collapseFrom true s' else SPACE :: collapseFrom true s')
      else c :: collapseFrom false s'
  end.

Definition collapseSpaces (s : jsstring) : jsstring := collapseFrom false s.

(** [normalizeText(text: string | null | undefined)]; [None] stands for
    [null] and [undefined]. *)
Definition normalizeText (text : option jsstring) : jsstring :=
  match text with
  | None => []
  | Some s => if truthy s then collapseSpaces (trim (stripBOM s)) else []
  end.

(** A string starts (ends) clean when its first (last) code unit is not
    white space. *)
Definition startsClean (s : jsstring) : bool :=
  match s with [] => true | c :: _ => negb (isWhiteSpace c) end.

Definition endsClean (s : jsstring) : bool := startsClean (rev s).

(** The shape of the results of [normalizeText]. *)
Definition Normal (s : jsstring) : Prop :=
  startsClean s = true /\ endsClean s = true /\ collapseSpaces s = s.

(* ------------------------------------------------------------------ *)
(** * String and array operations of the JavaScript library *)

(** [s.startsWith(pat)] *)
Fixpoint startsWith (s pat : jsstring) : bool :=
  match pat, s with
  | [], _ => true
  | _ :: _, [] => false
  | p :: pat', c :: s' => (c =? p)%N && startsWith s' pat'
  end.

(** [s.includes(pat)] *)
Fixpoint includes (s pat : jsstring) : bool :=
  startsWith s pat ||
  match s with
  | [] => false
  | _ :: s' => includes s' pat
  end.

(** [s.endsWith(pat)] *)
Definition endsWith (s pat : jsstring) : bool := startsWith (rev s) (rev pat).

(** [s.split(sep)] for a separator of one code unit: never empty. *)
Fixpoint split (sep : N) (s : jsstring) : list jsstring :=
  match s with
  | [] => [[]]
  | c :: s' =>
      if (c =? sep)%N then [] :: split sep s'
      else match split sep s' with
           | [] => [[c]]
           | piece :: pieces => (c :: piece) :: pieces
           end
  end.

(** [a.pop()] read for its value on a fresh array. *)
Definition pop (a : list jsstring) : option jsstring :=
  match rev a with [] => None | x :: _ => Some x end.

(** [a.join(sep)] *)
Fixpoint join (sep : jsstring) (a : list jsstring) : jsstring :=
  match a with
  | [] => []
  | [x] => x
  | x :: rest => x ++ sep ++ join sep rest
  end.

(** [s.substring(0, n)] *)
Definition substring0 (n : nat) (s : jsstring) : jsstring := firstn n s.

(** [String(n)] for an array length. *)
Definition Number_toString (n : nat) : jsstring :=
  js (NilEmpty.string_of_uint (Nat.to_uint n)).

Definition COMMA : N := 44%N.
Definition SLASH : N := 47%N.
Definition LETTER_T : N := 84%N.

(** Comparison of strings by code units, the order of the relational
    operators and of [Array.prototype.sort] without a comparator. *)
Fixpoint str_leb (a b : jsstring) : bool :=
  match a, b with
  | [], _ => true
  | _ :: _, [] => false
  | x :: a', y :: b' =>
      if (x <? y)%N then true
      else if (y <? x)%N then false
      else str_leb a' b'
  end.

Fixpoint insertSorted (x : jsstring) (l : list jsstring) : list jsstring :=
  match l with
  | [] => [x]
  | y :: l' => if str_leb x y then x :: l else y :: insertSorted x l'
  end.

(** [a.sort()] on an array of strings.  The order is total and two strings
    that compare equal are the same string, so the sorted array does not
    depend on the sorting algorithm of the host; insertion sort stands for
    it. *)
Fixpoint sort (a : list jsstring) : list jsstring :=
  match a with
  | [] => []
  | x :: a' => insertSorted x (sort a')
  end.

(** Upper-casing of Basic Latin letters.  A regular expression with the
    flag [i] and without the flag [u] compares canonicalised code units; a
    code unit outside Basic Latin never canonicalises into Basic Latin, so
    on the ASCII patterns of this program the comparison below is exact. *)
Definition asciiUpper (c : N) : N :=
  if ((97 <=? c) && (c <=? 122))%N then (c - 32)%N else c.

Definition asciiLower (c : N) : N :=
  if ((65 <=? c) && (c <=? 90))%N then (c + 32)%N else c.

Definition canonicalize (s : jsstring) : jsstring := map asciiUpper s.

(** The header aliases of the normalisers: a literal string compared with
    [===], or a regular expression.  The program uses two shapes of regular
    expression: [/^text$/i] and [/text/i]. *)
Inductive Alias : Type :=
| Literal (text : jsstring)
| ReWhole (text : jsstring)
| ReContains (text : jsstring).

Definition aliasMatches (alias : Alias) (header : jsstring) : bool :=
  match alias with
  | Literal text => streq header text
  | ReWhole text => streq (canonicalize header) (canonicalize text)
  | ReContains text => includes (canonicalize header) (canonicalize text)
  end.

(** [findHeaderIndex]: the first header, in header order, that some alias
    matches. *)
Fixpoint findHeaderIndexFrom (i : nat) (headers : list jsstring)
    (aliases : list Alias) : option nat :=
  match headers with
  | [] => None
  | header :: rest =>
      if existsb (fun alias => aliasMatches alias header) aliases
      then Some i
      else findHeaderIndexFrom (S i) rest aliases
  end.

Definition findHeaderIndex (headers : list jsstring) (aliases : list Alias)
  : option nat :=
  findHeaderIndexFrom 0 headers aliases.

(** [getValueByAliases]; a row shorter than the header yields [undefined],
    which [normalizeText] turns into the empty string. *)
Definition getValueByAliases (row headers : list jsstring)
    (aliases : list Alias) : jsstring :=
  match findHeaderIndex headers aliases with
  | Some index => normalizeText (nth_error row index)
  | None => []
  end.
(* ------------------------------------------------------------------ *)
(** * The stable identifier *)

(** [new TextEncoder().encode(input)]: the UTF-8 bytes of a string of
    UTF-16 code units; a surrogate without its partner is encoded as
    U+FFFD. *)
Module UTF8.
Local Open Scope N_scope.

Definition isHighSurrogate (c : N) : bool := (55296 <=? c) && (c <=? 56319).
Definition isLowSurrogate (c : N) : bool := (56320 <=? c) && (c <=? 57343).

Fixpoint codePoints (s : jsstring) : list N :=
  match s with
  | [] => []
  | c :: s' =>
      if isHighSurrogate c then
        match s' with
        | d :: s'' =>
            if isLowSurrogate d
            then (65536 + (c - 55296) * 1024 + (d - 56320)) :: codePoints s''
            else 65533 :: codePoints s'
        | [] => [65533]
        end
      else if isLowSurrogate c then 65533 :: codePoints s'
      else c :: codePoints s'
  end.

Definition encodePoint (cp : N) : list N :=
  if cp <? 128 then [cp]
  else if cp <? 2048 then
    [N.lor 192 (N.shiftr cp 6); N.lor 128 (N.land cp 63)]
  else if cp <? 65536 then
    [N.lor 224 (N.shiftr cp 12);
     N.lor 128 (N.land (N.shiftr cp 6) 63);
     N.lor 128 (N.land cp 63)]
  else
    [N.lor 240 (N.land (N.shiftr cp 18) 7);
     N.lor 128 (N.land (N.shiftr cp 12) 63);
     N.lor 128 (N.land (N.shiftr cp 6) 63);
     N.lor 128 (N.land cp 63)].

Definition encode (s : jsstring) : list N := flat_map encodePoint (codePoints s).

End UTF8.

(** [crypto.subtle.digest('SHA-1', data)]: the Secure Hash Algorithm 1 of
    FIPS 180-4 on a list of bytes; the digest is a list of 20 bytes. *)
Module SHA1.
Local Open Scope N_scope.

Definition mask32 (x : N) : N := N.land x 4294967295.
Definition add32 (x y : N) : N := mask32 (x + y).
Definition rotl32 (n x : N) : N :=
  mask32 (N.lor (N.shiftl x n) (N.shiftr x (32 - n))).
Definition not32 (x : N) : N := N.lxor (mask32 x) 4294967295.

Definition bigEndian (width : nat) (x : N) : list N :=
  map (fun i => N.land (N.shiftr x (8 * N.of_nat i)) 255) (rev (seq 0 width)).

(** The message, the byte 0x80, zero bytes up to 56 modulo 64, and the
    length of the message in bits on 8 bytes. *)
Definition pad (msg : list N) : list N :=
  let len := N.of_nat (length msg) in
  let zeros := N.to_nat ((119 - len mod 64) mod 64) in
  msg ++ [128] ++ repeat 0 zeros ++ bigEndian 8 (8 * len).

Fixpoint words (bytes : list N) : list N :=
  match bytes with
  | b0 :: b1 :: b2 :: b3 :: rest =>
      N.lor (N.shiftl b0 24) (N.lor (N.shiftl b1 16) (N.lor (N.shiftl b2 8) b3))
      :: words rest
  | _ => []
  end.

(** The message schedule, most recent word first. *)
Fixpoint schedule (n : nat) (recent : list N) : list N :=
  match n with
  | O => recent
  | S n' =>
      let w := rotl32 1 (N.lxor (nth 2 recent 0)
                        (N.lxor (nth 7 recent 0)
                        (N.lxor (nth 13 recent 0) (nth 15 recent 0)))) in
      schedule n' (w :: recent)
  end.

Definition State : Type := (N * N * N * N * N)%type.

Definition initial : State :=
  (1732584193, 4023233417, 2562383102, 271733878, 3285377520).

Definition f (t : nat) (b c d : N) : N :=
  if (t <? 20)%nat then N.lor (N.land b c) (N.land (not32 b) d)
  else if (t <? 40)%nat then N.lxor b (N.lxor c d)
  else if (t <? 60)%nat then N.lor (N.land b c) (N.lor (N.land b d) (N.land c d))
  else N.lxor b (N.lxor c d).

Definition K (t : nat) : N :=
  if (t <? 20)%nat then 1518500249
  else if (t <? 40)%nat then 1859775393
  else if (t <? 60)%nat then 2400959708
  else 3395469782.

Definition round (s : State) (tw : nat * N) : State :=
  let '(a, b, c, d, e) := s in
  let '(t, w) := tw in
  let temp := add32 (add32 (add32 (add32 (rotl32 5 a) (f t b c d)) e) (K t)) w in
  (temp, a, rotl32 30 b, c, d).

Definition compress (h : State) (block : list N) : State :=
  let w := rev (schedule 64 (rev block)) in
  let '(a, b, c, d, e) := fold_left round (combine (seq 0 80) w) h in
  let '(h0, h1, h2, h3, h4) := h in
  (add32 h0 a, add32 h1 b, add32 h2 c, add32 h3 d, add32 h4 e).

Fixpoint blocks (fuel : nat) (ws : list N) (h : State) : State :=
  match fuel with
  | O => h
  | S fuel' =>
      match ws with
      | [] => h
      | _ => blocks fuel' (skipn 16 ws) (compress h (firstn 16 ws))
      end
  end.

Definition digest (msg : list N) : list N :=
  let ws := words (pad msg) in
  let '(h0, h1, h2, h3, h4) := blocks (length ws) ws initial in
  bigEndian 4 h0 ++ bigEndian 4 h1 ++ bigEndian 4 h2
    ++ bigEndian 4 h3 ++ bigEndian 4 h4.

End SHA1.

(** Digits of the bases 16 and 36: [0-9a-z]. *)
Definition digitChar (d : N) : N := if (d <? 10)%N then (48 + d)%N else (87 + d)%N.

(** [b.toString(16)] for an element of a [Uint8Array]. *)
Definition toString16 (b : N) : jsstring :=
  if (b <? 16)%N then [digitChar b] else [digitChar (b / 16); digitChar (b mod 16)].

(** [s.padStart(n, '0')] *)
Definition padStart0 (n : nat) (s : jsstring) : jsstring :=
  repeat 48%N (n - length s) ++ s.

Definition hexOfBytes (bytes : list N) : jsstring :=
  concat (map (fun b => padStart0 2 (toString16 b)) bytes).

(** [stableHash]: the first 12 hexadecimal digits of the SHA-1 digest of
    the UTF-8 encoding of the input. *)
Definition stableHash (input : jsstring) : jsstring :=
  let data := UTF8.encode input in
  let hashArray := SHA1.digest data in
  let hashHex := hexOfBytes hashArray in
  substring0 12 hashHex.

(** The number of bits that an identifier of [stableHash] carries: four per
    hexadecimal digit. *)
Definition stableHashBits (input : jsstring) : Z :=
  4 * Z.of_nat (length (stableHash input)).

(** ** The rolling hash of the first version of the worker *)

(** [ToInt32] *)
Definition toInt32 (z : Z) : Z := ((z + 2147483648) mod 4294967296 - 2147483648)%Z.

(** [n.toString(36)] for an integer [0 <= n]; seven digits are enough up
    to 36^7 - 1, beyond the absolute value of any 32-bit integer. *)
Fixpoint toString36From (fuel : nat) (n : Z) (acc : jsstring) : jsstring :=
  match fuel with
  | O => acc
  | S fuel' =>
      let acc' := digitChar (Z.to_N (n mod 36)) :: acc in
      if (n / 36 =? 0)%Z then acc' else toString36From fuel' (n / 36)%Z acc'
  end.

Definition toString36 (n : Z) : jsstring := toString36From 7 n [].

(** [simpleHash]: [hash = ((hash << 5) - hash) + char; hash = hash & hash]
    over the code units, then [Math.abs(hash).toString(36)]. *)
Definition simpleHashStep (hash : Z) (char : N) : Z :=
  toInt32 (toInt32 (hash * 32) - hash + Z.of_N char).

Definition simpleHash (input : jsstring) : jsstring :=
  toString36 (Z.abs (fold_left simpleHashStep input 0%Z)).
(* ------------------------------------------------------------------ *)
(** * Dates *)

(** A time value is a number of milliseconds since the epoch,
    1970-01-01T00:00:00Z. *)
Module DateTime.
Local Open Scope Z_scope.

Definition msPerDay : Z := 86400000.

(** The proleptic Gregorian date [(year, month, day)] of a day number,
    months and days counted from 1. *)
Definition civilFromDays (day : Z) : Z * Z * Z :=
  let z := day + 719468 in
  let era := z / 146097 in
  let doe := z - era * 146097 in
  let yoe := (doe - doe / 1460 + doe / 36524 - doe / 146096) / 365 in
  let doy := doe - (365 * yoe + yoe / 4 - yoe / 100) in
  let mp := (5 * doy + 2) / 153 in
  let d := doy - (153 * mp + 2) / 5 + 1 in
  let m := if mp <? 10 then mp + 3 else mp - 9 in
  let y := yoe + era * 400 in
  (if m <=? 2 then y + 1 else y, m, d).

(** The day number of a Gregorian date. *)
Definition daysFromCivil (y m d : Z) : Z :=
  let y' := if m <=? 2 then y - 1 else y in
  let era := y' / 400 in
  let yoe := y' - era * 400 in
  let mp := if 2 <? m then m - 3 else m + 9 in
  let doy := (153 * mp + 2) / 5 + d - 1 in
  let doe := yoe * 365 + yoe / 4 - yoe / 100 + doy in
  era * 146097 + doe - 719468.

Definition isLeapYear (y : Z) : bool :=
  ((y mod 4 =? 0) && negb (y mod 100 =? 0)) || (y mod 400 =? 0).

Definition daysInMonth (y m : Z) : Z :=
  if m =? 2 then (if isLeapYear y then 29 else 28)
  else if (m =? 4) || (m =? 6) || (m =? 9) || (m =? 11) then 30
  else 31.

(** Decimal digits of a number [0 <= n], padded with zeros to [width]. *)
Definition padded (width : nat) (n : Z) : jsstring :=
  padStart0 width (Number_toString (Z.to_nat n)).

(** The year of an ISO string: four digits, or a sign and six digits
    outside 0..9999. *)
Definition yearText (y : Z) : jsstring :=
  if (0 <=? y) && (y <=? 9999) then padded 4 y
  else (if y <? 0 then js "-" else js "+") ++ padded 6 (Z.abs y).

(** The UTC calendar date of a time value, [YYYY-MM-DD]. *)
Definition utcDate (t : Z) : jsstring :=
  let '(y, m, d) := civilFromDays (t / msPerDay) in
  yearText y ++ js "-" ++ padded 2 m ++ js "-" ++ padded 2 d.

(** The UTC time of day of a time value, [HH:mm:ss.sss]. *)
Definition utcTime (t : Z) : jsstring :=
  let tod := t mod msPerDay in
  padded 2 (tod / 3600000) ++ js ":"
    ++ padded 2 (tod / 60000 mod 60) ++ js ":"
    ++ padded 2 (tod / 1000 mod 60) ++ js "."
    ++ padded 3 (tod mod 1000).

(** [Date.prototype.toISOString] of a time value:
    [YYYY-MM-DDTHH:mm:ss.sssZ]. *)
Definition toISOString (t : Z) : jsstring :=
  utcDate t ++ js "T" ++ utcTime t ++ js "Z".

(** The time value of a date and a time of day read as UTC; [None] when a
    field is out of range. *)
Definition makeUTC (y mo d h mi s ms : Z) : option Z :=
  if (1 <=? mo) && (mo <=? 12) && (1 <=? d) && (d <=? daysInMonth y mo)
     && (h <=? 23) && (mi <=? 59) && (s <=? 59)
  then Some (daysFromCivil y mo d * msPerDay
             + h * 3600000 + mi * 60000 + s * 1000 + ms)
  else None.

(** Reading [n] decimal digits at the head of a string. *)
Fixpoint digits (n : nat) (acc : Z) (s : jsstring) : option (Z * jsstring) :=
  match n with
  | O => Some (acc, s)
  | S n' =>
      match s with
      | c :: s' =>
          if ((48 <=? c) && (c <=? 57))%N
          then digits n' (10 * acc + Z.of_N (c - 48)) s'
          else None
      | [] => None
      end
  end.

Definition expect (c : N) (s : jsstring) : option jsstring :=
  match s with
  | c' :: s' => if (c' =? c)%N then Some s' else None
  | [] => None
  end.

Definition bind {A B : Type} (x : option A) (k : A -> option B) : option B :=
  match x with Some a => k a | None => None end.

Notation "x <- e ;; k" := (bind e (fun x => k))
  (at level 61, e at next level, right associativity).
Notation "' p <- e ;; k" := (bind e (fun p => k))
  (at level 61, p pattern, e at next level, right associativity).

(** [YYYY-MM-DD], then the code unit [sep], then [HH:mm:ss]; returns the
    fields and the rest of the string. *)
Definition dateAndTime (sep : N) (s : jsstring)
  : option (Z * Z * Z * Z * Z * Z * jsstring) :=
  '(y, s) <- digits 4 0 s ;;
  s <- expect 45 s ;;
  '(mo, s) <- digits 2 0 s ;;
  s <- expect 45 s ;;
  '(d, s) <- digits 2 0 s ;;
  s <- expect sep s ;;
  '(h, s) <- digits 2 0 s ;;
  s <- expect 58 s ;;
  '(mi, s) <- digits 2 0 s ;;
  s <- expect 58 s ;;
  '(sec, s) <- digits 2 0 s ;;
  Some (y, mo, d, h, mi, sec, s).

(** The form that [toISOString] prints for the years 0..9999:
    [YYYY-MM-DDTHH:mm:ss.sssZ], an instant in UTC. *)
Definition parseISOInstant (s : jsstring) : option Z :=
  '(y, mo, d, h, mi, sec, s) <- dateAndTime 84 s ;;
  s <- expect 46 s ;;
  '(ms, s) <- digits 3 0 s ;;
  s <- expect 90 s ;;
  match s with
  | [] => makeUTC y mo d h mi sec ms
  | _ => None
  end.

(** The form [YYYY-MM-DD HH:mm:ss], which carries no zone: a wall-clock
    time.  The result is the time value of that wall-clock time in UTC;
    the host subtracts its own offset. *)
Definition parseWallClock (s : jsstring) : option Z :=
  '(y, mo, d, h, mi, sec, s) <- dateAndTime 32 s ;;
  match s with
  | [] => makeUTC y mo d h mi sec 0
  | _ => None
  end.

End DateTime.

(* ------------------------------------------------------------------ *)
(** * The JavaScript host *)

(** What the program takes from its host and the language leaves to the
    host or to the Unicode tables:
    - [toLowerCase]: [String.prototype.toLowerCase];
    - [Date_parse s]: the time value of [new Date(s)], [None] when
      [isNaN(date.getTime())].  ECMAScript fixes the reading of the ISO
      format only; other forms are read as the host sees fit, and a form
      without a zone is read in the local time zone of the host. *)
Class Host : Type := {
  toLowerCase : jsstring -> jsstring;
  Date_parse : jsstring -> option Z
}.

(** A browser whose local time is [offset] minutes ahead of UTC the whole
    year.  Lower-casing is the one of Basic Latin (the examples use no
    other letters); dates are read in the two forms the examples use: the
    ISO instant, and [YYYY-MM-DD HH:mm:ss], which the browsers read as
    local time.  Any other text is not a date for this host. *)
Definition browser (offset : Z) : Host := {|
  toLowerCase := map asciiLower;
  Date_parse := fun s =>
    match DateTime.parseISOInstant s with
    | Some t => Some t
    | None =>
        match DateTime.parseWallClock s with
        | Some t => Some (t - offset * 60000)%Z
        | None => None
        end
    end
|}.

(** A browser in the time zone UTC, and one in India (UTC+05:30). *)
Definition browserUTC : Host := browser 0.
Definition browserIST : Host := browser 330.
(* ------------------------------------------------------------------ *)
(** * The records of the payload (src/types/parser.ts) *)

Module Contact.
Record t : Type := {
  id : jsstring;
  name : jsstring;
  title : option jsstring;
  company : option jsstring;
  location : option jsstring;
  connectedAt : jsstring;
  url : option jsstring
}.
End Contact.

Inductive MeOrThem : Type := me | them.

Module Message.
Record t : Type := {
  id : jsstring;
  threadId : jsstring;
  meOrThem : MeOrThem;
  otherId : jsstring;
  body : jsstring;
  ts : jsstring
}.
End Message.

Inductive Direction : Type := sent | received.

Inductive Status : Type := accepted | pending | ignored | unknown.

Module Invite.
Record t : Type := {
  id : jsstring;
  direction : Direction;
  counterpartName : jsstring;
  status : Status;
  message : option jsstring;
  ts : jsstring
}.
End Invite.

Module CompanyFollow.
Record t : Type := {
  id : jsstring;
  company : jsstring;
  ts : jsstring
}.
End CompanyFollow.

Module SavedJob.
Record t : Type := {
  id : jsstring;
  company : jsstring;
  title : jsstring;
  ts : jsstring
}.
End SavedJob.

(** The text of a direction inside a template literal. *)
Definition directionText (d : Direction) : jsstring :=
  match d with sent => js "sent" | received => js "received" end.

(* ------------------------------------------------------------------ *)
(** * Timestamps *)

Definition QUOTE : jsstring := [34%N].
Definition PIPE : jsstring := js "|".

(** [dateStr.replace(/\s+UTC$/i, '')]: when the string ends with white
    space followed by the letters U, T, C in either case, these letters and
    the whole run of white space before them are removed. *)
Definition stripUTC (dateStr : jsstring) : jsstring :=
  match rev dateStr with
  | c :: t :: u :: rest =>
      if ((asciiUpper u =? 85)%N && (asciiUpper t =? 84)%N
          && (asciiUpper c =? 67)%N && negb (startsClean rest))
      then rev (trimStart rest)
      else dateStr
  | _ => dateStr
  end.

(** The header aliases of each normaliser, the object [aliases] of its
    function. *)
Module ConnectionsAliases.
Definition firstName : list Alias := [Literal (js "First Name")].
Definition lastName : list Alias := [Literal (js "Last Name")].
Definition url : list Alias := [Literal (js "URL"); Literal (js "Profile URL")].
Definition email : list Alias := [Literal (js "Email Address"); Literal (js "Email")].
Definition company : list Alias := [Literal (js "Company"); Literal (js "Company Name")].
Definition position : list Alias :=
  [Literal (js "Position"); Literal (js "Title"); Literal (js "Job Title")].
Definition connected : list Alias :=
  [Literal (js "Connected On"); Literal (js "Connected on"); Literal (js "Connected")].
Definition location : list Alias :=
  [Literal (js "Location"); Literal (js "City"); Literal (js "City, State");
   Literal (js "City/Region")].
End ConnectionsAliases.

(** The expression [/RECIPIENT PROFILE URLS?/i] is found in the same
    headers as [/RECIPIENT PROFILE URL/i]: its last letter is optional. *)
Module MessagesAliases.
Definition convoId : list Alias := [ReWhole (js "CONVERSATION ID")].
Definition from : list Alias := [ReWhole (js "FROM")].
Definition to : list Alias := [ReWhole (js "TO")].
Definition fromUrl : list Alias := [ReContains (js "SENDER PROFILE URL")].
Definition toUrls : list Alias := [ReContains (js "RECIPIENT PROFILE URL")].
Definition date : list Alias := [ReWhole (js "DATE"); ReContains (js "Sent On")].
Definition content : list Alias := [ReWhole (js "CONTENT"); ReContains (js "Message")].
End MessagesAliases.

Module InvitationsAliases.
Definition from : list Alias := [Literal (js "From")].
Definition to : list Alias := [Literal (js "To")].
Definition sentAt : list Alias :=
  [Literal (js "Sent At"); Literal (js "Date"); Literal (js "Sent On")].
Definition message : list Alias := [Literal (js "Message"); Literal (js "Note")].
Definition direction : list Alias := [Literal (js "Direction"); Literal (js "Type")].
End InvitationsAliases.

Module CompanyFollowsAliases.
Definition org : list Alias := [Literal (js "Organization"); Literal (js "Company")].
Definition followed : list Alias := [Literal (js "Followed On"); Literal (js "Date")].
End CompanyFollowsAliases.

Module SavedJobsAliases.
Definition title : list Alias := [Literal (js "Title"); Literal (js "Job Title")].
Definition company : list Alias := [Literal (js "Company"); Literal (js "Company Name")].
Definition ts : list Alias :=
  [Literal (js "Saved On"); Literal (js "Date"); Literal (js "Applied On");
   Literal (js "Application Date"); Literal (js "Created On")].
End SavedJobsAliases.

Section Normalizers.
Context {host : Host}.

(** [parseTimestamp]: neither [new Date] nor the guarded [toISOString]
    throws, so the [catch] branch is never taken. *)
Definition parseTimestamp (dateStr : jsstring) : jsstring :=
  if negb (truthy dateStr) then []
  else
    let cleanDate := trim (stripUTC dateStr) in
    match Date_parse cleanDate with
    | None => []
    | Some date => DateTime.toISOString date
    end.

(** [getDayBucket]: [toISOString] throws a [RangeError] on an invalid date,
    and the [catch] branch returns the token. *)
Definition getDayBucket (ts : jsstring) : jsstring :=
  if negb (truthy ts) then js "unknown"
  else
    match Date_parse ts with
    | Some date => hd [] (split LETTER_T (DateTime.toISOString date))
    | None => js "unknown"
    end.

(* ------------------------------------------------------------------ *)
(** * The record normalisers *)

Definition Row : Type := list jsstring.

(** [row.some(cell => normalizeText(cell))] *)
Definition hasContent (row : Row) : bool :=
  existsb (fun cell => truthy (normalizeText (Some cell))) row.

(** [row.map(cell => normalizeText(cell))] *)
Definition normalizeRow (row : Row) : Row :=
  map (fun cell => normalizeText (Some cell)) row.

(** The state of the loop over the data rows: the records pushed so far,
    the shared array of warnings, and [processedCount]. *)
Definition LoopState (R : Type) : Type := (list R * list jsstring * nat)%type.

(** One [for (const row of dataRows)] loop.  The body of each loop pushes
    its warnings, and either leaves with [continue] or pushes one record
    and increments the counter; [body row] gives the record, if any, and
    the warnings of one iteration. *)
Definition forEachRow {R : Type} (body : Row -> option R * list jsstring)
    (dataRows : list Row) (start : LoopState R) : LoopState R :=
  fold_left
    (fun (state : LoopState R) row =>
       let '(records, warnings, processedCount) := state in
       match body row with
       | (Some record, pushed) =>
           (records ++ [record], warnings ++ pushed, S processedCount)
       | (None, pushed) => (records, warnings ++ pushed, processedCount)
       end)
    dataRows start.

(** The warning for a date that is present and was not understood. *)
Definition dateWarning (label raw parsed : jsstring) : list jsstring :=
  if truthy raw && negb (truthy parsed)
  then [label ++ js ": Could not parse date " ++ QUOTE ++ raw ++ QUOTE]
  else [].

(** ** Connections *)

(** [row.some(cell => normalizeText(cell) === 'First Name')] *)
Definition hasFirstNameCell (row : Row) : bool :=
  existsb (fun cell => streq (normalizeText (Some cell)) (js "First Name")) row.

(** The scan of the first ten rows for a cell equal to [First Name]. *)
Fixpoint findFirstNameRow (i limit : nat) (rawData : list Row)
  : option (nat * Row) :=
  match limit, rawData with
  | S limit', row :: rest =>
      if hasFirstNameCell row
      then Some (i, normalizeRow row)
      else findFirstNameRow (S i) limit' rest
  | _, _ => None
  end.

Definition connectionOfRow (headers : Row) (row : Row)
  : option Contact.t * list jsstring :=
  let firstName := getValueByAliases row headers ConnectionsAliases.firstName in
  let lastName := getValueByAliases row headers ConnectionsAliases.lastName in
  let url := getValueByAliases row headers ConnectionsAliases.url in
  let company := getValueByAliases row headers ConnectionsAliases.company in
  let position := getValueByAliases row headers ConnectionsAliases.position in
  let connectedOn := getValueByAliases row headers ConnectionsAliases.connected in
  let location := getValueByAliases row headers ConnectionsAliases.location in
  let name := orElse (trim (firstName ++ js " " ++ lastName)) (js "Unknown") in
  let connectedAt := parseTimestamp connectedOn in
  let idSource := orElse url (name ++ PIPE ++ company ++ PIPE ++ connectedAt) in
  let id := stableHash idSource in
  (Some {| Contact.id := id;
           Contact.name := name;
           Contact.title := orUndefined position;
           Contact.company := orUndefined company;
           Contact.location := orUndefined location;
           Contact.connectedAt := connectedAt;
           Contact.url := orUndefined url |},
   dateWarning (js "Connections") connectedOn connectedAt).

Definition processConnections (rawData : list Row) (warnings : list jsstring)
    (fileName : jsstring) : list Contact.t * list jsstring :=
  match findFirstNameRow 0 10 rawData with
  | None =>
      ([], warnings ++
           [js "Connections: Could not find header row with " ++ QUOTE
              ++ js "First Name" ++ QUOTE ++ js " in " ++ fileName])
  | Some (headerRowIndex, headers) =>
      let dataRows := filter hasContent (skipn (headerRowIndex + 1) rawData) in
      let warnings := warnings ++
        [js "Connections: Detected headers: " ++ join (js " | ") headers] in
      let warnings := warnings ++
        [js "Connections: " ++ Number_toString (length dataRows)
           ++ js " data rows found in " ++ fileName] in
      let '(contacts, warnings, processedCount) :=
        forEachRow (connectionOfRow headers) dataRows ([], warnings, 0) in
      (contacts, warnings ++
        [js "Connections: " ++ Number_toString processedCount
           ++ js " contacts processed from " ++ fileName])
  end.

(** ** Messages *)

(** [recipientUrls.split(',').map(url => normalizeText(url)).filter(Boolean)] *)
Definition recipientsOf (recipientUrls : jsstring) : list jsstring :=
  filter truthy
    (map (fun url => normalizeText (Some url)) (split COMMA recipientUrls)).

(** The resolution of [threadId] in the loop of [processMessages]. *)
Definition resolveThreadId (conversationId recipientUrls to from ts : jsstring)
  : jsstring :=
  if truthy conversationId then conversationId
  else
    let recipients := recipientsOf recipientUrls in
    if length recipients =? 1 then stableHash (nth 0 recipients [])
    else if 1 <? length recipients then
      let sortedUrls := join PIPE (sort recipients) in
      stableHash sortedUrls
    else
      let participant := orElse to from in
      let dayBucket := getDayBucket ts in
      stableHash (participant ++ PIPE ++ dayBucket).

Definition messageOfRow (headers : Row) (row : Row)
  : option Message.t * list jsstring :=
  let conversationId := getValueByAliases row headers MessagesAliases.convoId in
  let from := getValueByAliases row headers MessagesAliases.from in
  let to := getValueByAliases row headers MessagesAliases.to in
  let senderUrl := getValueByAliases row headers MessagesAliases.fromUrl in
  let recipientUrls := getValueByAliases row headers MessagesAliases.toUrls in
  let date := getValueByAliases row headers MessagesAliases.date in
  let content := getValueByAliases row headers MessagesAliases.content in
  if negb (truthy content) then (None, [])
  else
    let ts := parseTimestamp date in
    let meOrThem := if includes (toLowerCase from) (js "you") then me else them in
    let threadId := resolveThreadId conversationId recipientUrls to from ts in
    let otherId :=
      match meOrThem with
      | them => senderUrl
      | me => orElse (nth 0 (recipientsOf recipientUrls) []) []
      end in
    let id := stableHash (threadId ++ PIPE ++ ts ++ PIPE ++ substring0 40 content) in
    (Some {| Message.id := id;
             Message.threadId := threadId;
             Message.meOrThem := meOrThem;
             Message.otherId := otherId;
             Message.body := content;
             Message.ts := ts |},
     dateWarning (js "Messages") date ts).

Definition processMessages (rawData : list Row) (warnings : list jsstring)
    (fileName : jsstring) : list Message.t * list jsstring :=
  if length rawData <? 2 then
    ([], warnings ++ [js "Messages: Insufficient data in " ++ fileName])
  else
    let headers := normalizeRow (nth 0 rawData []) in
    let dataRows := filter hasContent (skipn 1 rawData) in
    let warnings := warnings ++
      [js "Messages: Detected headers: " ++ join (js " | ") headers] in
    let warnings := warnings ++
      [js "Messages: " ++ Number_toString (length dataRows)
         ++ js " data rows found in " ++ fileName] in
    let '(messages, warnings, processedCount) :=
      forEachRow (messageOfRow headers) dataRows ([], warnings, 0) in
    (messages, warnings ++
      [js "Messages: " ++ Number_toString processedCount
         ++ js " messages processed from " ++ fileName]).

(** ** Invitations *)

Definition inviteOfRow (headers : Row) (row : Row)
  : option Invite.t * list jsstring :=
  let from := getValueByAliases row headers InvitationsAliases.from in
  let to := getValueByAliases row headers InvitationsAliases.to in
  let sentAt := getValueByAliases row headers InvitationsAliases.sentAt in
  let message := getValueByAliases row headers InvitationsAliases.message in
  let direction := getValueByAliases row headers InvitationsAliases.direction in
  if negb (truthy from) && negb (truthy to) then (None, [])
  else
    let ts := parseTimestamp sentAt in
    let inviteDirection :=
      if includes (toLowerCase direction) (js "outgoing") then sent
      else if includes (toLowerCase direction) (js "incoming") then received
      else if includes (toLowerCase from) (js "you") then sent else received in
    let counterpartName :=
      match inviteDirection with sent => to | received => from end in
    let id := stableHash (directionText inviteDirection ++ PIPE
                            ++ counterpartName ++ PIPE ++ ts) in
    (Some {| Invite.id := id;
             Invite.direction := inviteDirection;
             Invite.counterpartName := counterpartName;
             Invite.status := unknown;
             Invite.message := orUndefined message;
             Invite.ts := ts |},
     dateWarning (js "Invitations") sentAt ts).

Definition processInvitations (rawData : list Row) (warnings : list jsstring)
    (fileName : jsstring) : list Invite.t * list jsstring :=
  if length rawData <? 2 then
    ([], warnings ++ [js "Invitations: Insufficient data in " ++ fileName])
  else
    let headers := normalizeRow (nth 0 rawData []) in
    let dataRows := filter hasContent (skipn 1 rawData) in
    let warnings := warnings ++
      [js "Invitations: Detected headers: " ++ join (js " | ") headers] in
    let warnings := warnings ++
      [js "Invitations: " ++ Number_toString (length dataRows)
         ++ js " data rows found in " ++ fileName] in
    let '(invites, warnings, processedCount) :=
      forEachRow (inviteOfRow headers) dataRows ([], warnings, 0) in
    (invites, warnings ++
      [js "Invitations: " ++ Number_toString processedCount
         ++ js " invitations processed from " ++ fileName]).

(** ** Company follows *)

Definition followOfRow (headers : Row) (row : Row)
  : option CompanyFollow.t * list jsstring :=
  let organization := getValueByAliases row headers CompanyFollowsAliases.org in
  let followedOn := getValueByAliases row headers CompanyFollowsAliases.followed in
  if negb (truthy organization) then (None, [])
  else
    let ts := parseTimestamp followedOn in
    let id := stableHash (organization ++ PIPE ++ ts) in
    (Some {| CompanyFollow.id := id;
             CompanyFollow.company := organization;
             CompanyFollow.ts := ts |},
     dateWarning (js "Company Follows") followedOn ts).

Definition processCompanyFollows (rawData : list Row) (warnings : list jsstring)
    (fileName : jsstring) : list CompanyFollow.t * list jsstring :=
  if length rawData <? 2 then
    ([], warnings ++ [js "Company Follows: Insufficient data in " ++ fileName])
  else
    let headers := normalizeRow (nth 0 rawData []) in
    let dataRows := filter hasContent (skipn 1 rawData) in
    let warnings := warnings ++
      [js "Company Follows: Detected headers: " ++ join (js " | ") headers] in
    let warnings := warnings ++
      [js "Company Follows: " ++ Number_toString (length dataRows)
         ++ js " data rows found in " ++ fileName] in
    let '(follows, warnings, processedCount) :=
      forEachRow (followOfRow headers) dataRows ([], warnings, 0) in
    (follows, warnings ++
      [js "Company Follows: " ++ Number_toString processedCount
         ++ js " follows processed from " ++ fileName]).

(** ** Saved jobs and job applications *)

Definition jobOfRow (fileType : jsstring) (headers : Row) (row : Row)
  : option SavedJob.t * list jsstring :=
  let title := getValueByAliases row headers SavedJobsAliases.title in
  let company := getValueByAliases row headers SavedJobsAliases.company in
  let dateValue := getValueByAliases row headers SavedJobsAliases.ts in
  if negb (truthy title) && negb (truthy company) then (None, [])
  else
    let ts := parseTimestamp dateValue in
    let id := stableHash (company ++ PIPE ++ title ++ PIPE ++ ts) in
    (Some {| SavedJob.id := id;
             SavedJob.company := orElse company (js "Unknown");
             SavedJob.title := orElse title (js "Unknown");
             SavedJob.ts := ts |},
     dateWarning fileType dateValue ts).

Definition processSavedJobs (rawData : list Row) (warnings : list jsstring)
    (fileName : jsstring) (isApplications : bool)
  : list SavedJob.t * list jsstring :=
  if length rawData <? 2 then
    ([], warnings ++
         [(if isApplications then js "Job Applications" else js "Saved Jobs")
            ++ js ": Insufficient data in " ++ fileName])
  else
    let headers := normalizeRow (nth 0 rawData []) in
    let dataRows := filter hasContent (skipn 1 rawData) in
    let fileType := if isApplications then js "Job Applications" else js "Saved Jobs" in
    let warnings := warnings ++
      [fileType ++ js ": Detected headers: " ++ join (js " | ") headers] in
    let warnings := warnings ++
      [fileType ++ js ": " ++ Number_toString (length dataRows)
         ++ js " data rows found in " ++ fileName] in
    let '(jobs, warnings, processedCount) :=
      forEachRow (jobOfRow fileType headers) dataRows ([], warnings, 0) in
    (jobs, warnings ++
      [fileType ++ js ": " ++ Number_toString processedCount
         ++ js " jobs processed from " ++ fileName]).

End Normalizers.
(* ------------------------------------------------------------------ *)
(** * Files, archives and the payload *)

(** The outcome of an operation of a library that may throw (or of a
    promise that may reject); [message] is the text that the handler of the
    program prints for the error:
    [error instanceof Error ? error.message : 'Unknown error']. *)
Inductive Result (A : Type) : Type :=
| Ok (value : A)
| Throws (message : jsstring).

Arguments Ok {A} value.
Arguments Throws {A} message.

(** The content of a file, a string or an [ArrayBuffer], seen through the
    two readers of the program:
    - [papaRows]: the rows of
      [Papa.parse(content, {header: false, skipEmptyLines: false})], before
      the [transform] of the program is applied to the cells;
    - [sheetRows]: the rows of the first sheet according to [XLSX.read] and
      [sheet_to_json(worksheet, {header: 1, defval: ''})], every cell [c]
      already as [String(c || '')]; or the error of the library. *)
Record Content : Type := {
  papaRows : list Row;
  sheetRows : Result (list Row)
}.

(** An entry of [zipData.files]. *)
Record ZipEntry : Type := {
  entryName : jsstring;
  dir : bool;
  asText : Result Content;
  asArrayBuffer : Result Content
}.

(** A [File] handed to the worker: its name, what [text()] and
    [arrayBuffer()] resolve to, and the entries that JSZip finds in it, in
    the order of [Object.entries], or the error of [loadAsync]. *)
Record File : Type := {
  name : jsstring;
  text : Result Content;
  arrayBuffer : Result Content;
  zip : Result (list ZipEntry)
}.

(** An element of [extractedFiles]. *)
Record Extracted : Type := {
  extractedName : jsstring;
  extractedContent : Content
}.

(** An element of [filesToProcess]. *)
Record FileData : Type := {
  fileDataName : jsstring;
  content : Content;
  originalName : jsstring
}.

Record Summary : Type := {
  filesProcessed : list jsstring;
  rows : list (jsstring * nat);
  warnings : list jsstring
}.

Record ParsedPayload : Type := {
  contacts : list Contact.t;
  messages : list Message.t;
  invites : list Invite.t;
  companyFollows : list CompanyFollow.t;
  savedJobs : list SavedJob.t;
  summary : Summary
}.

(** [rows[key] = value] on an object used as a map: an existing key keeps
    its place and takes the new value, a new key comes last. *)
Fixpoint assign (key : jsstring) (value : nat) (map : list (jsstring * nat))
  : list (jsstring * nat) :=
  match map with
  | [] => [(key, value)]
  | (k, v) :: rest =>
      if streq k key then (k, value) :: rest else (k, v) :: assign key value rest
  end.

(** [rows[key]] *)
Fixpoint lookup (key : jsstring) (map : list (jsstring * nat)) : option nat :=
  match map with
  | [] => None
  | (k, v) :: rest => if streq k key then Some v else lookup key rest
  end.

Definition emptyPayload : ParsedPayload := {|
  contacts := []; messages := []; invites := []; companyFollows := [];
  savedJobs := [];
  summary := {| filesProcessed := []; rows := []; warnings := [] |}
|}.

(** [payload.summary.warnings.push(w)] *)
Definition pushWarning (w : jsstring) (p : ParsedPayload) : ParsedPayload := {|
  contacts := contacts p; messages := messages p; invites := invites p;
  companyFollows := companyFollows p; savedJobs := savedJobs p;
  summary := {| filesProcessed := filesProcessed (summary p);
                rows := rows (summary p);
                warnings := warnings (summary p) ++ [w] |}
|}.

(** The six kinds of file, and the label of each. *)
Inductive FileType : Type :=
| Connections | MessagesFile | Invitations | CompanyFollows | SavedJobs
| JobApplications.

Definition label (fileType : FileType) : jsstring :=
  match fileType with
  | Connections => js "Connections"
  | MessagesFile => js "messages"
  | Invitations => js "Invitations"
  | CompanyFollows => js "Company Follows"
  | SavedJobs => js "Saved Jobs"
  | JobApplications => js "Job Applications"
  end.

Definition patterns : list jsstring :=
  [js "connections"; js "messages"; js "invitations";
   js "company follows"; js "saved jobs"; js "job applications"].

(** [parseCSV]: the [transform] normalises every cell. *)
Definition parseCSV (c : Content) : list Row := map normalizeRow (papaRows c).

(** [parseXLSX] *)
Definition parseXLSX (c : Content) : Result (list Row) :=
  match sheetRows c with
  | Ok jsonData => Ok (map normalizeRow jsonData)
  | Throws message => Throws message
  end.

Section Worker.
Context {host : Host}.

(** [name.split('/').pop() || ''] *)
Definition basenameOf (fileName : jsstring) : jsstring :=
  match pop (split SLASH fileName) with
  | Some b => b
  | None => []
  end.

(** [isCanonicalMessages], computed in the same way at its three places. *)
Definition isCanonicalMessages (fileName : jsstring) : bool :=
  streq (toLowerCase (basenameOf fileName)) (js "messages.csv")
  || endsWith (toLowerCase fileName) (js "/messages.csv").

(** A name that contains [messages] and is not the canonical file. *)
Definition isAuxiliaryMessages (fileName : jsstring) : bool :=
  includes (toLowerCase fileName) (js "messages")
  && negb (isCanonicalMessages fileName).

Definition isRelevantFile (lowerName : jsstring) : bool :=
  existsb (fun pattern => includes lowerName pattern) patterns.

(** One iteration of the loop of [extractZipFiles]; an entry whose content
    cannot be read is reported on the console only. *)
Definition extractEntry (extractedFiles : list Extracted) (entry : ZipEntry)
  : list Extracted :=
  let fileName := entryName entry in
  if dir entry then extractedFiles
  else
    let lowerName := toLowerCase fileName in
    if isAuxiliaryMessages fileName then extractedFiles
    else if isRelevantFile lowerName then
      if endsWith fileName (js ".csv") then
        match asText entry with
        | Ok c => extractedFiles
                    ++ [{| extractedName := fileName; extractedContent := c |}]
        | Throws _ => extractedFiles
        end
      else if endsWith fileName (js ".xlsx") then
        match asArrayBuffer entry with
        | Ok c => extractedFiles
                    ++ [{| extractedName := fileName; extractedContent := c |}]
        | Throws _ => extractedFiles
        end
      else extractedFiles
    else extractedFiles.

(** [extractZipFiles], given the entries of the archive. *)
Definition extractZipFiles (entries : list ZipEntry) : list Extracted :=
  fold_left extractEntry entries [].

(** The first loop of the handler: one [file] of [event.data]. *)
Definition collectFile (state : list FileData * ParsedPayload) (file : File)
  : list FileData * ParsedPayload :=
  let '(filesToProcess, payload) := state in
  if endsWith (toLowerCase (name file)) (js ".zip") then
    match zip file with
    | Ok entries =>
        let extractedFiles := extractZipFiles entries in
        (filesToProcess ++
           map (fun extracted =>
                  {| fileDataName := extractedName extracted;
                     content := extractedContent extracted;
                     originalName := name file |}) extractedFiles,
         pushWarning (js "Extracted " ++ Number_toString (length extractedFiles)
                        ++ js " files from " ++ name file) payload)
    | Throws message =>
        (filesToProcess,
         pushWarning (js "Failed to extract ZIP file " ++ name file
                        ++ js ": " ++ message) payload)
    end
  else
    let fileName := toLowerCase (name file) in
    if isAuxiliaryMessages (name file) then
      (filesToProcess,
       pushWarning (js "Ignoring auxiliary messages file "
                      ++ basenameOf (name file)) payload)
    else if isRelevantFile fileName then
      let read (r : Result Content) :=
        match r with
        | Ok c => (filesToProcess ++
                     [{| fileDataName := name file; content := c;
                         originalName := name file |}], payload)
        | Throws message =>
            (filesToProcess,
             pushWarning (js "Failed to read file " ++ name file
                            ++ js ": " ++ message) payload)
        end in
      if endsWith fileName (js ".csv") then read (text file)
      else if endsWith fileName (js ".xlsx") then read (arrayBuffer file)
      else (filesToProcess, payload)
    else
      (filesToProcess, pushWarning (js "Unrecognized file: " ++ name file) payload).

(** The chain of tests that determines [fileType]. *)
Definition fileTypeOf (fileName : jsstring) : option FileType :=
  if includes fileName (js "connections") then Some Connections
  else if includes fileName (js "messages") then Some MessagesFile
  else if includes fileName (js "invitations") then Some Invitations
  else if includes fileName (js "company follows") then Some CompanyFollows
  else if includes fileName (js "saved jobs") then Some SavedJobs
  else if includes fileName (js "job applications") then Some JobApplications
  else None.

(** The [switch] of the handler, after [filesProcessed] and [rows] have
    been updated: four kinds assign their collection, the two kinds of
    jobs push onto [savedJobs].  Every normaliser pushes onto
    [payload.summary.warnings]. *)
Definition dispatch (fileType : FileType) (data : list Row) (fileData : FileData)
    (p : ParsedPayload) : ParsedPayload :=
  let s := summary p in
  let withWarnings w :=
    {| filesProcessed := filesProcessed s; rows := rows s; warnings := w |} in
  match fileType with
  | Connections =>
      let '(records, w) := processConnections data (warnings s) (fileDataName fileData) in
      {| contacts := records; messages := messages p; invites := invites p;
         companyFollows := companyFollows p; savedJobs := savedJobs p;
         summary := withWarnings w |}
  | MessagesFile =>
      let '(records, w) := processMessages data (warnings s) (fileDataName fileData) in
      {| contacts := contacts p; messages := records; invites := invites p;
         companyFollows := companyFollows p; savedJobs := savedJobs p;
         summary := withWarnings w |}
  | Invitations =>
      let '(records, w) := processInvitations data (warnings s) (fileDataName fileData) in
      {| contacts := contacts p; messages := messages p; invites := records;
         companyFollows := companyFollows p; savedJobs := savedJobs p;
         summary := withWarnings w |}
  | CompanyFollows =>
      let '(records, w) := processCompanyFollows data (warnings s) (fileDataName fileData) in
      {| contacts := contacts p; messages := messages p; invites := invites p;
         companyFollows := records; savedJobs := savedJobs p;
         summary := withWarnings w |}
  | SavedJobs =>
      let '(records, w) := processSavedJobs data (warnings s) (fileDataName fileData) false in
      {| contacts := contacts p; messages := messages p; invites := invites p;
         companyFollows := companyFollows p; savedJobs := savedJobs p ++ records;
         summary := withWarnings w |}
  | JobApplications =>
      let '(records, w) := processSavedJobs data (warnings s) (fileDataName fileData) true in
      {| contacts := contacts p; messages := messages p; invites := invites p;
         companyFollows := companyFollows p; savedJobs := savedJobs p ++ records;
         summary := withWarnings w |}
  end.

(** [filesProcessed.push(...)] and [rows[fileType] = data.length]. *)
Definition recordFile (fileType : FileType) (data : list Row) (fileData : FileData)
    (p : ParsedPayload) : ParsedPayload := {|
  contacts := contacts p; messages := messages p; invites := invites p;
  companyFollows := companyFollows p; savedJobs := savedJobs p;
  summary := {|
    filesProcessed := filesProcessed (summary p) ++
      [label fileType ++ js " (" ++ originalName fileData ++ js ")"];
    rows := assign (label fileType) (length data) (rows (summary p));
    warnings := warnings (summary p) |}
|}.

(** The second loop of the handler: one [fileData] of [filesToProcess]. *)
Definition processFile (payload : ParsedPayload) (fileData : FileData)
  : ParsedPayload :=
  let fileName := toLowerCase (fileDataName fileData) in
  if isAuxiliaryMessages (fileDataName fileData) then
    pushWarning (js "Ignoring auxiliary messages file "
                   ++ basenameOf (fileDataName fileData)) payload
  else
    match fileTypeOf fileName with
    | None => pushWarning (js "Unrecognized file: " ++ fileDataName fileData) payload
    | Some fileType =>
        if endsWith fileName (js ".csv") then
          let data := parseCSV (content fileData) in
          dispatch fileType data fileData (recordFile fileType data fileData payload)
        else if endsWith fileName (js ".xlsx") then
          match parseXLSX (content fileData) with
          | Ok data =>
              dispatch fileType data fileData
                (recordFile fileType data fileData payload)
          | Throws message =>
              pushWarning (js "Error processing " ++ fileDataName fileData
                             ++ js ": " ++ message) payload
          end
        else
          pushWarning (js "Unsupported file format: " ++ fileDataName fileData) payload
    end.

(** The handler of the [message] event: the payload that it posts for the
    files of [event.data].  The payload is created by the handler. *)
Definition onMessage (files : list File) : ParsedPayload :=
  let '(filesToProcess, payload) := fold_left collectFile files ([], emptyPayload) in
  fold_left processFile filesToProcess payload.

End Worker.
(* ------------------------------------------------------------------ *)
(** * Predicates used in the statements *)

(** No two adjacent code units are both white space. *)
Fixpoint noWhiteSpaceRun (s : jsstring) : bool :=
  match s with
  | c :: s' =>
      match s' with
      | d :: _ => negb (isWhiteSpace c && isWhiteSpace d) && noWhiteSpaceRun s'
      | [] => true
      end
  | [] => true
  end.

(** A fixed point of [normalizeText]. *)
Definition fixedPoint (s : jsstring) : Prop := normalizeText (Some s) = s.

(** An optional field holds a fixed point when it is present. *)
Definition optFixedPoint (field : option jsstring) : Prop :=
  match field with Some s => fixedPoint s | None => True end.

Definition contactFieldsFixed (c : Contact.t) : Prop :=
  fixedPoint (Contact.name c) /\ optFixedPoint (Contact.company c)
  /\ optFixedPoint (Contact.title c) /\ optFixedPoint (Contact.location c).

Definition messageFieldsFixed (m : Message.t) : Prop :=
  fixedPoint (Message.body m).

Definition inviteFieldsFixed (i : Invite.t) : Prop :=
  fixedPoint (Invite.counterpartName i) /\ optFixedPoint (Invite.message i).

Definition followFieldsFixed (f : CompanyFollow.t) : Prop :=
  fixedPoint (CompanyFollow.company f).

Definition jobFieldsFixed (j : SavedJob.t) : Prop :=
  fixedPoint (SavedJob.company j) /\ fixedPoint (SavedJob.title j).

(** An invariant for each kind of record holds of every record of a
    payload. *)
Definition payloadAll (Pc : Contact.t -> Prop) (Pm : Message.t -> Prop)
    (Pi : Invite.t -> Prop) (Pf : CompanyFollow.t -> Prop)
    (Pj : SavedJob.t -> Prop) (p : ParsedPayload) : Prop :=
  Forall Pc (contacts p) /\ Forall Pm (messages p) /\ Forall Pi (invites p)
  /\ Forall Pf (companyFollows p) /\ Forall Pj (savedJobs p).

Definition payloadFieldsFixed : ParsedPayload -> Prop :=
  payloadAll contactFieldsFixed messageFieldsFixed inviteFieldsFixed
    followFieldsFixed jobFieldsFixed.

(** A lower-case hexadecimal digit. *)
Definition isHexDigit (c : N) : bool :=
  ((48 <=? c) && (c <=? 57) || (97 <=? c) && (c <=? 102))%N.

Section ThreadKey.
Context {host : Host}.

(** The day bucket in the words of the specification: the UTC calendar date
    of the instant that the timestamp denotes, or the token [unknown]. *)
Definition dayBucketOf (ts : jsstring) : jsstring :=
  match ts with
  | [] => js "unknown"
  | _ => match Date_parse ts with
         | Some instant => DateTime.utcDate instant
         | None => js "unknown"
         end
  end.

End ThreadKey.

(** The order of [str_leb] as a relation. *)
Definition str_le (a b : jsstring) : Prop := str_leb a b = true.

(** No code unit of the string is the letter T. *)
Definition noLetterT (s : jsstring) : bool :=
  forallb (fun c => negb (c =? LETTER_T)%N) s.

Section SavedJobWords.
Context {host : Host}.

(** The admission rule of the SavedJob normaliser in the words of the
    specification: at least one of company or title is present. *)
Definition jobAdmitted (headers row : Row) : bool :=
  truthy (getValueByAliases row headers SavedJobsAliases.company)
  || truthy (getValueByAliases row headers SavedJobsAliases.title).

(** The record that one iteration of the loop of [processSavedJobs] pushes
    for an admitted row: the identifier is computed from the cells of the
    row, then the record takes [Unknown] for an empty cell. *)
Definition jobPushed (headers row : Row) : SavedJob.t :=
  let title := getValueByAliases row headers SavedJobsAliases.title in
  let company := getValueByAliases row headers SavedJobsAliases.company in
  let ts := parseTimestamp (getValueByAliases row headers SavedJobsAliases.ts) in
  {| SavedJob.id := stableHash (company ++ PIPE ++ title ++ PIPE ++ ts);
     SavedJob.company := orElse company (js "Unknown");
     SavedJob.title := orElse title (js "Unknown");
     SavedJob.ts := ts |}.

(** The record of an admitted row in the words of the specification: the
    missing field is [Unknown], and the identifier is the stable hash of
    [company|title|instant], the company, the title and the instant of
    the record. *)
Definition jobRecordOf (headers row : Row) : SavedJob.t :=
  let company :=
    match getValueByAliases row headers SavedJobsAliases.company with
    | [] => js "Unknown"
    | company => company
    end in
  let title :=
    match getValueByAliases row headers SavedJobsAliases.title with
    | [] => js "Unknown"
    | title => title
    end in
  let instant := parseTimestamp (getValueByAliases row headers SavedJobsAliases.ts) in
  {| SavedJob.id := stableHash (company ++ js "|" ++ title ++ js "|" ++ instant);
     SavedJob.company := company;
     SavedJob.title := title;
     SavedJob.ts := instant |}.

End SavedJobWords.

(** The identifier of a contact that has a URL is the hash of the URL. *)
Definition idFromUrl (c : Contact.t) : Prop :=
  match Contact.url c with
  | Some u => Contact.id c = stableHash u
  | None => True
  end.

(** The records that the iterations of a loop push, in order. *)
Definition pushedBy {R : Type} (body : Row -> option R * list jsstring)
    (dataRows : list Row) : list R :=
  flat_map (fun row => match fst (body row) with Some r => [r] | None => [] end)
    dataRows.
(* ------------------------------------------------------------------ *)
(** * Example inputs *)

Section Examples.
Local Open Scope string_scope.

(** A content that is a CSV text with the given rows; it is no workbook. *)
Definition csvContent (data : list Row) : Content := {|
  papaRows := data;
  sheetRows := Throws (js "File is not a workbook")
|}.

(** A CSV file handed to the worker directly. *)
Definition csvFile (fileName : string) (data : list Row) : File := {|
  name := js fileName;
  text := Ok (csvContent data);
  arrayBuffer := Ok (csvContent data);
  zip := Throws (js "Not a zip file")
|}.

(** A CSV entry of an archive. *)
Definition csvEntry (fileName : string) (data : list Row) : ZipEntry := {|
  entryName := js fileName;
  dir := false;
  asText := Ok (csvContent data);
  asArrayBuffer := Ok (csvContent data)
|}.

(** An archive with the given entries. *)
Definition zipFile (fileName : string) (entries : list ZipEntry) : File := {|
  name := js fileName;
  text := Ok (csvContent []);
  arrayBuffer := Ok (csvContent []);
  zip := Ok entries
|}.

Definition row (cells : list string) : Row := map js cells.

(** A conversation export with one message. *)
Definition messagesTable : list Row :=
  [ row ["FROM"; "TO"; "CONTENT"; "DATE"];
    row ["You"; "Jane Smith"; "Hello, how are you?"; "2024-01-15 14:30:00 UTC"] ].

(** The same export below one line of notes. *)
Definition messagesTableWithPreamble : list Row :=
  row ["Notes: exported conversations"] :: messagesTable.


(** An archive with the canonical export and a second file of messages. *)
Definition archiveWithAuxiliary : File :=
  zipFile "export.zip"
    [csvEntry "messages.csv" messagesTable;
     csvEntry "guide_messages.csv" messagesTable].


Definition connectionsHeader : Row :=
  row ["First Name"; "Last Name"; "URL"; "Company"; "Position"; "Connected On"].

Definition johnRow : Row :=
  row ["John"; "Doe"; "https://linkedin.com/in/johndoe"; "TestCorp"; "Engineer";
       "2024-01-02 10:00:00 UTC"].

(** The same person after a change of company, position and date. *)
Definition johnRowLater : Row :=
  row ["John"; "Doe"; "https://linkedin.com/in/johndoe"; "OtherCorp"; "Manager";
       "2025-03-04 08:00:00 UTC"].

Definition janeRow : Row :=
  row ["Jane"; "Smith"; "https://linkedin.com/in/janesmith"; "Acme"; "Designer";
       "2024-02-03 09:00:00 UTC"].

(** Two exports of connections handed to the worker in one invocation. *)
Definition firstConnections : File :=
  csvFile "Connections.csv" [connectionsHeader; johnRow].
Definition secondConnections : File :=
  csvFile "More Connections.csv" [connectionsHeader; janeRow].

(** An export of connections below two lines of notes. *)
Definition connectionsWithPreamble : list Row :=
  [ row ["Notes:"]; row ["When exporting your connection data ..."];
    connectionsHeader; johnRow ].

(** Two exports of saved jobs handed to the worker in one invocation. *)
Definition firstJobs : File :=
  csvFile "Saved Jobs.csv"
    [row ["Company"; "Title"; "Saved On"]; row ["Acme"; "Engineer"; ""]].
Definition secondJobs : File :=
  csvFile "More Saved Jobs.csv"
    [row ["Company"; "Title"; "Saved On"]; row ["Initech"; ""; ""]].

End Examples.
(* ------------------------------------------------------------------ *)
(** * Further notions for the statements *)

(** A code unit that is not white space. *)
Definition isInk (c : N) : bool := negb (isWhiteSpace c).

(** No code unit of the string is [sep]. *)
Definition free (sep : N) (s : jsstring) : bool :=
  forallb (fun c => negb (c =? sep)%N) s.

(** Some alias matches the header. *)
Definition matchesAny (aliases : list Alias) (header : jsstring) : bool :=
  existsb (fun alias => aliasMatches alias header) aliases.

Section Validation.
Context {host : Host}.

(** [validationTests.validateTimestamp] of src/utils/parserValidation.ts:
    the text must hold a T and a Z and be a date for the host; the
    constructor of dates does not throw. *)
Definition validateTimestamp (connectedAt : jsstring) : bool :=
  if negb (truthy connectedAt) then false
  else
    let isValidISOString :=
      includes connectedAt (js "T") && includes connectedAt (js "Z") in
    let isValidDate :=
      match Date_parse connectedAt with Some _ => true | None => false end in
    isValidISOString && isValidDate.

End Validation.

(** The alias is a regular expression with the flag [i]. *)
Definition isRegex (alias : Alias) : bool :=
  match alias with Literal _ => false | _ => true end.

(** The warnings that the iterations of a loop push, in order. *)
Definition pushedWarnings {R : Type} (body : Row -> option R * list jsstring)
    (dataRows : list Row) : list jsstring :=
  flat_map (fun row => snd (body row)) dataRows.

Section InviteDirection.
Context {host : Host}.

(** The direction of an invite, lines 880-888 of the worker: the direction
    column decides when it holds [outgoing] or [incoming], else the sender
    does. *)
Definition inviteDirectionOf (direction from : jsstring) : Direction :=
  if includes (toLowerCase direction) (js "outgoing") then sent
  else if includes (toLowerCase direction) (js "incoming") then received
  else if includes (toLowerCase from) (js "you") then sent else received.

End InviteDirection.

(** What the records of a payload carry. *)

(** A timestamp field: empty, or the ISO text of an instant. *)
Definition isTimestamp (ts : jsstring) : Prop :=
  ts = [] \/ exists instant : Z, ts = DateTime.toISOString instant.

(** An optional field is absent or not empty: [value || undefined]. *)
Definition present (field : option jsstring) : Prop := field <> Some [].

(** The identifier of a contact is the hash of its URL when it has one, and
    of [name|company|connectedAt] otherwise, the company being empty when
    the contact has none. *)
Definition contactIdentity (c : Contact.t) : Prop :=
  Contact.id c
  = stableHash
      match Contact.url c with
      | Some url => url
      | None =>
          Contact.name c ++ PIPE
            ++ match Contact.company c with Some company => company | None => [] end
            ++ PIPE ++ Contact.connectedAt c
      end
  /\ Contact.name c <> []
  /\ present (Contact.title c) /\ present (Contact.company c)
  /\ present (Contact.location c) /\ present (Contact.url c)
  /\ isTimestamp (Contact.connectedAt c).

Definition messageIdentity (m : Message.t) : Prop :=
  Message.id m
  = stableHash (Message.threadId m ++ PIPE ++ Message.ts m ++ PIPE
                  ++ substring0 40 (Message.body m))
  /\ Message.body m <> []
  /\ isTimestamp (Message.ts m).

Definition inviteIdentity (i : Invite.t) : Prop :=
  Invite.id i
  = stableHash (directionText (Invite.direction i) ++ PIPE
                  ++ Invite.counterpartName i ++ PIPE ++ Invite.ts i)
  /\ Invite.status i = unknown
  /\ present (Invite.message i)
  /\ isTimestamp (Invite.ts i).

Definition followIdentity (f : CompanyFollow.t) : Prop :=
  CompanyFollow.id f = stableHash (CompanyFollow.company f ++ PIPE ++ CompanyFollow.ts f)
  /\ CompanyFollow.company f <> []
  /\ isTimestamp (CompanyFollow.ts f).

Definition jobIdentity (j : SavedJob.t) : Prop :=
  length (SavedJob.id j) = 12
  /\ SavedJob.company j <> [] /\ SavedJob.title j <> []
  /\ isTimestamp (SavedJob.ts j).

(** [payload.summary.warnings.push(...ws)] *)
Definition addWarnings (ws : list jsstring) (p : ParsedPayload) : ParsedPayload := {|
  contacts := contacts p; messages := messages p; invites := invites p;
  companyFollows := companyFollows p; savedJobs := savedJobs p;
  summary := {| filesProcessed := filesProcessed (summary p);
                rows := rows (summary p);
                warnings := warnings (summary p) ++ ws |}
|}.

Definition sameFileType (a b : FileType) : bool :=
  match a, b with
  | Connections, Connections | MessagesFile, MessagesFile
  | Invitations, Invitations | CompanyFollows, CompanyFollows
  | SavedJobs, SavedJobs | JobApplications, JobApplications => true
  | _, _ => false
  end.

Section Queue.
Context {host : Host}.

(** What the first loop of the handler does for one file of [event.data]:
    the files that it queues for the second loop, and the warnings that it
    pushes. *)
Definition queued (file : File) : list FileData :=
  fst (collectFile ([], emptyPayload) file).

Definition notices (file : File) : list jsstring :=
  warnings (summary (snd (collectFile ([], emptyPayload) file))).

(** The queue [filesToProcess] when the first loop is over. *)
Definition queue (files : list File) : list FileData :=
  fst (fold_left collectFile files ([], emptyPayload)).

(** What the second loop of the handler does for one queued file, seen on
    an empty payload. *)
Definition contribution (fileData : FileData) : ParsedPayload :=
  processFile emptyPayload fileData.

Definition diagnostics (fileData : FileData) : list jsstring :=
  warnings (summary (contribution fileData)).

Definition reported (fileData : FileData) : list jsstring :=
  filesProcessed (summary (contribution fileData)).

Definition jobsOf (fileData : FileData) : list SavedJob.t :=
  savedJobs (contribution fileData).

(** The file type and the rows with which a queued file reaches the
    [switch] of the handler; [None] when an iteration of the second loop
    ends before. *)
Definition processedAs (fileData : FileData) : option (FileType * list Row) :=
  let fileName := toLowerCase (fileDataName fileData) in
  if isAuxiliaryMessages (fileDataName fileData) then None
  else
    match fileTypeOf fileName with
    | None => None
    | Some fileType =>
        if endsWith fileName (js ".csv") then
          Some (fileType, parseCSV (content fileData))
        else if endsWith fileName (js ".xlsx") then
          match parseXLSX (content fileData) with
          | Ok data => Some (fileType, data)
          | Throws _ => None
          end
        else None
    end.

Definition isKind (fileType : FileType) (fileData : FileData) : bool :=
  match processedAs fileData with
  | Some (fileType', _) => sameFileType fileType fileType'
  | None => false
  end.

(** The last file of a queue that reaches the [switch] with a given type. *)
Definition lastOfKind (fileType : FileType) (fileDatas : list FileData)
  : option FileData :=
  find (isKind fileType) (rev fileDatas).

Definition rowCount (fileData : FileData) : option nat :=
  match processedAs fileData with
  | Some (_, data) => Some (length data)
  | None => None
  end.

Definition dataOf (fileData : FileData) : list Row :=
  match processedAs fileData with
  | Some (_, data) => data
  | None => []
  end.

End Queue.

(** A payload without its warnings. *)
Definition results (p : ParsedPayload) :=
  (contacts p, messages p, invites p, companyFollows p, savedJobs p,
   filesProcessed (summary p), rows (summary p)).

(** Reading a number in base 36, as [parseInt(s, 36)] does for a string of
    the digits [0-9a-z]. *)
Definition isBase36Digit (c : N) : bool :=
  ((48 <=? c) && (c <=? 57) || (97 <=? c) && (c <=? 122))%N.

Definition digitValue (c : N) : Z :=
  if (c <=? 57)%N then Z.of_N c - 48 else Z.of_N c - 87.

Definition fromBase36 (s : jsstring) : Z :=
  fold_left (fun acc c => acc * 36 + digitValue c)%Z s 0%Z.

(** The polynomial in 31 of the code units of a string, without
    wrap-around. *)
Definition polynomial31 (input : jsstring) : Z :=
  fold_left (fun acc c => 31 * acc + Z.of_N c)%Z input 0%Z.

(** The acceptance tests of src/utils/parserValidation.ts, without what
    they print on the console. *)
Definition validateMeOrThem (message : Message.t) : bool :=
  match Message.meOrThem message with me => true | them => false end.

Definition validateThreadId (message : Message.t) : bool :=
  truthy (Message.threadId message) && (0 <? length (Message.threadId message)).

Definition validateInviteDirection (invite : Invite.t) : bool :=
  match Invite.direction invite with sent => true | received => false end.

Definition validateSavedJobTimestamp (job : SavedJob.t) : bool :=
  truthy (SavedJob.ts job) && (0 <? length (SavedJob.ts job)).

(** [runValidationTests]: the five results are literals of the source. *)
Definition runValidationTests (payload : ParsedPayload) : bool :=
  let testResults := [true; true; true; true; true] in
  forallb (fun result : bool => result) testResults.

(* ------------------------------------------------------------------ *)
(** * More example inputs *)

Section MoreExamples.
Local Open Scope string_scope.

(** An archive that JSZip cannot open. *)
Definition brokenArchive : File := {|
  name := js "export.zip";
  text := Ok (csvContent []);
  arrayBuffer := Ok (csvContent []);
  zip := Throws (js "Corrupted zip")
|}.


(** Two messages of one minute that differ in their last words only. *)
Definition twoLongMessages : File :=
  csvFile "messages.csv"
    [ row ["FROM"; "TO"; "CONTENT"; "DATE"];
      row ["You"; "Jane Smith";
           "I will be at the station at half past nine, platform 2";
           "2024-01-15 14:30:00 UTC"];
      row ["You"; "Jane Smith";
           "I will be at the station at half past nine, platform 7";
           "2024-01-15 14:30:00 UTC"] ].

(** An export of connections below ten lines of notes. *)
Definition tenNotes : list Row := repeat (row ["Notes"]) 10.

(** The conversation export handed to the worker directly. *)
Definition messagesFile : File := csvFile "messages.csv" messagesTable.


(** Two rows of saved jobs: one without company, one whose company is the
    word [Unknown]. *)
Definition jobsHeader : Row := row ["Company"; "Title"; "Saved On"].
Definition engineerRow : Row := row [""; "Engineer"; ""].
Definition unknownEngineerRow : Row := row ["Unknown"; "Engineer"; ""].

Definition noMessage : Message.t := {|
  Message.id := []; Message.threadId := []; Message.meOrThem := them;
  Message.otherId := []; Message.body := []; Message.ts := []
|}.

End MoreExamples.

(** The order of strings by code units in the words of ECMAScript: [a]
    comes before [b] when [a] is a proper prefix of [b], or when at the
    first place where they differ the code unit of [a] is the smaller. *)
Definition lexLess (a b : jsstring) : Prop :=
  (exists rest, rest <> [] /\ b = a ++ rest)
  \/ (exists common x y a' b',
        a = common ++ x :: a' /\ b = common ++ y :: b' /\ (x < y)%N).

(* ------------------------------------------------------------------ *)
(** * Lemmas on text normalisation *)

Lemma truthy_false (s : jsstring) : truthy s = false -> s = [].
Proof. destruct s; [reflexivity | discriminate]. Qed.

Lemma truthy_true (s : jsstring) : truthy s = true <-> s <> [].
Proof. destruct s; simpl; split; congruence. Qed.

Lemma isWhiteSpace_BOM : isWhiteSpace BOM = true.
Proof. reflexivity. Qed.

Lemma isWhiteSpace_SPACE : isWhiteSpace SPACE = true.
Proof. reflexivity. Qed.

Lemma trimStart_startsClean (s : jsstring) : startsClean (trimStart s) = true.
Proof.
  induction s as [|c s IH]; simpl; [reflexivity|].
  destruct (isWhiteSpace c) eqn:E; [exact IH|].
  simpl. now rewrite E.
Qed.

Lemma trimStart_clean (s : jsstring) : startsClean s = true -> trimStart s = s.
Proof.
  destruct s as [|c s]; simpl; [reflexivity|].
  destruct (isWhiteSpace c); [discriminate | reflexivity].
Qed.

Lemma trimStart_suffix (s : jsstring) : exists p, s = p ++ trimStart s.
Proof.
  induction s as [|c s [p Hp]]; simpl.
  - now exists [].
  - destruct (isWhiteSpace c).
    + exists (c :: p). simpl. now f_equal.
    + now exists [].
Qed.

Lemma trimEnd_endsClean (s : jsstring) : endsClean (trimEnd s) = true.
Proof.
  unfold endsClean, trimEnd. rewrite rev_involutive. apply trimStart_startsClean.
Qed.

Lemma trimEnd_clean (s : jsstring) : endsClean s = true -> trimEnd s = s.
Proof.
  unfold endsClean, trimEnd. intros H.
  rewrite (trimStart_clean _ H). apply rev_involutive.
Qed.

Lemma trimEnd_prefix (s : jsstring) : exists q, s = trimEnd s ++ q.
Proof.
  unfold trimEnd. destruct (trimStart_suffix (rev s)) as [p Hp].
  exists (rev p). rewrite <- rev_app_distr, <- Hp. symmetry. apply rev_involutive.
Qed.

Lemma startsClean_prefix (s q : jsstring) :
  startsClean (s ++ q) = true -> startsClean s = true.
Proof. destruct s; simpl; auto. Qed.

Lemma trim_startsClean (s : jsstring) : startsClean (trim s) = true.
Proof.
  unfold trim. destruct (trimEnd_prefix (trimStart s)) as [q Hq].
  apply startsClean_prefix with q. rewrite <- Hq. apply trimStart_startsClean.
Qed.

Lemma trim_endsClean (s : jsstring) : endsClean (trim s) = true.
Proof. apply trimEnd_endsClean. Qed.

Lemma trim_clean (s : jsstring) :
  startsClean s = true -> endsClean s = true -> trim s = s.
Proof.
  intros H1 H2. unfold trim. rewrite (trimStart_clean _ H1). now apply trimEnd_clean.
Qed.

Lemma endsClean_snoc (s : jsstring) (c : N) :
  endsClean (s ++ [c]) = negb (isWhiteSpace c).
Proof. unfold endsClean. now rewrite rev_app_distr. Qed.

Lemma endsClean_inv (s : jsstring) :
  endsClean s = true -> s = [] \/ exists p c, s = p ++ [c] /\ isWhiteSpace c = false.
Proof.
  destruct s as [|a s'] using rev_ind; [now left|]. clear IHs'.
  rewrite endsClean_snoc. intros H. right. exists s', a. split; [reflexivity|].
  now destruct (isWhiteSpace a).
Qed.

Lemma collapseFrom_idem (s : jsstring) :
  forall b, collapseFrom b (collapseFrom b s) = collapseFrom b s.
Proof.
  induction s as [|c s IH]; intros b; simpl; [reflexivity|].
  destruct (isWhiteSpace c) eqn:E.
  - destruct b; [apply IH|].
    simpl. now rewrite IH.
  - simpl. rewrite E. now rewrite IH.
Qed.

Lemma collapseFrom_snoc (s : jsstring) (c : N) :
  isWhiteSpace c = false ->
  forall b, collapseFrom b (s ++ [c]) = collapseFrom b s ++ [c].
Proof.
  intros Hc. induction s as [|a s IH]; intros b; simpl.
  - now rewrite Hc.
  - destruct (isWhiteSpace a); [destruct b|]; simpl; now rewrite IH.
Qed.

Lemma collapseFrom_app_clean (p : jsstring) (c : N) (q : jsstring) :
  isWhiteSpace c = false ->
  forall b, collapseFrom b (p ++ c :: q) = collapseFrom b p ++ c :: collapseFrom false q.
Proof.
  intros Hc. induction p as [|a p IH]; intros b; simpl.
  - now rewrite Hc.
  - destruct (isWhiteSpace a); [destruct b|]; simpl; now rewrite IH.
Qed.

Lemma collapseFrom_clean (s : jsstring) :
  startsClean s = true -> collapseFrom true s = collapseFrom false s.
Proof.
  destruct s as [|c s]; simpl; [reflexivity|].
  destruct (isWhiteSpace c); [discriminate | reflexivity].
Qed.

Lemma collapse_startsClean (s : jsstring) :
  startsClean s = true -> startsClean (collapseSpaces s) = true.
Proof.
  destruct s as [|c s]; simpl; [reflexivity|]. unfold collapseSpaces. simpl.
  destruct (isWhiteSpace c) eqn:E; [discriminate|]. simpl. now rewrite E.
Qed.

Lemma collapse_endsClean (s : jsstring) :
  endsClean s = true -> endsClean (collapseSpaces s) = true.
Proof.
  intros H. destruct (endsClean_inv _ H) as [->|(p & c & -> & Hc)]; [reflexivity|].
  unfold collapseSpaces. rewrite collapseFrom_snoc by exact Hc.
  rewrite endsClean_snoc. now rewrite Hc.
Qed.

Lemma Normal_nil : Normal [].
Proof. repeat split. Qed.

Lemma Normal_js_Unknown : Normal (js "Unknown").
Proof. repeat split. Qed.

Lemma normalizeText_Normal (text : option jsstring) : Normal (normalizeText text).
Proof.
  destruct text as [s|]; simpl; [|apply Normal_nil].
  destruct (truthy s); [|apply Normal_nil].
  repeat split.
  - apply collapse_startsClean, trim_startsClean.
  - apply collapse_endsClean, trim_endsClean.
  - apply collapseFrom_idem.
Qed.

Lemma stripBOM_clean (s : jsstring) : startsClean s = true -> stripBOM s = s.
Proof.
  destruct s as [|c s]; simpl; [reflexivity|].
  destruct (N.eqb_spec c BOM) as [->|]; [|reflexivity].
  rewrite isWhiteSpace_BOM. discriminate.
Qed.

Lemma Normal_fixed (s : jsstring) : Normal s -> normalizeText (Some s) = s.
Proof.
  intros (H1 & H2 & H3). simpl. destruct (truthy s) eqn:E.
  - rewrite (stripBOM_clean _ H1), (trim_clean _ H1 H2). exact H3.
  - symmetry. now apply truthy_false.
Qed.

Lemma fixed_Normal (s : jsstring) : normalizeText (Some s) = s -> Normal s.
Proof. intros H. rewrite <- H. apply normalizeText_Normal. Qed.
(* ------------------------------------------------------------------ *)
(** * Fields of the records are normalised *)

Lemma collapseFrom_true_startsClean (s : jsstring) :
  startsClean (collapseFrom true s) = true.
Proof.
  induction s as [|c s IH]; simpl; [reflexivity|].
  destruct (isWhiteSpace c) eqn:E; [exact IH|]. simpl. now rewrite E.
Qed.

Lemma noWhiteSpaceRun_cons (c : N) (s : jsstring) :
  noWhiteSpaceRun (c :: s)
  = negb (isWhiteSpace c && negb (startsClean s)) && noWhiteSpaceRun s.
Proof.
  destruct s as [|d r]; simpl.
  - now rewrite andb_false_r.
  - now rewrite negb_involutive.
Qed.

Lemma collapseFrom_noRun (s : jsstring) :
  forall b, noWhiteSpaceRun (collapseFrom b s) = true.
Proof.
  induction s as [|c s IH]; intros b; [reflexivity|].
  cbn [collapseFrom]. destruct (isWhiteSpace c) eqn:E.
  - destruct b; [apply IH|].
    rewrite noWhiteSpaceRun_cons, IH, collapseFrom_true_startsClean.
    now rewrite andb_false_r.
  - now rewrite noWhiteSpaceRun_cons, IH, E.
Qed.

Lemma Normal_tidy (s : jsstring) :
  Normal s ->
  hd_error s <> Some BOM /\ startsClean s = true /\ endsClean s = true
  /\ noWhiteSpaceRun s = true.
Proof.
  intros (H1 & H2 & H3). repeat split; trivial.
  - destruct s as [|c s]; [discriminate|]. simpl in *. intros [= ->].
    rewrite isWhiteSpace_BOM in H1. discriminate.
  - rewrite <- H3. apply collapseFrom_noRun.
Qed.

Lemma Normal_collapse (s : jsstring) : Normal s -> collapseFrom false s = s.
Proof. now intros (_ & _ & H). Qed.

Lemma trimEnd_snoc_ws (s : jsstring) (c : N) :
  isWhiteSpace c = true -> trimEnd (s ++ [c]) = trimEnd s.
Proof. intros H. unfold trimEnd. rewrite rev_app_distr. simpl. now rewrite H. Qed.

Lemma collapseFrom_ws (c : N) (s : jsstring) :
  isWhiteSpace c = true -> collapseFrom false (c :: s) = SPACE :: collapseFrom true s.
Proof. intros H. simpl. now rewrite H. Qed.

(** The display name of a contact: [`${firstName} ${lastName}`.trim()]. *)
Lemma Normal_fullName (f l : jsstring) :
  Normal f -> Normal l -> Normal (orElse (trim (f ++ js " " ++ l)) (js "Unknown")).
Proof.
  intros Hf Hl.
  destruct Hf as (Hf1 & Hf2 & Hf3). destruct Hl as (Hl1 & Hl2 & Hl3).
  change (js " ") with [SPACE].
  destruct f as [|a f'].
  - (* no first name *)
    assert (E : trim ([] ++ [SPACE] ++ l) = l).
    { unfold trim. simpl. rewrite (trimStart_clean _ Hl1). now apply trimEnd_clean. }
    rewrite E. unfold orElse. destruct (truthy l) eqn:T.
    + repeat split; assumption.
    + apply Normal_js_Unknown.
  - destruct l as [|b l'].
    + (* no last name *)
      assert (E : trim ((a :: f') ++ [SPACE] ++ []) = a :: f').
      { change ([SPACE] ++ []) with [SPACE]. unfold trim.
        rewrite trimStart_clean by exact Hf1.
        rewrite trimEnd_snoc_ws by reflexivity. now apply trimEnd_clean. }
      rewrite E. unfold orElse. simpl. repeat split; assumption.
    + (* both names *)
      set (s := (a :: f') ++ [SPACE] ++ b :: l').
      assert (S1 : startsClean s = true) by exact Hf1.
      assert (S2 : endsClean s = true).
      { unfold endsClean, s. rewrite !rev_app_distr. unfold endsClean in Hl2.
        simpl rev at 1. destruct (rev l' ++ [b]) as [|x r] eqn:R.
        - destruct (rev l'); discriminate.
        - simpl in Hl2. rewrite R in Hl2. simpl. exact Hl2. }
      rewrite (trim_clean _ S1 S2).
      unfold orElse. replace (truthy s) with true by reflexivity.
      repeat split; trivial.
      destruct (endsClean_inv _ Hf2) as [E|(p & c & E & Hc)]; [discriminate|].
      unfold s, collapseSpaces. rewrite E, <- app_assoc. simpl app at 2.
      rewrite collapseFrom_app_clean by exact Hc.
      change ([SPACE] ++ b :: l') with (SPACE :: b :: l').
      rewrite (collapseFrom_ws SPACE (b :: l')) by reflexivity.
      rewrite (collapseFrom_clean (b :: l') Hl1).
      unfold collapseSpaces in Hl3, Hf3. rewrite Hl3.
      rewrite E, collapseFrom_snoc in Hf3 by exact Hc.
      apply app_inj_tail in Hf3. destruct Hf3 as [-> _].
      reflexivity.
Qed.

Lemma getValueByAliases_Normal (row headers : list jsstring) (aliases : list Alias) :
  Normal (getValueByAliases row headers aliases).
Proof.
  unfold getValueByAliases. destruct (findHeaderIndex headers aliases).
  - apply normalizeText_Normal.
  - apply Normal_nil.
Qed.

Lemma getValueByAliases_fixed (row headers : list jsstring) (aliases : list Alias) :
  fixedPoint (getValueByAliases row headers aliases).
Proof. apply Normal_fixed, getValueByAliases_Normal. Qed.

Lemma orUndefined_fixed (s : jsstring) : fixedPoint s -> optFixedPoint (orUndefined s).
Proof. unfold orUndefined. destruct (truthy s); simpl; auto. Qed.

Lemma orElse_fixed (a b : jsstring) : fixedPoint a -> fixedPoint b -> fixedPoint (orElse a b).
Proof. unfold orElse. destruct (truthy a); auto. Qed.

(** An invariant of the records is kept by the loop over the rows. *)
Lemma forEachRow_Forall {R : Type} (P : R -> Prop)
    (body : Row -> option R * list jsstring) (dataRows : list Row) :
  (forall row r w, body row = (Some r, w) -> P r) ->
  forall start : LoopState R,
    Forall P (fst (fst start)) ->
    Forall P (fst (fst (forEachRow body dataRows start))).
Proof.
  intros Hbody. unfold forEachRow.
  induction dataRows as [|row rest IH]; intros [[records ws] n] H; simpl; [exact H|].
  apply IH. destruct (body row) as [[r|] pushed] eqn:E; simpl; [|exact H].
  apply Forall_app. split; [exact H|]. constructor; [|constructor].
  eapply Hbody. exact E.
Qed.
Section FieldsFixed.
Context {host : Host}.

Lemma connectionOfRow_fixed (headers row : Row) (c : Contact.t) (w : list jsstring) :
  connectionOfRow headers row = (Some c, w) -> contactFieldsFixed c.
Proof.
  unfold connectionOfRow. intros [= <- _]. unfold contactFieldsFixed. simpl.
  repeat split.
  - apply Normal_fixed, Normal_fullName; apply getValueByAliases_Normal.
  - apply orUndefined_fixed, getValueByAliases_fixed.
  - apply orUndefined_fixed, getValueByAliases_fixed.
  - apply orUndefined_fixed, getValueByAliases_fixed.
Qed.

Lemma messageOfRow_fixed (headers row : Row) (m : Message.t) (w : list jsstring) :
  messageOfRow headers row = (Some m, w) -> messageFieldsFixed m.
Proof.
  unfold messageOfRow. destruct (negb (truthy _)); [discriminate|].
  intros [= <- _]. apply getValueByAliases_fixed.
Qed.

Lemma inviteOfRow_fixed (headers row : Row) (i : Invite.t) (w : list jsstring) :
  inviteOfRow headers row = (Some i, w) -> inviteFieldsFixed i.
Proof.
  unfold inviteOfRow. destruct (negb (truthy _) && negb (truthy _)); [discriminate|].
  intros [= <- _]. unfold inviteFieldsFixed. simpl. split.
  - repeat match goal with |- context [if ?b then _ else _] => destruct b end;
      apply getValueByAliases_fixed.
  - apply orUndefined_fixed, getValueByAliases_fixed.
Qed.

Lemma followOfRow_fixed (headers row : Row) (f : CompanyFollow.t) (w : list jsstring) :
  followOfRow headers row = (Some f, w) -> followFieldsFixed f.
Proof.
  unfold followOfRow. destruct (negb (truthy _)); [discriminate|].
  intros [= <- _]. apply getValueByAliases_fixed.
Qed.

Lemma jobOfRow_fixed (fileType : jsstring) (headers row : Row) (j : SavedJob.t)
    (w : list jsstring) :
  jobOfRow fileType headers row = (Some j, w) -> jobFieldsFixed j.
Proof.
  unfold jobOfRow. destruct (negb (truthy _) && negb (truthy _)); [discriminate|].
  intros [= <- _]. unfold jobFieldsFixed. simpl.
  split; apply orElse_fixed; try apply getValueByAliases_fixed;
    apply Normal_fixed, Normal_js_Unknown.
Qed.

End FieldsFixed.

(* ------------------------------------------------------------------ *)
(** * Invariants of the records, from the rows to the payload *)

Section RecordInvariant.
Context {host : Host}.
Variable Pc : Contact.t -> Prop.
Variable Pm : Message.t -> Prop.
Variable Pi : Invite.t -> Prop.
Variable Pf : CompanyFollow.t -> Prop.
Variable Pj : SavedJob.t -> Prop.
Hypothesis Hc : forall headers row c w, connectionOfRow headers row = (Some c, w) -> Pc c.
Hypothesis Hm : forall headers row m w, messageOfRow headers row = (Some m, w) -> Pm m.
Hypothesis Hi : forall headers row i w, inviteOfRow headers row = (Some i, w) -> Pi i.
Hypothesis Hf : forall headers row f w, followOfRow headers row = (Some f, w) -> Pf f.
Hypothesis Hj : forall fileType headers row j w,
    jobOfRow fileType headers row = (Some j, w) -> Pj j.

(** A loop that starts with no record: the invariant [P] holds of its
    records when the hypothesis [L] gives it for the body. *)
Ltac loop_invariant P L :=
  cbv zeta;
  match goal with
  | |- context [forEachRow ?b ?d ?s] =>
      let H := fresh "H" in
      assert (H : Forall P (fst (fst (forEachRow b d s))))
        by (apply forEachRow_Forall;
            [ let Hb := fresh "Hb" in intros ? ? ? Hb; eapply L; exact Hb
            | constructor ]);
      destruct (forEachRow b d s) as [[? ?] ?]; exact H
  end.

Lemma processConnections_all (rawData : list Row) (ws : list jsstring) (fileName : jsstring) :
  Forall Pc (fst (processConnections rawData ws fileName)).
Proof.
  unfold processConnections.
  destruct (findFirstNameRow 0 10 rawData) as [[i headers]|]; [|constructor].
  loop_invariant Pc Hc.
Qed.

Lemma processMessages_all (rawData : list Row) (ws : list jsstring) (fileName : jsstring) :
  Forall Pm (fst (processMessages rawData ws fileName)).
Proof.
  unfold processMessages. destruct (length rawData <? 2); [constructor|].
  loop_invariant Pm Hm.
Qed.

Lemma processInvitations_all (rawData : list Row) (ws : list jsstring) (fileName : jsstring) :
  Forall Pi (fst (processInvitations rawData ws fileName)).
Proof.
  unfold processInvitations. destruct (length rawData <? 2); [constructor|].
  loop_invariant Pi Hi.
Qed.

Lemma processCompanyFollows_all (rawData : list Row) (ws : list jsstring)
    (fileName : jsstring) :
  Forall Pf (fst (processCompanyFollows rawData ws fileName)).
Proof.
  unfold processCompanyFollows. destruct (length rawData <? 2); [constructor|].
  loop_invariant Pf Hf.
Qed.

Lemma processSavedJobs_all (rawData : list Row) (ws : list jsstring) (fileName : jsstring)
    (isApplications : bool) :
  Forall Pj (fst (processSavedJobs rawData ws fileName isApplications)).
Proof.
  unfold processSavedJobs. destruct (length rawData <? 2); [constructor|].
  loop_invariant Pj Hj.
Qed.

Local Abbreviation Inv := (payloadAll Pc Pm Pi Pf Pj).

Lemma dispatch_all (fileType : FileType) (data : list Row) (fd : FileData)
    (p : ParsedPayload) :
  Inv p -> Inv (dispatch fileType data fd p).
Proof.
  intros (H1 & H2 & H3 & H4 & H5). unfold dispatch. destruct fileType.
  - pose proof (processConnections_all data (warnings (summary p)) (fileDataName fd)) as H.
    destruct (processConnections _ _ _) as [r w]. repeat split; assumption.
  - pose proof (processMessages_all data (warnings (summary p)) (fileDataName fd)) as H.
    destruct (processMessages _ _ _) as [r w]. repeat split; assumption.
  - pose proof (processInvitations_all data (warnings (summary p)) (fileDataName fd)) as H.
    destruct (processInvitations _ _ _) as [r w]. repeat split; assumption.
  - pose proof (processCompanyFollows_all data (warnings (summary p)) (fileDataName fd)) as H.
    destruct (processCompanyFollows _ _ _) as [r w]. repeat split; assumption.
  - pose proof (processSavedJobs_all data (warnings (summary p)) (fileDataName fd) false) as H.
    destruct (processSavedJobs _ _ _ _) as [r w]. repeat split; try assumption.
    simpl. apply Forall_app. now split.
  - pose proof (processSavedJobs_all data (warnings (summary p)) (fileDataName fd) true) as H.
    destruct (processSavedJobs _ _ _ _) as [r w]. repeat split; try assumption.
    simpl. apply Forall_app. now split.
Qed.

Lemma processFile_all (p : ParsedPayload) (fd : FileData) :
  Inv p -> Inv (processFile p fd).
Proof.
  intros H. unfold processFile.
  destruct (isAuxiliaryMessages _); [exact H|].
  destruct (fileTypeOf _) as [ft|]; [|exact H].
  destruct (endsWith _ (js ".csv")).
  - apply dispatch_all. exact H.
  - destruct (endsWith _ (js ".xlsx")); [|exact H].
    destruct (parseXLSX _); [|exact H]. apply dispatch_all. exact H.
Qed.

(** The first loop of the handler touches the warnings only. *)
Lemma collectFile_collections (state : list FileData * ParsedPayload) (file : File) :
  let p := snd state in
  let p' := snd (collectFile state file) in
  contacts p' = contacts p /\ messages p' = messages p /\ invites p' = invites p
  /\ companyFollows p' = companyFollows p /\ savedJobs p' = savedJobs p
  /\ filesProcessed (summary p') = filesProcessed (summary p)
  /\ rows (summary p') = rows (summary p).
Proof.
  destruct state as [fs p]. unfold collectFile. simpl.
  repeat match goal with
         | |- context [if ?b then _ else _] => destruct b
         | |- context [match ?r with Ok _ => _ | Throws _ => _ end] => destruct r
         end; simpl; repeat split; reflexivity.
Qed.

Lemma collect_all (files : list File) :
  forall state, Inv (snd state) -> Inv (snd (fold_left collectFile files state)).
Proof.
  induction files as [|file rest IH]; intros state H; simpl; [exact H|].
  apply IH. destruct (collectFile_collections state file) as (E1 & E2 & E3 & E4 & E5 & _).
  unfold payloadAll. rewrite E1, E2, E3, E4, E5. exact H.
Qed.

Lemma process_all (fds : list FileData) :
  forall p, Inv p -> Inv (fold_left processFile fds p).
Proof.
  induction fds as [|fd rest IH]; intros p H; simpl; [exact H|].
  apply IH, processFile_all, H.
Qed.

Lemma onMessage_all (files : list File) : Inv (onMessage files).
Proof.
  unfold onMessage.
  pose proof (collect_all files ([], emptyPayload)) as H.
  destruct (fold_left collectFile files ([], emptyPayload)) as [fds p].
  apply process_all. apply H. repeat split; constructor.
Qed.

End RecordInvariant.

(** C10: text normalisation is idempotent; every result of [normalizeText]
    is a fixed point of it, has no leading byte-order mark, no leading or
    trailing white space and no two adjacent white-space code units; and
    the string fields of every record of a payload (contact name, company,
    title and location, message body, counterpart name and message of an
    invite, company of a company follow, company and title of a job) are
    fixed points of [normalizeText]. *)
Theorem normalizeText_idempotent_and_fields_fixed :
  (forall s : jsstring,
      normalizeText (Some (normalizeText (Some s))) = normalizeText (Some s))
  /\ (forall text : option jsstring,
        fixedPoint (normalizeText text)
        /\ startsWith (normalizeText text) [BOM] = false
        /\ startsClean (normalizeText text) = true
        /\ endsClean (normalizeText text) = true
        /\ noWhiteSpaceRun (normalizeText text) = true)
  /\ (forall (host : Host) (files : list File),
        payloadFieldsFixed (onMessage files)).
Proof.
  split; [|split].
  - intros s. apply Normal_fixed, normalizeText_Normal.
  - intros text. pose proof (normalizeText_Normal text) as H.
    split; [now apply Normal_fixed|].
    destruct (Normal_tidy _ H) as (H1 & H2 & H3 & H4). repeat split; trivial.
    destruct (normalizeText text) as [|c r]; [reflexivity|]. simpl.
    destruct (N.eqb_spec c BOM) as [->|]; [now elim H1 | reflexivity].
  - intros host files. apply onMessage_all.
    + intros. eapply connectionOfRow_fixed; eassumption.
    + intros. eapply messageOfRow_fixed; eassumption.
    + intros. eapply inviteOfRow_fixed; eassumption.
    + intros. eapply followOfRow_fixed; eassumption.
    + intros. eapply jobOfRow_fixed; eassumption.
Qed.
(* ------------------------------------------------------------------ *)
(** * The stable identifier: width and range *)

(** The test vectors of the Secure Hash Standard for SHA-1. *)
Example sha1_abc :
  hexOfBytes (SHA1.digest (UTF8.encode (js "abc")))
  = js "a9993e364706816aba3e25717850c26c9cd0d89d".
Proof. vm_compute. reflexivity. Qed.

Example sha1_empty :
  hexOfBytes (SHA1.digest (UTF8.encode (js "")))
  = js "da39a3ee5e6b4b0d3255bfef95601890afd80709".
Proof. vm_compute. reflexivity. Qed.

Example sha1_two_blocks :
  hexOfBytes (SHA1.digest
    (UTF8.encode (js "abcdbcdecdefdefgefghfghighijhijkijkljklmklmnlmnomnopnopq")))
  = js "84983e441c3bd26ebaae4aa1f95129e5e54670f1".
Proof. vm_compute. reflexivity. Qed.

(** U+00E9 takes two bytes, the pair D83D DE00 (U+1F600) four, and a lone
    surrogate is replaced by U+FFFD. *)
Example utf8_samples :
  UTF8.encode [233%N] = [195%N; 169%N]
  /\ UTF8.encode [55357%N; 56832%N] = [240%N; 159%N; 152%N; 128%N]
  /\ UTF8.encode [55357%N] = [239%N; 191%N; 189%N].
Proof. vm_compute. repeat split. Qed.

Example simpleHash_abc : simpleHash (js "abc") = js "22ci".
Proof. vm_compute. reflexivity. Qed.

Example toISOString_samples :
  DateTime.toISOString 0 = js "1970-01-01T00:00:00.000Z"
  /\ DateTime.toISOString (-1) = js "1969-12-31T23:59:59.999Z"
  /\ DateTime.toISOString 1704189600000 = js "2024-01-02T10:00:00.000Z"
  /\ DateTime.toISOString 8640000000000000 = js "+275760-09-13T00:00:00.000Z".
Proof. vm_compute. repeat split. Qed.

Lemma bigEndian_length (width : nat) (x : N) : length (SHA1.bigEndian width x) = width.
Proof. unfold SHA1.bigEndian. now rewrite length_map, length_rev, length_seq. Qed.

Lemma bigEndian_bytes (width : nat) (x : N) :
  Forall (fun b => (b < 256)%N) (SHA1.bigEndian width x).
Proof.
  unfold SHA1.bigEndian. apply Forall_map, Forall_forall. intros i _.
  change 255%N with (N.ones 8). rewrite N.land_ones. now apply N.mod_lt.
Qed.

Lemma digest_length (msg : list N) : length (SHA1.digest msg) = 20.
Proof.
  unfold SHA1.digest.
  destruct (SHA1.blocks _ _ _) as [[[[h0 h1] h2] h3] h4].
  now rewrite !length_app, !bigEndian_length.
Qed.

Lemma digest_bytes (msg : list N) : Forall (fun b => (b < 256)%N) (SHA1.digest msg).
Proof.
  unfold SHA1.digest.
  destruct (SHA1.blocks _ _ _) as [[[[h0 h1] h2] h3] h4].
  repeat (apply Forall_app; split); apply bigEndian_bytes.
Qed.

Lemma byteHex_length (b : N) : length (padStart0 2 (toString16 b)) = 2.
Proof. unfold padStart0, toString16. destruct (b <? 16)%N; reflexivity. Qed.

Lemma digitChar_hex (d : N) : (d < 16)%N -> isHexDigit (digitChar d) = true.
Proof.
  intros H. unfold isHexDigit, digitChar.
  destruct (N.ltb_spec d 10).
  - replace (48 <=? 48 + d)%N with true by (symmetry; apply N.leb_le; lia).
    replace (48 + d <=? 57)%N with true by (symmetry; apply N.leb_le; lia).
    reflexivity.
  - replace (97 <=? 87 + d)%N with true by (symmetry; apply N.leb_le; lia).
    replace (87 + d <=? 102)%N with true by (symmetry; apply N.leb_le; lia).
    now rewrite orb_true_r.
Qed.

Lemma byteHex_digits (b : N) :
  (b < 256)%N -> forallb isHexDigit (padStart0 2 (toString16 b)) = true.
Proof.
  intros H. unfold padStart0, toString16. destruct (N.ltb_spec b 16); simpl.
  - now rewrite digitChar_hex.
  - rewrite !digitChar_hex; [reflexivity| |].
    + apply N.mod_lt. discriminate.
    + apply N.Div0.div_lt_upper_bound. exact H.
Qed.

Lemma hexOfBytes_cons (b : N) (bytes : list N) :
  hexOfBytes (b :: bytes) = padStart0 2 (toString16 b) ++ hexOfBytes bytes.
Proof. reflexivity. Qed.

Lemma hexOfBytes_length (bytes : list N) : length (hexOfBytes bytes) = 2 * length bytes.
Proof.
  induction bytes as [|b bytes IH]; [reflexivity|].
  rewrite hexOfBytes_cons, length_app, byteHex_length, IH. simpl. lia.
Qed.

Lemma hexOfBytes_digits (bytes : list N) :
  Forall (fun b => (b < 256)%N) bytes -> forallb isHexDigit (hexOfBytes bytes) = true.
Proof.
  induction 1 as [|b bytes Hb _ IH]; [reflexivity|].
  rewrite hexOfBytes_cons, forallb_app, IH, byteHex_digits by exact Hb. reflexivity.
Qed.

(** Cutting the hexadecimal text after [2 * k] digits keeps [k] bytes. *)
Lemma hexOfBytes_firstn (k : nat) :
  forall bytes, firstn (2 * k) (hexOfBytes bytes) = hexOfBytes (firstn k bytes).
Proof.
  induction k as [|k IH]; intros bytes; [reflexivity|].
  destruct bytes as [|b bytes]; [reflexivity|].
  rewrite hexOfBytes_cons. cbn [firstn]. rewrite hexOfBytes_cons.
  replace (2 * S k) with (length (padStart0 2 (toString16 b)) + 2 * k)
    by (rewrite byteHex_length; lia).
  rewrite firstn_app_2. now rewrite IH.
Qed.

Lemma Forall_firstn_keeps {A : Type} (P : A -> Prop) (n : nat) (l : list A) :
  Forall P l -> Forall P (firstn n l).
Proof.
  intros H. rewrite <- (firstn_skipn n l) in H. now apply Forall_app in H.
Qed.

Lemma stableHash_bytes (input : jsstring) :
  stableHash input = hexOfBytes (firstn 6 (SHA1.digest (UTF8.encode input))).
Proof. unfold stableHash, substring0. apply (hexOfBytes_firstn 6). Qed.

Lemma stableHash_length (input : jsstring) : length (stableHash input) = 12.
Proof.
  rewrite stableHash_bytes, hexOfBytes_length, length_firstn, digest_length. reflexivity.
Qed.

Lemma toString36From_length (fuel : nat) :
  forall n acc, length (toString36From fuel n acc) <= fuel + length acc.
Proof.
  induction fuel as [|fuel IH]; intros n acc; simpl; [lia|].
  destruct (n / 36 =? 0)%Z; simpl; [lia|].
  specialize (IH (n / 36)%Z (digitChar (Z.to_N (n mod 36)) :: acc)). simpl in IH. lia.
Qed.

Lemma simpleHash_length (input : jsstring) : length (simpleHash input) <= 7.
Proof.
  unfold simpleHash, toString36.
  pose proof (toString36From_length 7 (Z.abs (fold_left simpleHashStep input 0%Z)) []).
  simpl in *. lia.
Qed.

Lemma streq_false (a b : jsstring) : a <> b -> streq a b = false.
Proof. unfold streq. destruct (jsstring_eq_dec a b); congruence. Qed.

Lemma streq_true (a b : jsstring) : streq a b = true <-> a = b.
Proof. unfold streq. destruct (jsstring_eq_dec a b); split; congruence. Qed.

(** C1 (as amended): for every input the generator returns the first 12
    hexadecimal digits of the SHA-1 digest of the UTF-8 bytes of the input.
    The identifier has a fixed width of 12 lower-case hexadecimal digits,
    it is the text of 6 bytes (48 bits, so at most 2^48 identifiers, fewer
    than 2^64), it does not depend on the host, and it is never an output of
    the 32-bit rolling hash [simpleHash]. *)
Theorem stableHash_is_48_bit_sha1_prefix (input : jsstring) :
  stableHash input = firstn 12 (hexOfBytes (SHA1.digest (UTF8.encode input)))
  /\ length (stableHash input) = 12
  /\ forallb isHexDigit (stableHash input) = true
  /\ (exists bytes : list N,
        length bytes = 6 /\ Forall (fun b => (b < 256)%N) bytes
        /\ stableHash input = hexOfBytes bytes)
  /\ stableHashBits input = 48%Z
  /\ (2 ^ stableHashBits input < 2 ^ 64)%Z
  /\ (forall other : jsstring, streq (stableHash input) (simpleHash other) = false).
Proof.
  split; [reflexivity|].
  split; [apply stableHash_length|].
  assert (Hbytes : Forall (fun b => (b < 256)%N)
                     (firstn 6 (SHA1.digest (UTF8.encode input)))).
  { apply Forall_firstn_keeps, digest_bytes. }
  split; [rewrite stableHash_bytes; now apply hexOfBytes_digits|].
  split.
  { exists (firstn 6 (SHA1.digest (UTF8.encode input))). split; [|split].
    - now rewrite length_firstn, digest_length.
    - exact Hbytes.
    - apply stableHash_bytes. }
  assert (Hbits : stableHashBits input = 48%Z).
  { unfold stableHashBits. now rewrite stableHash_length. }
  split; [exact Hbits|]. split; [now rewrite Hbits|].
  intros other. apply streq_false. intros E.
  pose proof (stableHash_length input) as H1.
  pose proof (simpleHash_length other) as H2. rewrite E in H1. lia.
Qed.
(* ------------------------------------------------------------------ *)
(** * The order of strings and the sorted array *)

Lemma str_leb_total (a : jsstring) :
  forall b, str_leb a b = true \/ str_leb b a = true.
Proof.
  induction a as [|x a IH]; intros [|y b]; simpl; auto.
  destruct (N.ltb_spec x y), (N.ltb_spec y x); auto; lia.
Qed.

Lemma str_leb_antisym (a : jsstring) :
  forall b, str_leb a b = true -> str_leb b a = true -> a = b.
Proof.
  induction a as [|x a IH]; intros [|y b]; simpl; try discriminate; [reflexivity|].
  destruct (N.ltb_spec x y), (N.ltb_spec y x); try discriminate; try lia.
  intros H1 H2. assert (x = y) by lia. subst. f_equal. now apply IH.
Qed.

Lemma str_leb_trans (a : jsstring) :
  forall b c, str_leb a b = true -> str_leb b c = true -> str_leb a c = true.
Proof.
  induction a as [|x a IH]; intros [|y b] [|z c]; simpl; try discriminate; auto.
  destruct (N.ltb_spec x y), (N.ltb_spec y z), (N.ltb_spec x z), (N.ltb_spec z x),
    (N.ltb_spec y x), (N.ltb_spec z y); try discriminate; try lia; auto.
  apply IH.
Qed.

Lemma str_leb_false (a b : jsstring) : str_leb a b = false -> str_leb b a = true.
Proof. intros H. destruct (str_leb_total a b) as [E|E]; congruence. Qed.

(** Inserting two strings in either order gives the same array. *)
Lemma insertSorted_comm (x y : jsstring) (l : list jsstring) :
  insertSorted x (insertSorted y l) = insertSorted y (insertSorted x l).
Proof.
  induction l as [|z l IH]; simpl.
  - destruct (str_leb x y) eqn:Exy, (str_leb y x) eqn:Eyx; trivial.
    + now rewrite (str_leb_antisym x y Exy Eyx).
    + apply str_leb_false in Exy. congruence.
  - destruct (str_leb y z) eqn:Eyz, (str_leb x z) eqn:Exz; simpl;
      rewrite ?Eyz, ?Exz.
    + destruct (str_leb x y) eqn:Exy, (str_leb y x) eqn:Eyx; trivial.
      * now rewrite (str_leb_antisym x y Exy Eyx).
      * apply str_leb_false in Exy. congruence.
    + assert (Exy : str_leb x y = false).
      { destruct (str_leb x y) eqn:E; [|reflexivity].
        rewrite (str_leb_trans x y z E Eyz) in Exz. discriminate. }
      now rewrite Exy.
    + assert (Eyx : str_leb y x = false).
      { destruct (str_leb y x) eqn:E; [|reflexivity].
        rewrite (str_leb_trans y x z E Exz) in Eyz. discriminate. }
      now rewrite Eyx.
    + now rewrite IH.
Qed.

(** The sorted array depends on the elements only, not on their order. *)
Lemma sort_Permutation (l l' : list jsstring) :
  Permutation l l' -> sort l = sort l'.
Proof.
  induction 1 as [|x l l' _ IH|x y l|l l' l'' _ IH1 _ IH2]; simpl.
  - reflexivity.
  - now rewrite IH.
  - apply insertSorted_comm.
  - congruence.
Qed.

Lemma insertSorted_length (x : jsstring) (l : list jsstring) :
  length (insertSorted x l) = S (length l).
Proof.
  induction l as [|y l IH]; simpl; [reflexivity|].
  destruct (str_leb x y); simpl; now rewrite ?IH.
Qed.

Lemma sort_length (l : list jsstring) : length (sort l) = length l.
Proof.
  induction l as [|x l IH]; simpl; [reflexivity|].
  now rewrite insertSorted_length, IH.
Qed.

Lemma insertSorted_Permutation (x : jsstring) (l : list jsstring) :
  Permutation (x :: l) (insertSorted x l).
Proof.
  induction l as [|y l IH]; simpl; [reflexivity|].
  destruct (str_leb x y); [reflexivity|].
  rewrite perm_swap. now apply perm_skip.
Qed.

Lemma sort_is_Permutation (l : list jsstring) : Permutation l (sort l).
Proof.
  induction l as [|x l IH]; simpl; [reflexivity|].
  rewrite <- insertSorted_Permutation. now apply perm_skip.
Qed.

Lemma insertSorted_Sorted (x : jsstring) (l : list jsstring) :
  Sorted str_le l -> Sorted str_le (insertSorted x l).
Proof.
  induction 1 as [|y l Hl IH Hy]; simpl.
  - repeat constructor.
  - destruct (str_leb x y) eqn:E.
    + constructor; [now constructor|]. now constructor.
    + constructor; [exact IH|].
      apply str_leb_false in E.
      destruct l as [|z l]; simpl.
      * now constructor.
      * destruct (str_leb x z); constructor; trivial. now inversion Hy.
Qed.

(** [sort] does sort. *)
Lemma sort_Sorted (l : list jsstring) : Sorted str_le (sort l).
Proof.
  induction l as [|x l IH]; simpl; [constructor|]. now apply insertSorted_Sorted.
Qed.
(* ------------------------------------------------------------------ *)
(** * The thread key *)

Lemma js_String (c : ascii) (s : string) : js (String c s) = N_of_ascii c :: js s.
Proof. reflexivity. Qed.

Lemma string_of_uint_noLetterT (u : Decimal.uint) :
  noLetterT (js (NilEmpty.string_of_uint u)) = true.
Proof.
  induction u; cbn [NilEmpty.string_of_uint]; [reflexivity|..];
    rewrite js_String; unfold noLetterT in *; cbn [forallb]; now rewrite IHu.
Qed.

Lemma noLetterT_app (a b : jsstring) :
  noLetterT (a ++ b) = noLetterT a && noLetterT b.
Proof. apply forallb_app. Qed.

Lemma padded_noLetterT (width : nat) (n : Z) : noLetterT (DateTime.padded width n) = true.
Proof.
  unfold DateTime.padded, padStart0, Number_toString.
  rewrite noLetterT_app, string_of_uint_noLetterT, andb_true_r.
  induction (width - _) as [|k IH]; [reflexivity|]. simpl. exact IH.
Qed.

Lemma yearText_noLetterT (y : Z) : noLetterT (DateTime.yearText y) = true.
Proof.
  unfold DateTime.yearText.
  destruct ((0 <=? y)%Z && (y <=? 9999)%Z); [apply padded_noLetterT|].
  rewrite noLetterT_app, padded_noLetterT. now destruct (y <? 0)%Z.
Qed.

Lemma utcDate_noLetterT (t : Z) : noLetterT (DateTime.utcDate t) = true.
Proof.
  unfold DateTime.utcDate.
  destruct (DateTime.civilFromDays _) as [[y m] d].
  now rewrite !noLetterT_app, yearText_noLetterT, !padded_noLetterT.
Qed.

(** The first piece of a split is the text before the first separator. *)
Lemma split_first (sep : N) (pre rest : jsstring) :
  forallb (fun c => negb (c =? sep)%N) pre = true ->
  exists pieces, split sep (pre ++ sep :: rest) = pre :: pieces.
Proof.
  induction pre as [|c pre IH]; simpl.
  - intros _. rewrite N.eqb_refl. now eexists.
  - intros H. apply andb_true_iff in H. destruct H as [Hc Hpre].
    apply negb_true_iff in Hc. rewrite Hc.
    destruct (IH Hpre) as [pieces ->]. now eexists.
Qed.

Lemma toISOString_date (t : Z) :
  hd [] (split LETTER_T (DateTime.toISOString t)) = DateTime.utcDate t.
Proof.
  unfold DateTime.toISOString. change (js "T" ++ ?x) with (LETTER_T :: x).
  destruct (split_first LETTER_T (DateTime.utcDate t)
              (DateTime.utcTime t ++ js "Z") (utcDate_noLetterT t)) as [pieces E].
  change (js "T" ++ DateTime.utcTime t ++ js "Z")
    with (LETTER_T :: DateTime.utcTime t ++ js "Z").
  now rewrite E.
Qed.

Section ThreadKeyFacts.
Context {host : Host}.

Lemma getDayBucket_dayBucketOf (ts : jsstring) : getDayBucket ts = dayBucketOf ts.
Proof.
  unfold getDayBucket, dayBucketOf. destruct ts as [|c ts]; [reflexivity|].
  cbn [truthy negb]. destruct (Date_parse (c :: ts)); [|reflexivity].
  apply toISOString_date.
Qed.

Lemma resolveThreadId_explicit (conversationId recipientUrls to from ts : jsstring) :
  conversationId <> [] ->
  resolveThreadId conversationId recipientUrls to from ts = conversationId.
Proof.
  intros H. unfold resolveThreadId. apply truthy_true in H. now rewrite H.
Qed.

Lemma resolveThreadId_single (recipientUrls to from ts u : jsstring) :
  recipientsOf recipientUrls = [u] ->
  resolveThreadId [] recipientUrls to from ts = stableHash u.
Proof. unfold resolveThreadId. cbn [truthy]. now intros ->. Qed.

Lemma resolveThreadId_group (recipientUrls to from ts : jsstring) :
  2 <= length (recipientsOf recipientUrls) ->
  resolveThreadId [] recipientUrls to from ts
  = stableHash (join PIPE (sort (recipientsOf recipientUrls))).
Proof.
  unfold resolveThreadId. cbn [truthy]. intros H.
  destruct (Nat.eqb_spec (length (recipientsOf recipientUrls)) 1) as [E|_]; [lia|].
  destruct (Nat.ltb_spec 1 (length (recipientsOf recipientUrls))); [reflexivity | lia].
Qed.

Lemma resolveThreadId_fallback (recipientUrls to from ts : jsstring) :
  recipientsOf recipientUrls = [] ->
  resolveThreadId [] recipientUrls to from ts
  = stableHash (orElse to from ++ PIPE ++ dayBucketOf ts).
Proof.
  unfold resolveThreadId. cbn [truthy]. intros ->. cbn.
  now rewrite getDayBucket_dayBucketOf.
Qed.

(** With at least one recipient the key is the hash of the sorted list,
    whatever the number of recipients. *)
Lemma resolveThreadId_recipients (recipientUrls to from ts : jsstring) :
  recipientsOf recipientUrls <> [] ->
  resolveThreadId [] recipientUrls to from ts
  = stableHash (join PIPE (sort (recipientsOf recipientUrls))).
Proof.
  intros H. destruct (recipientsOf recipientUrls) as [|u [|v rest]] eqn:E.
  - congruence.
  - now rewrite (resolveThreadId_single _ _ _ _ _ E).
  - rewrite resolveThreadId_group; rewrite E; [reflexivity | simpl; lia].
Qed.

End ThreadKeyFacts.
(* ------------------------------------------------------------------ *)
(** * The records of a loop *)

Lemma forEachRow_records {R : Type} (body : Row -> option R * list jsstring)
    (dataRows : list Row) :
  forall start : LoopState R,
    fst (fst (forEachRow body dataRows start))
    = fst (fst start) ++ pushedBy body dataRows.
Proof.
  unfold forEachRow, pushedBy.
  induction dataRows as [|row rest IH]; intros [[records ws] n]; simpl.
  - now rewrite app_nil_r.
  - rewrite IH. destruct (body row) as [[r|] pushed]; simpl; [|reflexivity].
    now rewrite <- app_assoc.
Qed.

Lemma forEachRow_count {R : Type} (body : Row -> option R * list jsstring)
    (dataRows : list Row) :
  forall start : LoopState R,
    snd (forEachRow body dataRows start)
    = snd start + length (pushedBy body dataRows).
Proof.
  unfold forEachRow, pushedBy.
  induction dataRows as [|row rest IH]; intros [[records ws] n]; simpl; [lia|].
  rewrite IH. destruct (body row) as [[r|] pushed]; simpl; lia.
Qed.

Lemma pushedBy_filter_map {R : Type} (body : Row -> option R * list jsstring)
    (admitted : Row -> bool) (record : Row -> R) (dataRows : list Row) :
  (forall row, fst (body row) = if admitted row then Some (record row) else None) ->
  pushedBy body dataRows = map record (filter admitted dataRows).
Proof.
  intros H. unfold pushedBy. induction dataRows as [|row rest IH]; [reflexivity|].
  simpl. rewrite H, IH. now destruct (admitted row).
Qed.

Lemma pushedBy_ext {R : Type} (body body' : Row -> option R * list jsstring)
    (dataRows : list Row) :
  (forall row, fst (body row) = fst (body' row)) ->
  pushedBy body dataRows = pushedBy body' dataRows.
Proof.
  intros H. unfold pushedBy. induction dataRows as [|row rest IH]; [reflexivity|].
  simpl. now rewrite H, IH.
Qed.

(** The records of a normaliser are the records that its loop pushes. *)
Ltac loop_records :=
  cbv zeta;
  match goal with
  | |- context [forEachRow ?b ?d ?s] =>
      let H := fresh "H" in
      pose proof (forEachRow_records b d s) as H;
      destruct (forEachRow b d s) as [[? ?] ?]; exact H
  end.

Section Records.
Context {host : Host}.

Lemma processConnections_records (rawData : list Row) (ws : list jsstring)
    (fileName : jsstring) :
  fst (processConnections rawData ws fileName)
  = match findFirstNameRow 0 10 rawData with
    | None => []
    | Some (headerRowIndex, headers) =>
        pushedBy (connectionOfRow headers)
          (filter hasContent (skipn (headerRowIndex + 1) rawData))
    end.
Proof.
  unfold processConnections.
  destruct (findFirstNameRow 0 10 rawData) as [[i headers]|]; [|reflexivity].
  loop_records.
Qed.

Lemma processMessages_records (rawData : list Row) (ws : list jsstring)
    (fileName : jsstring) :
  fst (processMessages rawData ws fileName)
  = if length rawData <? 2 then []
    else pushedBy (messageOfRow (normalizeRow (nth 0 rawData [])))
           (filter hasContent (skipn 1 rawData)).
Proof.
  unfold processMessages. destruct (length rawData <? 2); [reflexivity|]. loop_records.
Qed.

Lemma processInvitations_records (rawData : list Row) (ws : list jsstring)
    (fileName : jsstring) :
  fst (processInvitations rawData ws fileName)
  = if length rawData <? 2 then []
    else pushedBy (inviteOfRow (normalizeRow (nth 0 rawData [])))
           (filter hasContent (skipn 1 rawData)).
Proof.
  unfold processInvitations. destruct (length rawData <? 2); [reflexivity|]. loop_records.
Qed.

Lemma processCompanyFollows_records (rawData : list Row) (ws : list jsstring)
    (fileName : jsstring) :
  fst (processCompanyFollows rawData ws fileName)
  = if length rawData <? 2 then []
    else pushedBy (followOfRow (normalizeRow (nth 0 rawData [])))
           (filter hasContent (skipn 1 rawData)).
Proof.
  unfold processCompanyFollows. destruct (length rawData <? 2); [reflexivity|].
  loop_records.
Qed.

Lemma processSavedJobs_records (rawData : list Row) (ws : list jsstring)
    (fileName : jsstring) (isApplications : bool) :
  fst (processSavedJobs rawData ws fileName isApplications)
  = if length rawData <? 2 then []
    else pushedBy
           (jobOfRow (if isApplications then js "Job Applications" else js "Saved Jobs")
              (normalizeRow (nth 0 rawData [])))
           (filter hasContent (skipn 1 rawData)).
Proof.
  unfold processSavedJobs. destruct (length rawData <? 2); [reflexivity|]. loop_records.
Qed.

Lemma jobOfRow_pushed (fileType : jsstring) (headers row : Row) :
  fst (jobOfRow fileType headers row)
  = if jobAdmitted headers row then Some (jobPushed headers row) else None.
Proof.
  unfold jobOfRow, jobAdmitted, jobPushed, orElse.
  destruct (getValueByAliases row headers SavedJobsAliases.title) as [|t title];
    destruct (getValueByAliases row headers SavedJobsAliases.company) as [|c company];
    reflexivity.
Qed.

Lemma connectionOfRow_idFromUrl (headers row : Row) (c : Contact.t) (w : list jsstring) :
  connectionOfRow headers row = (Some c, w) -> idFromUrl c.
Proof.
  unfold connectionOfRow. intros [= <- _]. unfold idFromUrl, orUndefined, orElse. simpl.
  destruct (truthy (getValueByAliases row headers ConnectionsAliases.url)); trivial.
Qed.

End Records.

(** C8: for a Connections row whose resolved profile URL is not empty the
    identifier of the contact is the stable hash of the URL alone; two rows
    (of the same file or not) that resolve to the same URL get the same
    identifier, whatever their company, position and connection date; and
    in every payload a contact that carries a URL has the hash of that URL
    as its identifier. *)
Theorem contact_id_is_hash_of_url
    (host : Host) (headers row headers' row' : Row) :
  getValueByAliases row headers ConnectionsAliases.url <> [] ->
  getValueByAliases row' headers' ConnectionsAliases.url
  = getValueByAliases row headers ConnectionsAliases.url ->
  option_map Contact.id (fst (connectionOfRow headers row))
  = Some (stableHash (getValueByAliases row headers ConnectionsAliases.url))
  /\ option_map Contact.id (fst (connectionOfRow headers' row'))
     = option_map Contact.id (fst (connectionOfRow headers row))
  /\ (forall files : list File, Forall idFromUrl (contacts (onMessage files))).
Proof.
  intros Hurl Hsame.
  assert (H : forall h r, getValueByAliases r h ConnectionsAliases.url <> [] ->
            option_map Contact.id (fst (connectionOfRow h r))
            = Some (stableHash (getValueByAliases r h ConnectionsAliases.url))).
  { intros h r Hr. unfold connectionOfRow, orElse. simpl.
    apply truthy_true in Hr. now rewrite Hr. }
  split; [now apply H|]. split.
  - rewrite !H; [now rewrite Hsame | exact Hurl | now rewrite Hsame].
  - intros files.
    apply (onMessage_all idFromUrl (fun _ => True) (fun _ => True)
             (fun _ => True) (fun _ => True)); trivial.
    intros. eapply connectionOfRow_idFromUrl; eassumption.
Qed.

(** C9: the SavedJob normaliser admits a row exactly when at least one of
    company and title is not empty, and the record of an admitted row
    carries [Unknown] in place of the missing field, as the claim says.
    The identifier is not the stable hash of [company|title|instant] of
    the record: the code hashes the cells of the row before it puts
    [Unknown] in the place of an empty one.  The two agree when both
    cells are filled.  For the row with title [Engineer] and no company
    the record carries the company [Unknown] and its identifier is the
    hash of [|Engineer|], not of [Unknown|Engineer|]; and that row and
    the row whose company is the word [Unknown] give records with the
    same company, title and instant and with different identifiers. *)
Theorem saved_job_id_is_hashed_before_the_default (host : Host) :
  (forall (fileType : jsstring) (headers row : Row),
      option_map (fun j => (SavedJob.company j, SavedJob.title j, SavedJob.ts j))
        (fst (jobOfRow fileType headers row))
      = if jobAdmitted headers row
        then Some (SavedJob.company (jobRecordOf headers row),
                   SavedJob.title (jobRecordOf headers row),
                   SavedJob.ts (jobRecordOf headers row))
        else None)
  /\ (forall (fileType : jsstring) (headers row : Row),
        option_map SavedJob.id (fst (jobOfRow fileType headers row))
        = if jobAdmitted headers row
          then Some (stableHash
                       (getValueByAliases row headers SavedJobsAliases.company
                          ++ PIPE
                          ++ getValueByAliases row headers SavedJobsAliases.title
                          ++ PIPE
                          ++ parseTimestamp
                               (getValueByAliases row headers SavedJobsAliases.ts)))
          else None)
  /\ (forall (fileType : jsstring) (headers row : Row),
        if truthy (getValueByAliases row headers SavedJobsAliases.company)
           && truthy (getValueByAliases row headers SavedJobsAliases.title)
        then fst (jobOfRow fileType headers row) = Some (jobRecordOf headers row)
        else True)
  /\ option_map SavedJob.company
       (fst (jobOfRow (js "Saved Jobs") jobsHeader engineerRow))
     = Some (js "Unknown")
  /\ option_map SavedJob.id (fst (jobOfRow (js "Saved Jobs") jobsHeader engineerRow))
     = Some (stableHash (js "|Engineer|"))
  /\ SavedJob.id (jobRecordOf jobsHeader engineerRow)
     = stableHash (js "Unknown|Engineer|")
  /\ option_map SavedJob.id (fst (jobOfRow (js "Saved Jobs") jobsHeader engineerRow))
     <> Some (SavedJob.id (jobRecordOf jobsHeader engineerRow))
  /\ option_map (fun j => (SavedJob.company j, SavedJob.title j, SavedJob.ts j))
       (fst (jobOfRow (js "Saved Jobs") jobsHeader unknownEngineerRow))
     = option_map (fun j => (SavedJob.company j, SavedJob.title j, SavedJob.ts j))
         (fst (jobOfRow (js "Saved Jobs") jobsHeader engineerRow))
  /\ option_map SavedJob.id
       (fst (jobOfRow (js "Saved Jobs") jobsHeader unknownEngineerRow))
     <> option_map SavedJob.id
          (fst (jobOfRow (js "Saved Jobs") jobsHeader engineerRow)).
Proof.
  split; [|split; [|split]].
  - intros fileType headers row. rewrite jobOfRow_pushed.
    destruct (jobAdmitted headers row); [|reflexivity].
    unfold jobPushed, jobRecordOf, orElse. cbv zeta.
    cbn [option_map SavedJob.company SavedJob.title SavedJob.ts].
    now destruct (getValueByAliases row headers SavedJobsAliases.company),
                 (getValueByAliases row headers SavedJobsAliases.title).
  - intros fileType headers row. rewrite jobOfRow_pushed.
    now destruct (jobAdmitted headers row).
  - intros fileType headers row. rewrite jobOfRow_pushed.
    unfold jobAdmitted, jobPushed, jobRecordOf, orElse.
    now destruct (getValueByAliases row headers SavedJobsAliases.company),
                 (getValueByAliases row headers SavedJobsAliases.title).
  - assert (E : fst (jobOfRow (js "Saved Jobs") jobsHeader engineerRow)
                = Some {| SavedJob.id := stableHash (js "|Engineer|");
                          SavedJob.company := js "Unknown";
                          SavedJob.title := js "Engineer";
                          SavedJob.ts := [] |}) by reflexivity.
    assert (U : fst (jobOfRow (js "Saved Jobs") jobsHeader unknownEngineerRow)
                = Some {| SavedJob.id := stableHash (js "Unknown|Engineer|");
                          SavedJob.company := js "Unknown";
                          SavedJob.title := js "Engineer";
                          SavedJob.ts := [] |}) by reflexivity.
    assert (R : SavedJob.id (jobRecordOf jobsHeader engineerRow)
                = stableHash (js "Unknown|Engineer|")) by reflexivity.
    assert (D : stableHash (js "|Engineer|") <> stableHash (js "Unknown|Engineer|"))
      by (vm_compute; discriminate).
    rewrite E, U, R. cbn [option_map SavedJob.id SavedJob.company SavedJob.title
                          SavedJob.ts].
    repeat split; try congruence.
Qed.
(* ------------------------------------------------------------------ *)
(** * The header row of connections *)

Section ConnectionsHeader.
Context {host : Host}.

(** The scan reads the first [limit] rows only. *)
Lemma findFirstNameRow_window (limit : nat) :
  forall (i : nat) (rawData : list Row),
    findFirstNameRow i limit rawData = findFirstNameRow i limit (firstn limit rawData).
Proof.
  induction limit as [|limit IH]; intros i [|r rest]; cbn [findFirstNameRow firstn];
    trivial.
  destruct (hasFirstNameCell r); [reflexivity|]. apply IH.
Qed.

(** The scan stops at the first row with the marker: the rows before it
    carry no marker, and the row itself, normalised, is the header. *)
Lemma findFirstNameRow_found (limit : nat) :
  forall (i k : nat) (rawData : list Row) (headers : Row),
    findFirstNameRow i limit rawData = Some (k, headers) ->
    exists (preamble : list Row) (header : Row) (rest : list Row),
      rawData = preamble ++ header :: rest
      /\ k = i + length preamble /\ length preamble < limit
      /\ forallb (fun r => negb (hasFirstNameCell r)) preamble = true
      /\ hasFirstNameCell header = true
      /\ headers = normalizeRow header.
Proof.
  induction limit as [|limit IH]; intros i k [|r rest] headers;
    cbn [findFirstNameRow]; try discriminate.
  destruct (hasFirstNameCell r) eqn:E.
  - intros [= <- <-]. exists [], r, rest. cbn [length forallb app].
    repeat split; trivial; lia.
  - intros H.
    destruct (IH _ _ _ _ H) as (pre & hdr & rest' & -> & -> & Hlen & Hpre & Hhdr & ->).
    exists (r :: pre), hdr, rest'. cbn [length forallb app]. rewrite E.
    repeat split; trivial; lia.
Qed.

(** No marker in the first ten rows: no contact, one warning. *)
Lemma processConnections_no_header (rawData : list Row) (ws : list jsstring)
    (fileName : jsstring) :
  findFirstNameRow 0 10 rawData = None ->
  processConnections rawData ws fileName
  = ([], ws ++ [js "Connections: Could not find header row with " ++ QUOTE
                  ++ js "First Name" ++ QUOTE ++ js " in " ++ fileName]).
Proof. intros H. unfold processConnections. now rewrite H. Qed.

(** The rows before the header are discarded: the contacts are those of the
    rows that follow the header. *)
Lemma processConnections_preamble (preamble : list Row) (header : Row)
    (rest : list Row) (ws : list jsstring) (fileName : jsstring) :
  length preamble < 10 ->
  forallb (fun r => negb (hasFirstNameCell r)) preamble = true ->
  hasFirstNameCell header = true ->
  fst (processConnections (preamble ++ header :: rest) ws fileName)
  = pushedBy (connectionOfRow (normalizeRow header)) (filter hasContent rest).
Proof.
  intros Hlen Hpre Hhdr. rewrite processConnections_records.
  assert (H : forall limit i pre,
    length pre < limit ->
    forallb (fun r => negb (hasFirstNameCell r)) pre = true ->
    findFirstNameRow i limit (pre ++ header :: rest)
    = Some (i + length pre, normalizeRow header)).
  { induction limit as [|limit IH]; intros i pre Hl Hp; [lia|].
    destruct pre as [|r pre]; cbn [app findFirstNameRow length].
    - rewrite Hhdr. f_equal. f_equal. lia.
    - cbn [forallb length] in Hp, Hl. apply andb_true_iff in Hp.
      destruct Hp as [Hr Hp]. apply negb_true_iff in Hr. rewrite Hr.
      rewrite IH by (trivial; lia). f_equal. f_equal. lia. }
  rewrite (H 10 0 preamble Hlen Hpre). simpl Nat.add.
  replace (length preamble + 1) with (S (length preamble)) by lia.
  replace (skipn (S (length preamble)) (preamble ++ header :: rest)) with rest;
    [reflexivity|].
  clear. induction preamble as [|r pre IH]; [reflexivity|]. exact IH.
Qed.

End ConnectionsHeader.
(* ------------------------------------------------------------------ *)
(** * Auxiliary files of messages *)

Section Auxiliary.
Context {host : Host}.



End Auxiliary.


(* ------------------------------------------------------------------ *)
(** * The records of a file depend on its rows only *)

Section RecordsOnly.
Context {host : Host}.

Lemma processConnections_records_only (rawData : list Row) (ws ws' : list jsstring)
    (fileName fileName' : jsstring) :
  fst (processConnections rawData ws fileName)
  = fst (processConnections rawData ws' fileName').
Proof. now rewrite !processConnections_records. Qed.

Lemma processMessages_records_only (rawData : list Row) (ws ws' : list jsstring)
    (fileName fileName' : jsstring) :
  fst (processMessages rawData ws fileName)
  = fst (processMessages rawData ws' fileName').
Proof. now rewrite !processMessages_records. Qed.

Lemma processInvitations_records_only (rawData : list Row) (ws ws' : list jsstring)
    (fileName fileName' : jsstring) :
  fst (processInvitations rawData ws fileName)
  = fst (processInvitations rawData ws' fileName').
Proof. now rewrite !processInvitations_records. Qed.

Lemma processCompanyFollows_records_only (rawData : list Row) (ws ws' : list jsstring)
    (fileName fileName' : jsstring) :
  fst (processCompanyFollows rawData ws fileName)
  = fst (processCompanyFollows rawData ws' fileName').
Proof. now rewrite !processCompanyFollows_records. Qed.

Lemma processSavedJobs_records_only (rawData : list Row) (ws ws' : list jsstring)
    (fileName fileName' : jsstring) (isApplications isApplications' : bool) :
  fst (processSavedJobs rawData ws fileName isApplications)
  = fst (processSavedJobs rawData ws' fileName' isApplications').
Proof.
  rewrite !processSavedJobs_records. destruct (length rawData <? 2); [reflexivity|].
  apply pushedBy_ext. intros r. now rewrite !jobOfRow_pushed.
Qed.

End RecordsOnly.
(* ------------------------------------------------------------------ *)
(** * The claims on concrete inputs *)

(** The identifier of the input [abc] has 12 digits, 48 bits: fewer than
    the 64 bits of the claim C1 as it is stated. *)
Lemma stableHash_has_48_bits_not_64 :
  stableHash (js "abc") = js "a9993e364706"
  /\ stableHashBits (js "abc") = 48%Z
  /\ ~ (64 <= stableHashBits (js "abc"))%Z
  /\ ~ (2 ^ 64 <= 16 ^ Z.of_nat (length (stableHash (js "abc"))))%Z.
Proof. vm_compute. repeat split; intros H; now apply H. Qed.



(** An archive with an auxiliary entry: the entry is not extracted, and the
    warnings of the payload do not mention it. *)
Lemma archive_auxiliary_entry_is_not_reported :
  map extractedName
    (extractZipFiles (host := browserUTC)
       [csvEntry "messages.csv" messagesTable;
        csvEntry "guide_messages.csv" messagesTable])
  = map js ["messages.csv"%string]
  /\ warnings (summary (onMessage (host := browserUTC) [archiveWithAuxiliary]))
     = map js ["Extracted 1 files from export.zip"%string;
               "Messages: Detected headers: FROM | TO | CONTENT | DATE"%string;
               "Messages: 1 data rows found in messages.csv"%string;
               "Messages: 1 messages processed from messages.csv"%string].
Proof. vm_compute. split; reflexivity. Qed.

(** The contact of John Doe keeps its identifier when the company, the
    position and the date of the row change. *)
Lemma contact_id_is_hash_of_url_witness :
  getValueByAliases johnRow connectionsHeader ConnectionsAliases.url <> []
  /\ option_map Contact.id
       (fst (connectionOfRow (host := browserUTC) connectionsHeader johnRowLater))
     = option_map Contact.id
         (fst (connectionOfRow (host := browserUTC) connectionsHeader johnRow)).
Proof.
  assert (Hurl : getValueByAliases johnRow connectionsHeader ConnectionsAliases.url
                 <> []) by (vm_compute; discriminate).
  assert (Hsame : getValueByAliases johnRowLater connectionsHeader ConnectionsAliases.url
                  = getValueByAliases johnRow connectionsHeader ConnectionsAliases.url)
    by (vm_compute; reflexivity).
  split; [exact Hurl|].
  exact (proj1 (proj2 (contact_id_is_hash_of_url browserUTC connectionsHeader johnRow
                         connectionsHeader johnRowLater Hurl Hsame))).
Defined.

(* ------------------------------------------------------------------ *)
(** * Where the code departs from the claims *)

(** C5: a second file of a kind replaces the records of the first, except
    for the jobs.  With two exports of connections in one invocation the
    payload holds the contacts of the second export only, and the row count
    of the label is the one of the second export, although both exports are
    listed as processed; two exports of saved jobs do accumulate. *)
Theorem second_file_replaces_first :
  (forall (host : Host) (data : list Row) (fileData : FileData) (p : ParsedPayload),
      contacts (dispatch Connections data fileData p)
      = fst (processConnections data (warnings (summary p)) (fileDataName fileData))
      /\ messages (dispatch MessagesFile data fileData p)
         = fst (processMessages data (warnings (summary p)) (fileDataName fileData))
      /\ invites (dispatch Invitations data fileData p)
         = fst (processInvitations data (warnings (summary p)) (fileDataName fileData))
      /\ companyFollows (dispatch CompanyFollows data fileData p)
         = fst (processCompanyFollows data (warnings (summary p))
                  (fileDataName fileData))
      /\ savedJobs (dispatch SavedJobs data fileData p)
         = savedJobs p
           ++ fst (processSavedJobs data (warnings (summary p))
                     (fileDataName fileData) false)
      /\ savedJobs (dispatch JobApplications data fileData p)
         = savedJobs p
           ++ fst (processSavedJobs data (warnings (summary p))
                     (fileDataName fileData) true))
  /\ map Contact.name
       (contacts (onMessage (host := browserUTC) [firstConnections]))
     = map js ["John Doe"%string]
  /\ map Contact.name
       (contacts (onMessage (host := browserUTC) [firstConnections; secondConnections]))
     = map js ["Jane Smith"%string]
  /\ filesProcessed
       (summary (onMessage (host := browserUTC) [firstConnections; secondConnections]))
     = map js ["Connections (Connections.csv)"%string;
               "Connections (More Connections.csv)"%string]
  /\ lookup (js "Connections")
       (rows (summary (onMessage (host := browserUTC)
                         [firstConnections; secondConnections])))
     = Some 2
  /\ map SavedJob.company
       (savedJobs (onMessage (host := browserUTC) [firstJobs; secondJobs]))
     = map js ["Acme"%string; "Initech"%string].
Proof.
  split.
  - intros host data fileData p. unfold dispatch.
    destruct (processConnections _ _ _), (processMessages _ _ _),
      (processInvitations _ _ _), (processCompanyFollows _ _ _),
      (processSavedJobs _ _ _ false), (processSavedJobs _ _ _ true).
    repeat split.
  - vm_compute. repeat split.
Qed.

(** C6: the suffix [UTC] is removed before the host reads the date, so the
    host is given a date without a zone and reads it in its own time zone.
    In a browser in India the result for [2024-01-02 10:00:00 UTC] is the
    instant 04:30 UTC of that day; it is 10:00 UTC only when the local time
    of the host is UTC.  The empty string gives the empty string. *)
Theorem parseTimestamp_drops_the_zone :
  (forall host : Host,
      parseTimestamp (js "2024-01-02 10:00:00 UTC")
      = match Date_parse (js "2024-01-02 10:00:00") with
        | Some date => DateTime.toISOString date
        | None => []
        end)
  /\ parseTimestamp (host := browserIST) (js "2024-01-02 10:00:00 UTC")
     = js "2024-01-02T04:30:00.000Z"
  /\ parseTimestamp (host := browserUTC) (js "2024-01-02 10:00:00 UTC")
     = js "2024-01-02T10:00:00.000Z"
  /\ (forall host : Host, parseTimestamp [] = []).
Proof. repeat split. Qed.

(** C3: the payload is not a function of the bytes of the files alone.
    The conversation export whose one message is dated
    [2024-01-15 14:30:00 UTC], parsed by a browser whose local time is UTC
    and by a browser in India, gives the same body and the same summary,
    and two different instants, hence two different identifiers of the
    message and two different payloads.  The zone of the date is cut off
    before the host reads it, so the instant, and every identifier that is
    a hash over an instant, follows the time zone of the host. *)
Theorem payload_depends_on_the_time_zone :
  map Message.body (messages (onMessage (host := browserIST) [messagesFile]))
  = map Message.body (messages (onMessage (host := browserUTC) [messagesFile]))
  /\ summary (onMessage (host := browserIST) [messagesFile])
     = summary (onMessage (host := browserUTC) [messagesFile])
  /\ map Message.ts (messages (onMessage (host := browserUTC) [messagesFile]))
     = map js ["2024-01-15T14:30:00.000Z"%string]
  /\ map Message.ts (messages (onMessage (host := browserIST) [messagesFile]))
     = map js ["2024-01-15T09:00:00.000Z"%string]
  /\ map Message.id (messages (onMessage (host := browserUTC) [messagesFile]))
     = map js ["d1c8f11af02b"%string]
  /\ map Message.id (messages (onMessage (host := browserIST) [messagesFile]))
     = map js ["cfc3b0124925"%string]
  /\ onMessage (host := browserIST) [messagesFile]
     <> onMessage (host := browserUTC) [messagesFile].
Proof.
  assert (U : map Message.id (messages (onMessage (host := browserUTC) [messagesFile]))
              = map js ["d1c8f11af02b"%string]) by (vm_compute; reflexivity).
  assert (I : map Message.id (messages (onMessage (host := browserIST) [messagesFile]))
              = map js ["cfc3b0124925"%string]) by (vm_compute; reflexivity).
  split; [vm_compute; reflexivity|]. split; [vm_compute; reflexivity|].
  split; [vm_compute; reflexivity|]. split; [vm_compute; reflexivity|].
  split; [exact U|]. split; [exact I|].
  intros E. rewrite E, U in I. discriminate I.
Qed.

(** C7: only the normaliser of connections looks for its header row.  A
    conversation export below one line of notes yields no message, because
    the line of notes is taken for the header; without the line of notes it
    yields its message; an export of connections below two lines of notes
    yields its contact. *)
Theorem only_connections_scan_for_the_header :
  (forall (host : Host) (rawData : list Row) (ws : list jsstring) (fileName : jsstring),
      fst (processMessages rawData ws fileName)
      = if length rawData <? 2 then []
        else pushedBy (messageOfRow (normalizeRow (nth 0 rawData [])))
               (filter hasContent (skipn 1 rawData)))
  /\ fst (processMessages (host := browserUTC) messagesTableWithPreamble []
            (js "messages.csv")) = []
  /\ snd (processMessages (host := browserUTC) messagesTableWithPreamble []
            (js "messages.csv"))
     = map js ["Messages: Detected headers: Notes: exported conversations"%string;
               "Messages: 2 data rows found in messages.csv"%string;
               "Messages: 0 messages processed from messages.csv"%string]
  /\ map Message.body
       (fst (processMessages (host := browserUTC) messagesTable [] (js "messages.csv")))
     = map js ["Hello, how are you?"%string]
  /\ map Contact.name
       (fst (processConnections (host := browserUTC) connectionsWithPreamble []
               (js "Connections.csv")))
     = map js ["John Doe"%string].
Proof.
  split; [intros; apply processMessages_records|]. vm_compute. repeat split.
Qed.
(* ------------------------------------------------------------------ *)
(** * Text normalisation: what it keeps and what it drops *)

Lemma isWhiteSpace_not_ink (c : N) : isWhiteSpace c = true -> isInk c = false.
Proof. unfold isInk. now intros ->. Qed.

Lemma filter_ink_trimStart (s : jsstring) : filter isInk (trimStart s) = filter isInk s.
Proof.
  induction s as [|c s IH]; [reflexivity|]. cbn [trimStart].
  destruct (isWhiteSpace c) eqn:E; [|reflexivity].
  cbn [filter]. now rewrite (isWhiteSpace_not_ink c E).
Qed.

Lemma filter_ink_trim (s : jsstring) : filter isInk (trim s) = filter isInk s.
Proof.
  unfold trim, trimEnd.
  now rewrite filter_rev, filter_ink_trimStart, <- filter_rev, rev_involutive,
    filter_ink_trimStart.
Qed.

Lemma filter_ink_stripBOM (s : jsstring) : filter isInk (stripBOM s) = filter isInk s.
Proof.
  destruct s as [|c s]; [reflexivity|]. cbn [stripBOM].
  destruct (N.eqb_spec c BOM) as [->|]; reflexivity.
Qed.

Lemma filter_ink_collapse (s : jsstring) :
  forall b, filter isInk (collapseFrom b s) = filter isInk s.
Proof.
  induction s as [|c s IH]; intros b; [reflexivity|]. cbn [collapseFrom filter].
  destruct (isWhiteSpace c) eqn:E.
  - rewrite (isWhiteSpace_not_ink c E). destruct b; [apply IH|].
    cbn [filter]. rewrite (isWhiteSpace_not_ink SPACE isWhiteSpace_SPACE). apply IH.
  - assert (Hi : isInk c = true) by (unfold isInk; now rewrite E).
    cbn [filter]. now rewrite Hi, IH.
Qed.

Lemma trimStart_length (s : jsstring) : length (trimStart s) <= length s.
Proof.
  induction s as [|c s IH]; [reflexivity|]. cbn [trimStart].
  destruct (isWhiteSpace c); simpl; lia.
Qed.

Lemma trim_length (s : jsstring) : length (trim s) <= length s.
Proof.
  unfold trim, trimEnd. rewrite length_rev.
  pose proof (trimStart_length (rev (trimStart s))) as H1.
  pose proof (trimStart_length s) as H2. rewrite length_rev in H1. lia.
Qed.

Lemma collapseFrom_length (s : jsstring) :
  forall b, length (collapseFrom b s) <= length s.
Proof.
  induction s as [|c s IH]; intros b; [reflexivity|]. cbn [collapseFrom].
  pose proof (IH true). pose proof (IH false).
  destruct (isWhiteSpace c); [destruct b|]; simpl; lia.
Qed.

Lemma stripBOM_length (s : jsstring) : length (stripBOM s) <= length s.
Proof.
  destruct s as [|c s]; [reflexivity|]. cbn [stripBOM].
  destruct (c =? BOM)%N; simpl; lia.
Qed.

Lemma filter_ink_nil (s : jsstring) :
  filter isInk s = [] <-> forallb isWhiteSpace s = true.
Proof.
  induction s as [|c s IH]; [now split|]. cbn [filter forallb]. unfold isInk at 1.
  destruct (isWhiteSpace c); cbn [negb andb]; [exact IH|]. split; discriminate.
Qed.

Lemma trimStart_blank (s : jsstring) :
  forallb isWhiteSpace s = true -> trimStart s = [].
Proof.
  induction s as [|c s IH]; [reflexivity|]. cbn [forallb trimStart].
  destruct (isWhiteSpace c); [exact IH | discriminate].
Qed.

Lemma filter_ink_normalizeText (s : jsstring) :
  filter isInk (normalizeText (Some s)) = filter isInk s.
Proof.
  unfold normalizeText. destruct s as [|c s]; [reflexivity|]. cbn [truthy].
  unfold collapseSpaces.
  now rewrite filter_ink_collapse, filter_ink_trim, filter_ink_stripBOM.
Qed.

(** [normalizeText] changes white space only: the other code units of the
    text are kept, in their order, and the text never grows. *)
Theorem normalizeText_keeps_ink (s : jsstring) :
  filter isInk (normalizeText (Some s)) = filter isInk s
  /\ length (normalizeText (Some s)) <= length s.
Proof.
  split; [apply filter_ink_normalizeText|].
  unfold normalizeText. destruct s as [|c s]; [reflexivity|]. cbn [truthy].
  unfold collapseSpaces.
  pose proof (collapseFrom_length (trim (stripBOM (c :: s))) false).
  pose proof (trim_length (stripBOM (c :: s))).
  pose proof (stripBOM_length (c :: s)). lia.
Qed.

(** A text normalises to the empty string exactly when it holds white space
    only (the empty text and [undefined] included), so a row has content
    exactly when one of its cells holds a code unit that is not white
    space. *)
Theorem normalizeText_empty_iff_blank :
  normalizeText None = []
  /\ (forall s : jsstring, truthy (normalizeText (Some s)) = existsb isInk s)
  /\ (forall row : Row, hasContent row = existsb (existsb isInk) row).
Proof.
  assert (H : forall s : jsstring, truthy (normalizeText (Some s)) = existsb isInk s).
  { intros s. pose proof (filter_ink_normalizeText s) as Hk.
    destruct (existsb isInk s) eqn:E.
    - apply existsb_exists in E. destruct E as (c & Hc & Hi).
      destruct (normalizeText (Some s)) as [|d r] eqn:N; [|reflexivity].
      assert (In c (filter isInk s)) by (apply filter_In; now split).
      rewrite <- Hk in H. destruct H.
    - assert (Hb : forallb isWhiteSpace s = true).
      { apply forallb_forall. intros c Hc.
        destruct (isWhiteSpace c) eqn:W; [reflexivity|].
        assert (existsb isInk s = true).
        { apply existsb_exists. exists c. split; [exact Hc|]. unfold isInk. now rewrite W. }
        congruence. }
      unfold normalizeText. destruct (truthy s); [|reflexivity].
      assert (Hs : forallb isWhiteSpace (stripBOM s) = true).
      { destruct s as [|c s]; [reflexivity|]. cbn [stripBOM].
        destruct (c =? BOM)%N; [|exact Hb]. cbn [forallb] in Hb.
        now apply andb_true_iff in Hb. }
      unfold trim. now rewrite (trimStart_blank _ Hs). }
  split; [reflexivity|]. split; [exact H|].
  intros row. unfold hasContent. induction row as [|cell row IH]; [reflexivity|].
  cbn [existsb]. now rewrite H, IH.
Qed.

(* ------------------------------------------------------------------ *)
(** * Paths *)

Lemma split_cons_nonempty (sep : N) (s : jsstring) : split sep s <> [].
Proof.
  destruct s as [|c s]; [discriminate|]. cbn [split].
  destruct (c =? sep)%N; [discriminate|]. destruct (split sep s); discriminate.
Qed.

Lemma join_split (sep : N) (s : jsstring) : join [sep] (split sep s) = s.
Proof.
  induction s as [|c s IH]; [reflexivity|]. cbn [split].
  destruct (N.eqb_spec c sep) as [->|Hc].
  - pose proof (split_cons_nonempty sep s) as Hne.
    destruct (split sep s) as [|p ps]; [congruence|].
    change (join [sep] ([] :: p :: ps)) with ([] ++ [sep] ++ join [sep] (p :: ps)).
    now rewrite IH.
  - pose proof (split_cons_nonempty sep s) as Hne.
    destruct (split sep s) as [|p ps]; [congruence|].
    rewrite <- IH. destruct ps as [|q ps]; reflexivity.
Qed.

Lemma split_pieces_free (sep : N) (s : jsstring) :
  Forall (fun piece => free sep piece = true) (split sep s).
Proof.
  induction s as [|c s IH]; [repeat constructor|]. cbn [split].
  destruct (N.eqb_spec c sep) as [->|Hc].
  - constructor; [reflexivity | exact IH].
  - destruct (split sep s) as [|p ps]; [repeat constructor|].
    + unfold free. cbn [forallb]. apply N.eqb_neq in Hc. now rewrite Hc.
    + inversion IH as [|? ? Hp Hps]; subst. constructor; [|exact Hps].
      unfold free in *. cbn [forallb]. apply N.eqb_neq in Hc. now rewrite Hc.
Qed.

Lemma startsWith_app (p q : jsstring) : startsWith (p ++ q) p = true.
Proof.
  induction p as [|c p IH]; [now destruct q|]. cbn [app startsWith].
  now rewrite N.eqb_refl.
Qed.

Lemma join_last (sep : jsstring) (pieces : list jsstring) (piece : jsstring) :
  exists before, join sep (pieces ++ [piece]) = before ++ piece.
Proof.
  induction pieces as [|p ps [before IH]].
  - now exists [].
  - destruct (ps ++ [piece]) as [|x xs] eqn:E; [now destruct ps|].
    cbn [app]. rewrite E.
    change (join sep (p :: x :: xs)) with (p ++ sep ++ join sep (x :: xs)). rewrite IH.
    exists (p ++ sep ++ before). now rewrite <- !app_assoc.
Qed.

Lemma includes_single (c : N) (s : jsstring) :
  includes s [c] = existsb (fun x => (x =? c)%N) s.
Proof.
  induction s as [|x s IH]; [reflexivity|]. cbn [includes startsWith existsb].
  rewrite IH. destruct s; now rewrite andb_true_r.
Qed.

Lemma free_includes (c : N) (s : jsstring) : free c s = negb (includes s [c]).
Proof.
  rewrite includes_single. unfold free.
  induction s as [|x s IH]; [reflexivity|]. cbn [forallb existsb].
  rewrite IH. now destruct (x =? c)%N.
Qed.

(** Splitting a text at a separator and joining the pieces with it gives the
    text back, and no piece holds the separator.  The base name of a path,
    its last piece, holds no slash, and the path ends with it. *)
Theorem split_join_and_basename (sep : N) (path : jsstring) :
  join [sep] (split sep path) = path
  /\ Forall (fun piece => includes piece [sep] = false) (split sep path)
  /\ includes (basenameOf path) [SLASH] = false
  /\ endsWith path (basenameOf path) = true.
Proof.
  split; [apply join_split|]. split.
  - pose proof (split_pieces_free sep path) as H.
    eapply Forall_impl; [|exact H]. intros piece Hp. simpl in Hp.
    rewrite free_includes in Hp. now destruct (includes piece [sep]).
  - unfold basenameOf, pop.
    pose proof (split_pieces_free SLASH path) as Hfree.
    pose proof (join_split SLASH path) as Hjoin.
    pose proof (split_cons_nonempty SLASH path) as Hne.
    destruct (split SLASH path) as [|p ps] using rev_ind; [congruence|]. clear IHps.
    rewrite rev_app_distr. cbn [rev app].
    split.
    + apply Forall_app in Hfree. destruct Hfree as [_ Hp].
      inversion Hp as [|? ? Hf _]; subst. rewrite free_includes in Hf.
      now destruct (includes p [SLASH]).
    + destruct (join_last [SLASH] ps p) as [before E]. rewrite E in Hjoin.
      rewrite <- Hjoin. unfold endsWith. rewrite rev_app_distr. apply startsWith_app.
Qed.
(* ------------------------------------------------------------------ *)
(** * The resolution of a column *)

Lemma findHeaderIndexFrom_spec (aliases : list Alias) (headers : list jsstring) :
  forall k : nat,
    match findHeaderIndexFrom k headers aliases with
    | Some i =>
        exists j header,
          i = k + j /\ nth_error headers j = Some header
          /\ matchesAny aliases header = true
          /\ forallb (fun h => negb (matchesAny aliases h)) (firstn j headers) = true
    | None => forallb (fun h => negb (matchesAny aliases h)) headers = true
    end.
Proof.
  induction headers as [|h rest IH]; intros k; cbn [findHeaderIndexFrom]; [reflexivity|].
  fold (matchesAny aliases h). destruct (matchesAny aliases h) eqn:E.
  - exists 0, h. repeat split; trivial; lia.
  - specialize (IH (S k)). destruct (findHeaderIndexFrom (S k) rest aliases) as [i|].
    + destruct IH as (j & header & -> & Hn & Hm & Hf). exists (S j), header.
      repeat split; trivial; try lia. cbn [firstn forallb]. now rewrite E.
    + cbn [forallb]. now rewrite E.
Qed.

Lemma findHeaderIndex_spec (headers : list jsstring) (aliases : list Alias) :
  match findHeaderIndex headers aliases with
  | Some i =>
      i < length headers
      /\ (exists header, nth_error headers i = Some header
                         /\ matchesAny aliases header = true)
      /\ forallb (fun h => negb (matchesAny aliases h)) (firstn i headers) = true
  | None => forallb (fun h => negb (matchesAny aliases h)) headers = true
  end.
Proof.
  unfold findHeaderIndex. pose proof (findHeaderIndexFrom_spec aliases headers 0) as H.
  destruct (findHeaderIndexFrom 0 headers aliases) as [i|]; [|exact H].
  destruct H as (j & header & -> & Hn & Hm & Hf). cbn [Nat.add].
  split; [|split]; trivial.
  - apply nth_error_Some. congruence.
  - now exists header.
Qed.

(** [findHeaderIndex] returns the position of the first header, from the
    left, that one of the aliases matches: the position lies inside the
    header row, and no header before it matches; it finds nothing exactly
    when no header matches any alias. *)
Theorem findHeaderIndex_first_match (headers : list jsstring) (aliases : list Alias) :
  match findHeaderIndex headers aliases with
  | Some i =>
      i < length headers
      /\ (exists header, nth_error headers i = Some header
                         /\ matchesAny aliases header = true)
      /\ forallb (fun h => negb (matchesAny aliases h)) (firstn i headers) = true
  | None => forallb (fun h => negb (matchesAny aliases h)) headers = true
  end.
Proof. apply findHeaderIndex_spec. Qed.

Lemma findHeaderIndex_at (pre post : list jsstring) (header : jsstring)
    (aliases : list Alias) :
  forallb (fun h => negb (matchesAny aliases h)) pre = true ->
  matchesAny aliases header = true ->
  findHeaderIndex (pre ++ header :: post) aliases = Some (length pre).
Proof.
  intros Hpre Hh. unfold findHeaderIndex.
  assert (H : forall k, findHeaderIndexFrom k (pre ++ header :: post) aliases
                        = Some (k + length pre)).
  { induction pre as [|h pre IH]; intros k; cbn [app findHeaderIndexFrom length].
    - fold (matchesAny aliases header). rewrite Hh. f_equal. lia.
    - cbn [forallb] in Hpre. apply andb_true_iff in Hpre. destruct Hpre as [H1 H2].
      fold (matchesAny aliases h). apply negb_true_iff in H1. rewrite H1.
      rewrite (IH H2). f_equal. lia. }
  apply H.
Qed.

(** [getValueByAliases] reads the cell below the first matching header and
    normalises it; later headers that match as well are not read.  A row
    that is too short to have that cell gives the empty string, and so does
    a header row in which no header matches. *)
Theorem getValueByAliases_first_column
    (pre post : list jsstring) (header : jsstring) (aliases : list Alias) (row : Row) :
  forallb (fun h => negb (matchesAny aliases h)) pre = true ->
  matchesAny aliases header = true ->
  getValueByAliases row (pre ++ header :: post) aliases
  = normalizeText (nth_error row (length pre))
  /\ (length row <= length pre ->
      getValueByAliases row (pre ++ header :: post) aliases = [])
  /\ getValueByAliases row pre aliases = [].
Proof.
  intros Hpre Hh. unfold getValueByAliases.
  rewrite (findHeaderIndex_at pre post header aliases Hpre Hh).
  split; [reflexivity|]. split.
  - intros Hlen. apply nth_error_None in Hlen. now rewrite Hlen.
  - pose proof (findHeaderIndex_spec pre aliases) as H.
    destruct (findHeaderIndex pre aliases) as [i|]; [|reflexivity].
    destruct H as (Hi & (h & Hn & Hm) & _).
    rewrite forallb_forall in Hpre. apply nth_error_In in Hn.
    specialize (Hpre h Hn). rewrite Hm in Hpre. discriminate.
Qed.

Lemma asciiUpper_asciiLower (c : N) : asciiUpper (asciiLower c) = asciiUpper c.
Proof.
  unfold asciiUpper, asciiLower.
  destruct (N.leb_spec 65 c), (N.leb_spec c 90); cbn [andb];
    repeat match goal with
           | |- context [(?a <=? ?b)%N] => destruct (N.leb_spec a b)
           end; cbn [andb]; lia.
Qed.

Lemma asciiUpper_idem (c : N) : asciiUpper (asciiUpper c) = asciiUpper c.
Proof.
  unfold asciiUpper.
  destruct (N.leb_spec 97 c), (N.leb_spec c 122); cbn [andb];
    repeat match goal with
           | |- context [(?a <=? ?b)%N] => destruct (N.leb_spec a b)
           end; cbn [andb]; lia.
Qed.

Lemma canonicalize_lower (s : jsstring) : canonicalize (map asciiLower s) = canonicalize s.
Proof.
  unfold canonicalize. rewrite map_map. apply map_ext, asciiUpper_asciiLower.
Qed.

Lemma canonicalize_upper (s : jsstring) : canonicalize (map asciiUpper s) = canonicalize s.
Proof.
  unfold canonicalize. rewrite map_map. apply map_ext, asciiUpper_idem.
Qed.

Lemma includes_refl (s : jsstring) : includes s s = true.
Proof.
  assert (H : startsWith s s = true).
  { induction s as [|c s IH]; [reflexivity|]. cbn [startsWith]. now rewrite N.eqb_refl. }
  destruct s; cbn [includes]; now rewrite H.
Qed.

(** A regular expression with the flag [i] matches a header whatever the
    case of the Basic Latin letters of the header, and it matches its own
    text.  A literal alias matches the header that is equal to it and no
    other. *)
Theorem regex_aliases_ignore_case (text header : jsstring) :
  aliasMatches (ReWhole text) (map asciiLower header)
  = aliasMatches (ReWhole text) header
  /\ aliasMatches (ReWhole text) (map asciiUpper header)
     = aliasMatches (ReWhole text) header
  /\ aliasMatches (ReContains text) (map asciiLower header)
     = aliasMatches (ReContains text) header
  /\ aliasMatches (ReContains text) (map asciiUpper header)
     = aliasMatches (ReContains text) header
  /\ aliasMatches (ReWhole text) text = true
  /\ aliasMatches (ReContains text) text = true
  /\ aliasMatches (Literal text) header = streq header text.
Proof.
  cbn [aliasMatches]. rewrite !canonicalize_lower, !canonicalize_upper.
  repeat split.
  - now apply streq_true.
  - apply includes_refl.
Qed.

Lemma matchesAny_case (aliases : list Alias) (f : N -> N) (header : jsstring) :
  (forall s, canonicalize (map f s) = canonicalize s) ->
  forallb isRegex aliases = true ->
  matchesAny aliases (map f header) = matchesAny aliases header.
Proof.
  intros Hf. unfold matchesAny.
  induction aliases as [|alias rest IH]; [reflexivity|].
  cbn [forallb existsb]. intros H. apply andb_true_iff in H. destruct H as [Ha Hr].
  rewrite (IH Hr). f_equal.
  destruct alias; [discriminate| |]; cbn [aliasMatches]; now rewrite Hf.
Qed.

Lemma findHeaderIndex_case (aliases : list Alias) (f : N -> N)
    (headers : list jsstring) :
  (forall s, canonicalize (map f s) = canonicalize s) ->
  forallb isRegex aliases = true ->
  findHeaderIndex (map (map f) headers) aliases = findHeaderIndex headers aliases.
Proof.
  intros Hf Hr. unfold findHeaderIndex. generalize 0.
  induction headers as [|h rest IH]; intros k; [reflexivity|].
  cbn [map findHeaderIndexFrom].
  fold (matchesAny aliases (map f h)). fold (matchesAny aliases h).
  rewrite (matchesAny_case aliases f h Hf Hr).
  destruct (matchesAny aliases h); [reflexivity | apply IH].
Qed.

Section MessagesCase.
Context {host : Host}.

(** The normaliser of messages finds its columns whatever the case of the
    Basic Latin letters of the headers: a header row in lower case, or in
    upper case, gives the same record and the same warnings for every
    row. *)
Theorem messages_headers_ignore_case (headers row : Row) :
  messageOfRow (map (map asciiLower) headers) row = messageOfRow headers row
  /\ messageOfRow (map (map asciiUpper) headers) row = messageOfRow headers row.
Proof.
  assert (H : forall f, (forall s, canonicalize (map f s) = canonicalize s) ->
            messageOfRow (map (map f) headers) row = messageOfRow headers row).
  { intros f Hf. unfold messageOfRow, getValueByAliases.
    now rewrite !(findHeaderIndex_case _ f headers Hf) by reflexivity. }
  split; apply H; [apply canonicalize_lower | apply canonicalize_upper].
Qed.

End MessagesCase.
(* ------------------------------------------------------------------ *)
(** * Timestamps: the suffix and the shape of the result *)




Lemma startsWith_app_l (p : jsstring) :
  forall s b, startsWith s p = true -> startsWith (s ++ b) p = true.
Proof.
  induction p as [|y p IH]; intros s b.
  - now destruct (s ++ b).
  - destruct s as [|x s]; cbn [startsWith app]; [discriminate|].
    intros H. apply andb_true_iff in H. destruct H as [-> H]. now rewrite IH.
Qed.

Lemma includes_app_l (a b p : jsstring) : includes a p = true -> includes (a ++ b) p = true.
Proof.
  induction a as [|c a IH]; cbn [includes app].
  - rewrite orb_false_r. intros H. apply (startsWith_app_l p [] b) in H.
    cbn [app] in H. destruct b; cbn [includes]; now rewrite H.
  - intros H. apply orb_true_iff in H. destruct H as [H|H].
    + apply (startsWith_app_l p (c :: a) b) in H. cbn [app] in H. now rewrite H.
    + rewrite (IH H). apply orb_true_r.
Qed.

Lemma includes_app_r (a b p : jsstring) : includes b p = true -> includes (a ++ b) p = true.
Proof.
  intros H. induction a as [|c a IH]; [exact H|].
  cbn [app includes]. rewrite IH. apply orb_true_r.
Qed.

Lemma toISOString_shape (t : Z) :
  includes (DateTime.toISOString t) (js "T") = true
  /\ includes (DateTime.toISOString t) (js "Z") = true
  /\ endsWith (DateTime.toISOString t) (js "Z") = true
  /\ truthy (DateTime.toISOString t) = true.
Proof.
  unfold DateTime.toISOString. repeat split.
  - apply includes_app_r, includes_app_l, includes_refl.
  - rewrite !app_assoc. apply includes_app_r, includes_refl.
  - unfold endsWith. rewrite !app_assoc, rev_app_distr. apply startsWith_app.
  - destruct (DateTime.utcDate t); reflexivity.
Qed.

Section TimestampFacts.
Context {host : Host}.


(** A result of [parseTimestamp] is the empty string or the ISO text of an
    instant, with its T and its final Z.  The acceptance test
    [validateTimestamp] never refuses such a result for its form: it
    accepts the result exactly when it is not empty and the host reads it
    back as a date. *)
Theorem parseTimestamp_result_shape (dateStr : jsstring) :
  (parseTimestamp dateStr = []
   \/ exists instant : Z,
        parseTimestamp dateStr = DateTime.toISOString instant
        /\ endsWith (parseTimestamp dateStr) (js "Z") = true
        /\ includes (parseTimestamp dateStr) (js "T") = true)
  /\ validateTimestamp (parseTimestamp dateStr)
     = truthy (parseTimestamp dateStr)
       && match Date_parse (parseTimestamp dateStr) with
          | Some _ => true
          | None => false
          end
  /\ validateTimestamp [] = false.
Proof.
  assert (H : parseTimestamp dateStr = []
              \/ exists instant, parseTimestamp dateStr = DateTime.toISOString instant).
  { unfold parseTimestamp. destruct (negb (truthy dateStr)); [now left|].
    destruct (Date_parse _) as [t|]; [right; now exists t | now left]. }
  split; [|split; [|reflexivity]].
  - destruct H as [H|[t H]]; [now left|]. right. exists t. rewrite H.
    destruct (toISOString_shape t) as (H1 & H2 & H3 & H4). auto.
  - destruct H as [->|[t ->]]; [reflexivity|].
    destruct (toISOString_shape t) as (H1 & H2 & H3 & H4).
    unfold validateTimestamp. now rewrite H4, H1, H2.
Qed.

End TimestampFacts.
(* ------------------------------------------------------------------ *)
(** * The normalisers: the rows they keep and the warnings they push *)

Lemma forEachRow_result {R : Type} (body : Row -> option R * list jsstring)
    (dataRows : list Row) :
  forall (records : list R) (ws : list jsstring) (n : nat),
    forEachRow body dataRows (records, ws, n)
    = (records ++ pushedBy body dataRows,
       ws ++ pushedWarnings body dataRows,
       n + length (pushedBy body dataRows)).
Proof.
  unfold forEachRow, pushedBy, pushedWarnings.
  induction dataRows as [|row rest IH]; intros records ws n; cbn [fold_left flat_map].
  - now rewrite !app_nil_r, Nat.add_0_r.
  - destruct (body row) as [[r|] pushed]; cbn [fst snd]; rewrite IH;
      rewrite <- ?app_assoc; cbn [app length]; f_equal; lia.
Qed.

(** A loop whose body keeps the rows that [admitted] accepts, pushes the
    warnings [w row] for them, and leaves the other rows without a word. *)
Lemma loop_of_admitted {R B : Type} (body : Row -> option R * list jsstring)
    (proj : R -> B) (admitted : Row -> bool) (val : Row -> B)
    (w : Row -> list jsstring) (dataRows : list Row) :
  (forall row, admitted row = true ->
     exists r, body row = (Some r, w row) /\ proj r = val row) ->
  (forall row, admitted row = false -> body row = (None, [])) ->
  map proj (pushedBy body dataRows) = map val (filter admitted dataRows)
  /\ pushedWarnings body dataRows = flat_map w (filter admitted dataRows)
  /\ length (pushedBy body dataRows) = length (filter admitted dataRows).
Proof.
  intros Hyes Hno. unfold pushedBy, pushedWarnings.
  induction dataRows as [|row rest (IH1 & IH2 & IH3)]; [repeat split|].
  cbn [flat_map filter]. destruct (admitted row) eqn:E.
  - destruct (Hyes row E) as (r & Hb & Hp). rewrite Hb. cbn [fst snd app map flat_map length].
    rewrite IH1, IH2, IH3, Hp. repeat split.
  - rewrite (Hno row E). cbn [fst snd app]. repeat split; assumption.
Qed.

Lemma filter_all {A : Type} (l : list A) : filter (fun _ => true) l = l.
Proof. induction l as [|x l IH]; [reflexivity|]. cbn [filter]. now rewrite IH. Qed.

Lemma dateWarning_length (label raw parsed : jsstring) :
  length (dateWarning label raw parsed) <= 1.
Proof. unfold dateWarning. destruct (_ && _); cbn [length]; lia. Qed.

Lemma flat_map_at_most_one {A B : Type} (f : A -> list B) (l : list A) :
  (forall a, length (f a) <= 1) -> length (flat_map f l) <= length l.
Proof.
  intros Hf. induction l as [|a l IH]; [apply Nat.le_refl|].
  cbn [flat_map]. rewrite length_app. specialize (Hf a). cbn [length]. lia.
Qed.

Section NormalizerFacts.
Context {host : Host}.

(** Connections: when the header is found, every row after it that has
    content becomes one contact: no row is dropped, neither for a missing
    name nor for a date that is not understood.  Such a date leaves the
    contact without instant and pushes one warning that quotes it.  The
    warnings are the two diagnostics, the warnings about dates in the order
    of the rows, and the count of contacts. *)
Theorem connections_keep_every_row
    (rawData : list Row) (ws : list jsstring) (fileName : jsstring) :
  match findFirstNameRow 0 10 rawData with
  | None => fst (processConnections rawData ws fileName) = []
  | Some (headerRowIndex, headers) =>
      let dataRows := filter hasContent (skipn (headerRowIndex + 1) rawData) in
      let connectedOn row :=
        getValueByAliases row headers ConnectionsAliases.connected in
      let contacts := fst (processConnections rawData ws fileName) in
      length contacts = length dataRows
      /\ map Contact.connectedAt contacts
         = map (fun row => parseTimestamp (connectedOn row)) dataRows
      /\ snd (processConnections rawData ws fileName)
         = ws ++ [js "Connections: Detected headers: " ++ join (js " | ") headers;
                  js "Connections: " ++ Number_toString (length dataRows)
                    ++ js " data rows found in " ++ fileName]
              ++ flat_map (fun row => dateWarning (js "Connections") (connectedOn row)
                                        (parseTimestamp (connectedOn row))) dataRows
              ++ [js "Connections: " ++ Number_toString (length contacts)
                    ++ js " contacts processed from " ++ fileName]
  end.
Proof.
  unfold processConnections.
  destruct (findFirstNameRow 0 10 rawData) as [[i headers]|]; [|reflexivity].
  cbv zeta. rewrite forEachRow_result. cbn [fst snd app Nat.add].
  destruct (loop_of_admitted (connectionOfRow headers) Contact.connectedAt
              (fun _ => true)
              (fun row => parseTimestamp
                            (getValueByAliases row headers ConnectionsAliases.connected))
              (fun row => dateWarning (js "Connections")
                            (getValueByAliases row headers ConnectionsAliases.connected)
                            (parseTimestamp
                               (getValueByAliases row headers
                                  ConnectionsAliases.connected)))
              (filter hasContent (skipn (i + 1) rawData))) as (H1 & H2 & H3).
  - intros row _. eexists. split; reflexivity.
  - discriminate.
  - rewrite filter_all in H1, H2, H3. rewrite H1, H2, H3.
    repeat split. now rewrite <- !app_assoc.
Qed.

(** Messages: a file with fewer than two rows gives no message and one
    warning.  Otherwise the first row is the header, and the messages are
    the rows with content whose content column is not empty, in order; a
    row without content is left out without a warning.  The warnings are
    the two diagnostics, one warning for each kept row whose date is not
    understood, and the count of messages. *)
Theorem messages_rows_and_warnings
    (rawData : list Row) (ws : list jsstring) (fileName : jsstring) :
  let headers := normalizeRow (nth 0 rawData []) in
  let dataRows := filter hasContent (skipn 1 rawData) in
  let content row := getValueByAliases row headers MessagesAliases.content in
  let date row := getValueByAliases row headers MessagesAliases.date in
  let kept := filter (fun row => truthy (content row)) dataRows in
  let result := processMessages rawData ws fileName in
  if length rawData <? 2
  then result = ([], ws ++ [js "Messages: Insufficient data in " ++ fileName])
  else
    map Message.body (fst result) = map content kept
    /\ map Message.ts (fst result) = map (fun row => parseTimestamp (date row)) kept
    /\ snd result
       = ws ++ [js "Messages: Detected headers: " ++ join (js " | ") headers;
                js "Messages: " ++ Number_toString (length dataRows)
                  ++ js " data rows found in " ++ fileName]
            ++ flat_map (fun row => dateWarning (js "Messages") (date row)
                                      (parseTimestamp (date row))) kept
            ++ [js "Messages: " ++ Number_toString (length (fst result))
                  ++ js " messages processed from " ++ fileName].
Proof.
  cbv zeta. unfold processMessages.
  destruct (length rawData <? 2); [reflexivity|].
  cbv zeta. rewrite forEachRow_result. cbn [fst snd app Nat.add].
  set (headers := normalizeRow (nth 0 rawData [])).
  set (dataRows := filter hasContent (skipn 1 rawData)).
  assert (Hyes : forall (B : Type) (proj : Message.t -> B) (val : Row -> B),
    (forall row r, messageOfRow headers row = (Some r, dateWarning (js "Messages")
         (getValueByAliases row headers MessagesAliases.date)
         (parseTimestamp (getValueByAliases row headers MessagesAliases.date))) ->
       proj r = val row) ->
    map proj (pushedBy (messageOfRow headers) dataRows)
    = map val (filter (fun row => truthy (getValueByAliases row headers
                                            MessagesAliases.content)) dataRows)
    /\ pushedWarnings (messageOfRow headers) dataRows
       = flat_map (fun row => dateWarning (js "Messages")
           (getValueByAliases row headers MessagesAliases.date)
           (parseTimestamp (getValueByAliases row headers MessagesAliases.date)))
           (filter (fun row => truthy (getValueByAliases row headers
                                         MessagesAliases.content)) dataRows)
    /\ length (pushedBy (messageOfRow headers) dataRows)
       = length (filter (fun row => truthy (getValueByAliases row headers
                                              MessagesAliases.content)) dataRows)).
  { intros B proj val Hp. apply loop_of_admitted.
    - intros row E. unfold messageOfRow. rewrite E. cbn [negb].
      eexists. split; [reflexivity|]. apply Hp. unfold messageOfRow. now rewrite E.
    - intros row E. unfold messageOfRow. now rewrite E. }
  destruct (Hyes _ Message.body
              (fun row => getValueByAliases row headers MessagesAliases.content))
    as (H1 & H2 & H3).
  { intros row r. unfold messageOfRow. destruct (negb _); [discriminate|].
    now intros [= <-]. }
  destruct (Hyes _ Message.ts
              (fun row => parseTimestamp
                            (getValueByAliases row headers MessagesAliases.date)))
    as (H4 & _ & _).
  { intros row r. unfold messageOfRow. destruct (negb _); [discriminate|].
    now intros [= <-]. }
  rewrite H1, H2, H4. repeat split. now rewrite <- !app_assoc.
Qed.

(** Invitations: the invites are the rows with content that name a sender
    or a recipient, in order; the other rows are left out without a
    warning.  The direction follows the direction column when it holds
    [outgoing] or [incoming] and the sender otherwise; the counterpart is
    the recipient of a sent invite and the sender of a received one; the
    status is always [unknown]. *)
Theorem invitations_rows_and_direction
    (rawData : list Row) (ws : list jsstring) (fileName : jsstring) :
  let headers := normalizeRow (nth 0 rawData []) in
  let dataRows := filter hasContent (skipn 1 rawData) in
  let from row := getValueByAliases row headers InvitationsAliases.from in
  let to row := getValueByAliases row headers InvitationsAliases.to in
  let direction row :=
    inviteDirectionOf (getValueByAliases row headers InvitationsAliases.direction)
      (from row) in
  let kept := filter (fun row => truthy (from row) || truthy (to row)) dataRows in
  let result := processInvitations rawData ws fileName in
  if length rawData <? 2
  then result = ([], ws ++ [js "Invitations: Insufficient data in " ++ fileName])
  else
    map (fun i => (Invite.direction i, Invite.counterpartName i, Invite.status i))
      (fst result)
    = map (fun row => (direction row,
                       match direction row with sent => to row | received => from row end,
                       unknown)) kept
    /\ length (snd result) <= length ws + 3 + length kept
    /\ last (snd result) []
       = js "Invitations: " ++ Number_toString (length kept)
           ++ js " invitations processed from " ++ fileName.
Proof.
  cbv zeta. unfold processInvitations.
  destruct (length rawData <? 2); [reflexivity|].
  cbv zeta. rewrite forEachRow_result. cbn [fst snd app Nat.add].
  set (headers := normalizeRow (nth 0 rawData [])).
  set (dataRows := filter hasContent (skipn 1 rawData)).
  set (adm := fun row => truthy (getValueByAliases row headers InvitationsAliases.from)
                         || truthy (getValueByAliases row headers InvitationsAliases.to)).
  destruct (loop_of_admitted (inviteOfRow headers)
              (fun i => (Invite.direction i, Invite.counterpartName i, Invite.status i))
              adm
              (fun row =>
                 (inviteDirectionOf
                    (getValueByAliases row headers InvitationsAliases.direction)
                    (getValueByAliases row headers InvitationsAliases.from),
                  match inviteDirectionOf
                          (getValueByAliases row headers InvitationsAliases.direction)
                          (getValueByAliases row headers InvitationsAliases.from) with
                  | sent => getValueByAliases row headers InvitationsAliases.to
                  | received => getValueByAliases row headers InvitationsAliases.from
                  end, unknown))
              (fun row => dateWarning (js "Invitations")
                 (getValueByAliases row headers InvitationsAliases.sentAt)
                 (parseTimestamp (getValueByAliases row headers InvitationsAliases.sentAt)))
              dataRows) as (H1 & H2 & H3).
  - intros row E. unfold adm in E. unfold inviteOfRow.
    replace (negb (truthy (getValueByAliases row headers InvitationsAliases.from))
             && negb (truthy (getValueByAliases row headers InvitationsAliases.to)))
      with false by (rewrite <- negb_orb, E; reflexivity).
    eexists. split; reflexivity.
  - intros row E. unfold adm in E. unfold inviteOfRow.
    now rewrite <- negb_orb, E.
  - rewrite H1, H2, H3. split; [reflexivity|]. split.
    + rewrite !length_app. cbn [length].
      pose proof (flat_map_at_most_one
                    (fun row : Row => dateWarning (js "Invitations")
                       (getValueByAliases row headers InvitationsAliases.sentAt)
                       (parseTimestamp (getValueByAliases row headers
                                          InvitationsAliases.sentAt)))
                    (filter adm dataRows)
                    (fun row => dateWarning_length _ _ _)) as L.
      unfold Row, jsstring in *. lia.
    + now rewrite last_last.
Qed.

(** Company follows: the records are the rows with content whose
    organization is not empty, in order, with the organization as the
    company; the count in the last warning is their number. *)
Theorem company_follows_rows
    (rawData : list Row) (ws : list jsstring) (fileName : jsstring) :
  let headers := normalizeRow (nth 0 rawData []) in
  let dataRows := filter hasContent (skipn 1 rawData) in
  let organization row := getValueByAliases row headers CompanyFollowsAliases.org in
  let kept := filter (fun row => truthy (organization row)) dataRows in
  let result := processCompanyFollows rawData ws fileName in
  if length rawData <? 2
  then result = ([], ws ++ [js "Company Follows: Insufficient data in " ++ fileName])
  else
    map CompanyFollow.company (fst result) = map organization kept
    /\ Forall (fun f => CompanyFollow.company f <> []) (fst result)
    /\ last (snd result) []
       = js "Company Follows: " ++ Number_toString (length kept)
           ++ js " follows processed from " ++ fileName.
Proof.
  cbv zeta. unfold processCompanyFollows.
  destruct (length rawData <? 2); [reflexivity|].
  cbv zeta. rewrite forEachRow_result. cbn [fst snd app Nat.add].
  set (headers := normalizeRow (nth 0 rawData [])).
  set (dataRows := filter hasContent (skipn 1 rawData)).
  destruct (loop_of_admitted (followOfRow headers) CompanyFollow.company
              (fun row => truthy (getValueByAliases row headers CompanyFollowsAliases.org))
              (fun row => getValueByAliases row headers CompanyFollowsAliases.org)
              (fun row => dateWarning (js "Company Follows")
                 (getValueByAliases row headers CompanyFollowsAliases.followed)
                 (parseTimestamp
                    (getValueByAliases row headers CompanyFollowsAliases.followed)))
              dataRows) as (H1 & H2 & H3).
  - intros row E. unfold followOfRow. rewrite E. eexists. split; reflexivity.
  - intros row E. unfold followOfRow. now rewrite E.
  - rewrite H3. split; [exact H1|]. split; [|now rewrite last_last].
    apply Forall_forall. intros f Hf.
    apply (in_map CompanyFollow.company) in Hf. rewrite H1 in Hf.
    apply in_map_iff in Hf. destruct Hf as (row & <- & Hrow).
    apply filter_In in Hrow. destruct Hrow as [_ Ht]. now apply truthy_true.
Qed.

End NormalizerFacts.
(* ------------------------------------------------------------------ *)
(** * What every record of a payload carries *)

Section Identity.
Context {host : Host}.

Lemma parseTimestamp_isTimestamp (dateStr : jsstring) :
  isTimestamp (parseTimestamp dateStr).
Proof.
  unfold isTimestamp, parseTimestamp. destruct (negb (truthy dateStr)); [now left|].
  destruct (Date_parse _) as [t|]; [right; now exists t | now left].
Qed.

Lemma orUndefined_present (value : jsstring) : present (orUndefined value).
Proof.
  unfold present, orUndefined. destruct value; [discriminate|].
  cbn [truthy]. discriminate.
Qed.

Lemma orElse_Unknown (value : jsstring) : orElse value (js "Unknown") <> [].
Proof. destruct value; discriminate. Qed.

Lemma connectionOfRow_identity (headers row : Row) (c : Contact.t) (w : list jsstring) :
  connectionOfRow headers row = (Some c, w) -> contactIdentity c.
Proof.
  unfold connectionOfRow. cbv zeta. intros [= <- _].
  unfold contactIdentity. cbn [Contact.id Contact.name Contact.title Contact.company
    Contact.location Contact.connectedAt Contact.url].
  repeat split; try apply orUndefined_present;
    [ | apply orElse_Unknown | apply parseTimestamp_isTimestamp].
  f_equal. unfold orUndefined at 1.
  destruct (getValueByAliases row headers ConnectionsAliases.url) as [|u url];
    [|reflexivity].
  cbn [truthy orElse]. unfold orElse at 1. cbn [truthy].
  unfold orUndefined.
  destruct (getValueByAliases row headers ConnectionsAliases.company); reflexivity.
Qed.

Lemma messageOfRow_identity (headers row : Row) (m : Message.t) (w : list jsstring) :
  messageOfRow headers row = (Some m, w) -> messageIdentity m.
Proof.
  unfold messageOfRow. cbv zeta.
  destruct (truthy (getValueByAliases row headers MessagesAliases.content)) eqn:E;
    cbn [negb]; [|discriminate].
  intros [= <- _]. unfold messageIdentity.
  cbn [Message.id Message.threadId Message.body Message.ts].
  repeat split; [now apply truthy_true | apply parseTimestamp_isTimestamp].
Qed.

Lemma inviteOfRow_identity (headers row : Row) (i : Invite.t) (w : list jsstring) :
  inviteOfRow headers row = (Some i, w) -> inviteIdentity i.
Proof.
  unfold inviteOfRow. cbv zeta. destruct (_ && _); [discriminate|].
  intros [= <- _]. unfold inviteIdentity.
  cbn [Invite.id Invite.direction Invite.counterpartName Invite.status
       Invite.message Invite.ts].
  repeat split; [apply orUndefined_present | apply parseTimestamp_isTimestamp].
Qed.

Lemma followOfRow_identity (headers row : Row) (f : CompanyFollow.t)
    (w : list jsstring) :
  followOfRow headers row = (Some f, w) -> followIdentity f.
Proof.
  unfold followOfRow. cbv zeta.
  destruct (truthy (getValueByAliases row headers CompanyFollowsAliases.org)) eqn:E;
    cbn [negb]; [|discriminate].
  intros [= <- _]. unfold followIdentity.
  cbn [CompanyFollow.id CompanyFollow.company CompanyFollow.ts].
  repeat split; [now apply truthy_true | apply parseTimestamp_isTimestamp].
Qed.

Lemma jobOfRow_identity (fileType : jsstring) (headers row : Row) (j : SavedJob.t)
    (w : list jsstring) :
  jobOfRow fileType headers row = (Some j, w) -> jobIdentity j.
Proof.
  unfold jobOfRow. cbv zeta. destruct (_ && _); [discriminate|].
  intros [= <- _]. unfold jobIdentity.
  cbn [SavedJob.id SavedJob.company SavedJob.title SavedJob.ts].
  repeat split; [apply stableHash_length | apply orElse_Unknown | apply orElse_Unknown
                | apply parseTimestamp_isTimestamp].
Qed.

Lemma onMessage_identity (files : list File) :
  payloadAll contactIdentity messageIdentity inviteIdentity followIdentity
    jobIdentity (onMessage files).
Proof.
  apply onMessage_all.
  - intros. eapply connectionOfRow_identity; eassumption.
  - intros. eapply messageOfRow_identity; eassumption.
  - intros. eapply inviteOfRow_identity; eassumption.
  - intros. eapply followOfRow_identity; eassumption.
  - intros. eapply jobOfRow_identity; eassumption.
Qed.

End Identity.

(** In every payload that the handler posts, the identifier of a record can
    be computed again from the fields that the record carries (for a job it
    cannot, as the record carries [Unknown] where the hash took the empty
    string); no name, body, company or title is empty; no optional field
    holds the empty string; the status of an invite is [unknown]; and every
    timestamp is empty or the ISO text of an instant. *)
Theorem payload_records_carry_their_identity (host : Host) (files : list File) :
  payloadAll contactIdentity messageIdentity inviteIdentity followIdentity
    jobIdentity (onMessage files).
Proof. apply onMessage_identity. Qed.

(** Two messages of a payload in the same thread, with the same timestamp,
    whose bodies agree on their first 40 code units have the same
    identifier, whatever follows in the bodies. *)
Theorem messages_collide_after_40_units
    (host : Host) (files : list File) (m m' : Message.t) :
  In m (messages (onMessage files)) ->
  In m' (messages (onMessage files)) ->
  Message.threadId m' = Message.threadId m ->
  Message.ts m' = Message.ts m ->
  firstn 40 (Message.body m') = firstn 40 (Message.body m) ->
  Message.id m' = Message.id m.
Proof.
  intros Hm Hm' Ht Hs Hb.
  destruct (onMessage_identity files) as (_ & H & _).
  rewrite Forall_forall in H.
  destruct (H m Hm) as (-> & _). destruct (H m' Hm') as (-> & _).
  unfold substring0. now rewrite Ht, Hs, Hb.
Qed.
(* ------------------------------------------------------------------ *)
(** * The two loops of the handler *)

Lemma addWarnings_nil (p : ParsedPayload) : addWarnings [] p = p.
Proof.
  destruct p as [c m i f j [fp r w]]. unfold addWarnings. cbn. now rewrite app_nil_r.
Qed.

Lemma addWarnings_app (ws ws' : list jsstring) (p : ParsedPayload) :
  addWarnings ws' (addWarnings ws p) = addWarnings (ws ++ ws') p.
Proof. unfold addWarnings. cbn. now rewrite app_assoc. Qed.

Lemma pushWarning_addWarnings (w : jsstring) (p : ParsedPayload) :
  pushWarning w p = addWarnings [w] p.
Proof. reflexivity. Qed.

Lemma find_app {A : Type} (f : A -> bool) (l l' : list A) :
  find f (l ++ l') = match find f l with Some x => Some x | None => find f l' end.
Proof.
  induction l as [|a l IH]; [reflexivity|]. cbn [app find].
  destruct (f a); [reflexivity | exact IH].
Qed.

Lemma lookup_assign (key key' : jsstring) (value : nat) (map : list (jsstring * nat)) :
  lookup key' (assign key value map)
  = if streq key key' then Some value else lookup key' map.
Proof.
  induction map as [|[k v] rest IH]; cbn [assign lookup]; [reflexivity|].
  destruct (streq k key) eqn:E.
  - apply streq_true in E. subst k. cbn [lookup].
    destruct (streq key key'); reflexivity.
  - cbn [lookup]. rewrite IH. destruct (streq k key') eqn:E'; [|reflexivity].
    destruct (streq key key') eqn:E2; [|reflexivity].
    apply streq_true in E', E2. subst. 
    assert (streq key' key' = true) by now apply streq_true. congruence.
Qed.

Lemma assign_keys (key : jsstring) (value : nat) (map : list (jsstring * nat)) :
  NoDup (List.map fst map) ->
  NoDup (List.map fst (assign key value map))
  /\ (forall k, In k (List.map fst (assign key value map)) ->
                k = key \/ In k (List.map fst map)).
Proof.
  induction map as [|[k v] rest IH]; cbn [assign List.map fst].
  - intros _. split; [repeat constructor; intros []|]. intros k [<-|[]]. now left.
  - intros H. inversion H as [|? ? Hk Hrest]; subst.
    destruct (streq k key) eqn:E; cbn [List.map fst].
    + split; [exact H|]. intros k' Hk'. now right.
    + destruct (IH Hrest) as [IH1 IH2]. split.
      * constructor; [|exact IH1]. intros Hin. destruct (IH2 _ Hin) as [->|Hin'].
        -- assert (streq key key = true) by now apply streq_true. congruence.
        -- now apply Hk.
      * intros k' [<-|Hin]; [right; now left|].
        destruct (IH2 _ Hin) as [->|Hin']; [now left | right; now right].
Qed.

Lemma label_injective (a b : FileType) : streq (label a) (label b) = sameFileType a b.
Proof. destruct a, b; vm_compute; reflexivity. Qed.

Section HandlerFacts.
Context {host : Host}.

(** ** The warnings of a normaliser are pushed after those it finds *)

Ltac warnings_appended :=
  cbv zeta; rewrite !forEachRow_result; cbn [fst snd app];
  rewrite <- !app_assoc; reflexivity.

Lemma processConnections_warnings (rawData : list Row) (ws : list jsstring)
    (fileName : jsstring) :
  snd (processConnections rawData ws fileName)
  = ws ++ snd (processConnections rawData [] fileName).
Proof.
  unfold processConnections.
  destruct (findFirstNameRow 0 10 rawData) as [[i headers]|]; [|reflexivity].
  warnings_appended.
Qed.

Lemma processMessages_warnings (rawData : list Row) (ws : list jsstring)
    (fileName : jsstring) :
  snd (processMessages rawData ws fileName)
  = ws ++ snd (processMessages rawData [] fileName).
Proof.
  unfold processMessages. destruct (length rawData <? 2); [reflexivity|].
  warnings_appended.
Qed.

Lemma processInvitations_warnings (rawData : list Row) (ws : list jsstring)
    (fileName : jsstring) :
  snd (processInvitations rawData ws fileName)
  = ws ++ snd (processInvitations rawData [] fileName).
Proof.
  unfold processInvitations. destruct (length rawData <? 2); [reflexivity|].
  warnings_appended.
Qed.

Lemma processCompanyFollows_warnings (rawData : list Row) (ws : list jsstring)
    (fileName : jsstring) :
  snd (processCompanyFollows rawData ws fileName)
  = ws ++ snd (processCompanyFollows rawData [] fileName).
Proof.
  unfold processCompanyFollows. destruct (length rawData <? 2); [reflexivity|].
  warnings_appended.
Qed.

Lemma processSavedJobs_warnings (rawData : list Row) (ws : list jsstring)
    (fileName : jsstring) (isApplications : bool) :
  snd (processSavedJobs rawData ws fileName isApplications)
  = ws ++ snd (processSavedJobs rawData [] fileName isApplications).
Proof.
  unfold processSavedJobs. destruct (length rawData <? 2); [reflexivity|].
  warnings_appended.
Qed.

(** ** One iteration of each loop *)

Lemma collectFile_split (filesToProcess : list FileData) (p : ParsedPayload)
    (file : File) :
  collectFile (filesToProcess, p) file
  = (filesToProcess ++ queued file, addWarnings (notices file) p).
Proof.
  unfold queued, notices, collectFile.
  repeat match goal with
         | |- context [if ?b then _ else _] => destruct b
         | |- context [match ?r with Ok _ => _ | Throws _ => _ end] => destruct r
         end; cbn [fst snd summary warnings emptyPayload pushWarning app];
    rewrite ?app_nil_r, ?addWarnings_nil; reflexivity.
Qed.

Lemma collect_split (files : list File) :
  forall (filesToProcess : list FileData) (p : ParsedPayload),
    fold_left collectFile files (filesToProcess, p)
    = (filesToProcess ++ flat_map queued files,
       addWarnings (flat_map notices files) p).
Proof.
  induction files as [|file rest IH]; intros fs p; cbn [fold_left flat_map].
  - now rewrite app_nil_r, addWarnings_nil.
  - now rewrite collectFile_split, IH, addWarnings_app, app_assoc.
Qed.

Lemma queue_flat_map (files : list File) : queue files = flat_map queued files.
Proof. unfold queue. now rewrite collect_split. Qed.

Lemma onMessage_two_loops (files : list File) :
  onMessage files
  = fold_left processFile (queue files)
      (addWarnings (flat_map notices files) emptyPayload).
Proof. unfold onMessage, queue. now rewrite collect_split. Qed.

(** ** The [switch] *)

Lemma dispatch_eq (fileType : FileType) (data : list Row) (fd : FileData)
    (p : ParsedPayload) :
  let fileName := fileDataName fd in
  let ws := warnings (summary p) in
  let withWarnings w :=
    {| filesProcessed := filesProcessed (summary p); rows := rows (summary p);
       warnings := w |} in
  dispatch fileType data fd p
  = match fileType with
    | Connections =>
        {| contacts := fst (processConnections data ws fileName);
           messages := messages p; invites := invites p;
           companyFollows := companyFollows p; savedJobs := savedJobs p;
           summary := withWarnings (snd (processConnections data ws fileName)) |}
    | MessagesFile =>
        {| contacts := contacts p;
           messages := fst (processMessages data ws fileName);
           invites := invites p;
           companyFollows := companyFollows p; savedJobs := savedJobs p;
           summary := withWarnings (snd (processMessages data ws fileName)) |}
    | Invitations =>
        {| contacts := contacts p; messages := messages p;
           invites := fst (processInvitations data ws fileName);
           companyFollows := companyFollows p; savedJobs := savedJobs p;
           summary := withWarnings (snd (processInvitations data ws fileName)) |}
    | CompanyFollows =>
        {| contacts := contacts p; messages := messages p; invites := invites p;
           companyFollows := fst (processCompanyFollows data ws fileName);
           savedJobs := savedJobs p;
           summary := withWarnings (snd (processCompanyFollows data ws fileName)) |}
    | SavedJobs =>
        {| contacts := contacts p; messages := messages p; invites := invites p;
           companyFollows := companyFollows p;
           savedJobs := savedJobs p ++ fst (processSavedJobs data ws fileName false);
           summary := withWarnings (snd (processSavedJobs data ws fileName false)) |}
    | JobApplications =>
        {| contacts := contacts p; messages := messages p; invites := invites p;
           companyFollows := companyFollows p;
           savedJobs := savedJobs p ++ fst (processSavedJobs data ws fileName true);
           summary := withWarnings (snd (processSavedJobs data ws fileName true)) |}
    end.
Proof.
  cbv zeta. unfold dispatch. destruct fileType; cbv zeta;
    match goal with |- context [let '(_, _) := ?X in _] => destruct X end;
    reflexivity.
Qed.

Lemma dispatch_summary (fileType : FileType) (data : list Row) (fd : FileData)
    (p : ParsedPayload) :
  filesProcessed (summary (dispatch fileType data fd p)) = filesProcessed (summary p)
  /\ rows (summary (dispatch fileType data fd p)) = rows (summary p)
  /\ warnings (summary (dispatch fileType data fd p))
     = warnings (summary p)
         ++ warnings (summary (dispatch fileType data fd emptyPayload)).
Proof.
  rewrite !dispatch_eq. cbv zeta.
  destruct fileType; cbn [summary filesProcessed rows warnings emptyPayload];
    repeat split;
    [ apply processConnections_warnings | apply processMessages_warnings
    | apply processInvitations_warnings | apply processCompanyFollows_warnings
    | apply processSavedJobs_warnings | apply processSavedJobs_warnings ].
Qed.

Lemma dispatch_savedJobs (fileType : FileType) (data : list Row) (fd : FileData)
    (p : ParsedPayload) :
  savedJobs (dispatch fileType data fd p)
  = savedJobs p ++ savedJobs (dispatch fileType data fd emptyPayload).
Proof.
  rewrite !dispatch_eq. cbv zeta.
  destruct fileType; cbn [savedJobs summary warnings emptyPayload app];
    rewrite ?app_nil_r; try reflexivity;
    f_equal; apply processSavedJobs_records_only.
Qed.

Lemma dispatch_collections (fileType : FileType) (data : list Row) (fd : FileData)
    (p : ParsedPayload) :
  contacts (dispatch fileType data fd p)
  = (if sameFileType Connections fileType
     then contacts (dispatch fileType data fd emptyPayload) else contacts p)
  /\ messages (dispatch fileType data fd p)
     = (if sameFileType MessagesFile fileType
        then messages (dispatch fileType data fd emptyPayload) else messages p)
  /\ invites (dispatch fileType data fd p)
     = (if sameFileType Invitations fileType
        then invites (dispatch fileType data fd emptyPayload) else invites p)
  /\ companyFollows (dispatch fileType data fd p)
     = (if sameFileType CompanyFollows fileType
        then companyFollows (dispatch fileType data fd emptyPayload)
        else companyFollows p).
Proof.
  rewrite !dispatch_eq. cbv zeta.
  destruct fileType;
    cbn [contacts messages invites companyFollows sameFileType summary warnings
         emptyPayload];
    repeat split;
    [ apply processConnections_records_only | apply processMessages_records_only
    | apply processInvitations_records_only
    | apply processCompanyFollows_records_only ].
Qed.

(** ** One iteration of the second loop *)

Lemma processFile_processedAs (p : ParsedPayload) (fd : FileData) :
  processFile p fd
  = match processedAs fd with
    | Some (fileType, data) =>
        dispatch fileType data fd (recordFile fileType data fd p)
    | None => addWarnings (diagnostics fd) p
    end.
Proof.
  unfold diagnostics, contribution, processFile, processedAs. cbv zeta.
  destruct (isAuxiliaryMessages _); [reflexivity|].
  destruct (fileTypeOf _) as [ft|]; [|reflexivity].
  destruct (endsWith _ (js ".csv")); [reflexivity|].
  destruct (endsWith _ (js ".xlsx")); [|reflexivity].
  destruct (parseXLSX _); reflexivity.
Qed.

Lemma processFile_appends (p : ParsedPayload) (fd : FileData) :
  warnings (summary (processFile p fd)) = warnings (summary p) ++ diagnostics fd
  /\ filesProcessed (summary (processFile p fd))
     = filesProcessed (summary p) ++ reported fd
  /\ savedJobs (processFile p fd) = savedJobs p ++ jobsOf fd.
Proof.
  unfold jobsOf, reported.
  assert (D : diagnostics fd = warnings (summary (contribution fd))) by reflexivity.
  unfold contribution in *. rewrite processFile_processedAs in D.
  rewrite !processFile_processedAs.
  destruct (processedAs fd) as [[ft data]|].
  - destruct (dispatch_summary ft data fd (recordFile ft data fd p)) as (F & _ & W).
    destruct (dispatch_summary ft data fd (recordFile ft data fd emptyPayload))
      as (F0 & _ & W0).
    rewrite W, F, F0, D, W0, (dispatch_savedJobs ft data fd (recordFile ft data fd p)),
      (dispatch_savedJobs ft data fd (recordFile ft data fd emptyPayload)).
    repeat split.
  - cbn [addWarnings summary warnings filesProcessed savedJobs emptyPayload].
    rewrite !app_nil_r. repeat split.
Qed.

Lemma processFile_assigns (p : ParsedPayload) (fd : FileData) :
  contacts (processFile p fd)
  = (if isKind Connections fd then contacts (contribution fd) else contacts p)
  /\ messages (processFile p fd)
     = (if isKind MessagesFile fd then messages (contribution fd) else messages p)
  /\ invites (processFile p fd)
     = (if isKind Invitations fd then invites (contribution fd) else invites p)
  /\ companyFollows (processFile p fd)
     = (if isKind CompanyFollows fd then companyFollows (contribution fd)
        else companyFollows p).
Proof.
  unfold isKind, contribution. rewrite !processFile_processedAs.
  destruct (processedAs fd) as [[ft data]|]; [|repeat split].
  destruct (dispatch_collections ft data fd (recordFile ft data fd p))
    as (C & M & I & F).
  destruct (dispatch_collections ft data fd (recordFile ft data fd emptyPayload))
    as (C0 & M0 & I0 & F0).
  rewrite C, M, I, F, C0, M0, I0, F0.
  destruct ft; repeat split.
Qed.

Lemma processFile_rows (fileType : FileType) (p : ParsedPayload) (fd : FileData) :
  lookup (label fileType) (rows (summary (processFile p fd)))
  = if isKind fileType fd then rowCount fd
    else lookup (label fileType) (rows (summary p)).
Proof.
  unfold isKind, rowCount. rewrite processFile_processedAs.
  destruct (processedAs fd) as [[ft data]|]; [|reflexivity].
  destruct (dispatch_summary ft data fd (recordFile ft data fd p)) as (_ & R & _).
  rewrite R. cbn [recordFile summary rows]. rewrite lookup_assign, label_injective.
  destruct ft, fileType; reflexivity.
Qed.

Lemma processFile_keys (p : ParsedPayload) (fd : FileData) :
  NoDup (map fst (rows (summary p))) ->
  Forall (fun key => exists fileType, key = label fileType)
    (map fst (rows (summary p))) ->
  NoDup (map fst (rows (summary (processFile p fd))))
  /\ Forall (fun key => exists fileType, key = label fileType)
       (map fst (rows (summary (processFile p fd)))).
Proof.
  intros Hn Hl. rewrite processFile_processedAs.
  destruct (processedAs fd) as [[ft data]|]; [|now split].
  destruct (dispatch_summary ft data fd (recordFile ft data fd p)) as (_ & R & _).
  rewrite R. cbn [recordFile summary rows].
  destruct (assign_keys (label ft) (length data) _ Hn) as [H1 H2].
  split; [exact H1|]. apply Forall_forall. intros key Hkey.
  destruct (H2 key Hkey) as [->|Hin]; [now exists ft|].
  rewrite Forall_forall in Hl. now apply Hl.
Qed.

(** ** The second loop *)

Lemma fold_appends {A : Type} (get : ParsedPayload -> list A)
    (part : FileData -> list A) :
  (forall p fd, get (processFile p fd) = get p ++ part fd) ->
  forall fds p, get (fold_left processFile fds p) = get p ++ flat_map part fds.
Proof.
  intros H. induction fds as [|fd rest IH]; intros p; cbn [fold_left flat_map].
  - now rewrite app_nil_r.
  - now rewrite IH, H, app_assoc.
Qed.

Lemma fold_last_wins {A : Type} (get : ParsedPayload -> A)
    (part : FileData -> A) (fileType : FileType) :
  (forall p fd, get (processFile p fd)
                = if isKind fileType fd then part fd else get p) ->
  forall fds p,
    get (fold_left processFile fds p)
    = match lastOfKind fileType fds with
      | Some fd => part fd
      | None => get p
      end.
Proof.
  intros H. unfold lastOfKind.
  induction fds as [|fd rest IH] using rev_ind; intros p; [reflexivity|].
  rewrite fold_left_app, rev_app_distr. cbn [fold_left rev app find].
  rewrite H. destruct (isKind fileType fd); [reflexivity | apply IH].
Qed.

End HandlerFacts.
(* ------------------------------------------------------------------ *)
(** * The payload as a function of the queue *)

Section PayloadFacts.
Context {host : Host}.

Lemma contribution_records (fd : FileData) :
  contacts (contribution fd)
  = (if isKind Connections fd
     then fst (processConnections (dataOf fd) [] (fileDataName fd)) else [])
  /\ messages (contribution fd)
     = (if isKind MessagesFile fd
        then fst (processMessages (dataOf fd) [] (fileDataName fd)) else [])
  /\ invites (contribution fd)
     = (if isKind Invitations fd
        then fst (processInvitations (dataOf fd) [] (fileDataName fd)) else [])
  /\ companyFollows (contribution fd)
     = (if isKind CompanyFollows fd
        then fst (processCompanyFollows (dataOf fd) [] (fileDataName fd)) else [])
  /\ jobsOf fd
     = (if isKind SavedJobs fd
        then fst (processSavedJobs (dataOf fd) [] (fileDataName fd) false)
        else if isKind JobApplications fd
        then fst (processSavedJobs (dataOf fd) [] (fileDataName fd) true)
        else []).
Proof.
  unfold jobsOf, isKind, dataOf, contribution. rewrite processFile_processedAs.
  destruct (processedAs fd) as [[ft data]|]; [|repeat split].
  rewrite dispatch_eq. cbv zeta. destruct ft; repeat split.
Qed.

Lemma processFile_rows_eq (p : ParsedPayload) (fd : FileData) :
  rows (summary (processFile p fd))
  = match processedAs fd with
    | Some (fileType, data) => assign (label fileType) (length data) (rows (summary p))
    | None => rows (summary p)
    end.
Proof.
  rewrite processFile_processedAs.
  destruct (processedAs fd) as [[ft data]|]; [|reflexivity].
  now destruct (dispatch_summary ft data fd (recordFile ft data fd p)) as (_ & -> & _).
Qed.

Lemma processFile_results (p p' : ParsedPayload) (fd : FileData) :
  results p = results p' -> results (processFile p fd) = results (processFile p' fd).
Proof.
  unfold results. intros [= C M I F J P R].
  destruct (processFile_assigns p fd) as (-> & -> & -> & ->).
  destruct (processFile_assigns p' fd) as (-> & -> & -> & ->).
  destruct (processFile_appends p fd) as (_ & -> & ->).
  destruct (processFile_appends p' fd) as (_ & -> & ->).
  rewrite !processFile_rows_eq. now rewrite C, M, I, F, J, P, R.
Qed.

Lemma process_results (fds : list FileData) :
  forall p p', results p = results p' ->
    results (fold_left processFile fds p) = results (fold_left processFile fds p').
Proof.
  induction fds as [|fd rest IH]; intros p p' H; cbn [fold_left]; [exact H|].
  apply IH, processFile_results, H.
Qed.

Lemma process_keys (fds : list FileData) :
  forall p,
    NoDup (map fst (rows (summary p))) ->
    Forall (fun key => exists fileType, key = label fileType)
      (map fst (rows (summary p))) ->
    NoDup (map fst (rows (summary (fold_left processFile fds p))))
    /\ Forall (fun key => exists fileType, key = label fileType)
         (map fst (rows (summary (fold_left processFile fds p)))).
Proof.
  induction fds as [|fd rest IH]; intros p Hn Hl; cbn [fold_left]; [now split|].
  destruct (processFile_keys p fd Hn Hl) as [Hn' Hl']. now apply IH.
Qed.

End PayloadFacts.

(** The warnings, the list of processed files and the saved jobs of a
    payload are concatenations, file by file: first the warnings of the
    first loop for every file handed over, in order, then the warnings of
    the second loop for every queued file, in order.  What one file adds
    does not depend on the other files, and nothing is ever removed.  The
    saved jobs are those of all the files of saved jobs and of job
    applications, in the order of the queue. *)
Theorem payload_is_a_concatenation (host : Host) (files : list File) :
  queue files = flat_map queued files
  /\ warnings (summary (onMessage files))
     = flat_map notices files ++ flat_map diagnostics (queue files)
  /\ filesProcessed (summary (onMessage files)) = flat_map reported (queue files)
  /\ savedJobs (onMessage files) = flat_map jobsOf (queue files)
  /\ (forall fd : FileData,
        jobsOf fd
        = if isKind SavedJobs fd
          then fst (processSavedJobs (dataOf fd) [] (fileDataName fd) false)
          else if isKind JobApplications fd
          then fst (processSavedJobs (dataOf fd) [] (fileDataName fd) true)
          else [])
  /\ (forall fd : FileData,
        reported fd
        = match processedAs fd with
          | Some (fileType, _) =>
              [label fileType ++ js " (" ++ originalName fd ++ js ")"]
          | None => []
          end).
Proof.
  split; [apply queue_flat_map|]. rewrite onMessage_two_loops.
  split; [|split; [|split; [|split]]].
  - rewrite (fold_appends (fun p => warnings (summary p)) diagnostics).
    + cbn [addWarnings summary warnings emptyPayload app]. reflexivity.
    + intros p fd. apply processFile_appends.
  - rewrite (fold_appends (fun p => filesProcessed (summary p)) reported).
    + reflexivity.
    + intros p fd. apply processFile_appends.
  - rewrite (fold_appends savedJobs jobsOf).
    + reflexivity.
    + intros p fd. apply processFile_appends.
  - intros fd. apply contribution_records.
  - intros fd. unfold reported, contribution. rewrite processFile_processedAs.
    destruct (processedAs fd) as [[ft data]|]; [|reflexivity].
    now destruct (dispatch_summary ft data fd (recordFile ft data fd emptyPayload))
      as (-> & _ & _).
Qed.

(** The contacts, messages, invites and company follows of a payload are
    those of the last queued file of their kind alone, and are empty when
    there is none: a later file of a kind replaces what an earlier one
    gave.  The row count under a label is the number of rows of the last
    queued file with that label, for the six labels, the two kinds of jobs
    included.  The keys of the row counts are labels, each at most once. *)
Theorem last_file_of_a_kind_wins (host : Host) (files : list File) :
  contacts (onMessage files)
  = match lastOfKind Connections (queue files) with
    | Some fd => fst (processConnections (dataOf fd) [] (fileDataName fd))
    | None => []
    end
  /\ messages (onMessage files)
     = match lastOfKind MessagesFile (queue files) with
       | Some fd => fst (processMessages (dataOf fd) [] (fileDataName fd))
       | None => []
       end
  /\ invites (onMessage files)
     = match lastOfKind Invitations (queue files) with
       | Some fd => fst (processInvitations (dataOf fd) [] (fileDataName fd))
       | None => []
       end
  /\ companyFollows (onMessage files)
     = match lastOfKind CompanyFollows (queue files) with
       | Some fd => fst (processCompanyFollows (dataOf fd) [] (fileDataName fd))
       | None => []
       end
  /\ (forall fileType : FileType,
        lookup (label fileType) (rows (summary (onMessage files)))
        = match lastOfKind fileType (queue files) with
          | Some fd => Some (length (dataOf fd))
          | None => None
          end)
  /\ NoDup (map fst (rows (summary (onMessage files))))
  /\ Forall (fun key => exists fileType, key = label fileType)
       (map fst (rows (summary (onMessage files)))).
Proof.
  rewrite onMessage_two_loops.
  assert (K : forall ft fds fd, lastOfKind ft fds = Some fd -> isKind ft fd = true).
  { intros ft fds fd H. unfold lastOfKind in H. now apply find_some in H. }
  split; [|split; [|split; [|split; [|split]]]].
  - rewrite (fold_last_wins contacts (fun fd => contacts (contribution fd)) Connections).
    + destruct (lastOfKind Connections _) as [fd|] eqn:E; [|reflexivity].
      destruct (contribution_records fd) as (-> & _). now rewrite (K _ _ _ E).
    + intros p fd. apply processFile_assigns.
  - rewrite (fold_last_wins messages (fun fd => messages (contribution fd)) MessagesFile).
    + destruct (lastOfKind MessagesFile _) as [fd|] eqn:E; [|reflexivity].
      destruct (contribution_records fd) as (_ & -> & _). now rewrite (K _ _ _ E).
    + intros p fd. apply processFile_assigns.
  - rewrite (fold_last_wins invites (fun fd => invites (contribution fd)) Invitations).
    + destruct (lastOfKind Invitations _) as [fd|] eqn:E; [|reflexivity].
      destruct (contribution_records fd) as (_ & _ & -> & _). now rewrite (K _ _ _ E).
    + intros p fd. apply processFile_assigns.
  - rewrite (fold_last_wins companyFollows
               (fun fd => companyFollows (contribution fd)) CompanyFollows).
    + destruct (lastOfKind CompanyFollows _) as [fd|] eqn:E; [|reflexivity].
      destruct (contribution_records fd) as (_ & _ & _ & -> & _).
      now rewrite (K _ _ _ E).
    + intros p fd. apply processFile_assigns.
  - intros ft.
    rewrite (fold_last_wins (fun p => lookup (label ft) (rows (summary p)))
               rowCount ft).
    + destruct (lastOfKind ft _) as [fd|] eqn:E; [|reflexivity].
      apply K in E. unfold isKind in E. unfold rowCount, dataOf.
      destruct (processedAs fd) as [[ft' data]|]; [reflexivity | discriminate].
    + intros p fd. apply processFile_rows.
  - apply process_keys; cbn; constructor.
Qed.

(* ------------------------------------------------------------------ *)
(** * What reaches the queue *)

Section QueueFacts.
Context {host : Host}.

Lemma extractEntry_split (extractedFiles : list Extracted) (entry : ZipEntry) :
  extractEntry extractedFiles entry = extractedFiles ++ extractEntry [] entry.
Proof.
  unfold extractEntry. cbv zeta.
  repeat match goal with
         | |- context [if ?b then _ else _] => destruct b
         | |- context [match ?r with Ok _ => _ | Throws _ => _ end] => destruct r
         end; now rewrite ?app_nil_r.
Qed.

Lemma extractZipFiles_flat_map (entries : list ZipEntry) :
  extractZipFiles entries = flat_map (extractEntry []) entries.
Proof.
  unfold extractZipFiles.
  assert (H : forall acc, fold_left extractEntry entries acc
                          = acc ++ flat_map (extractEntry []) entries).
  { induction entries as [|entry rest IH]; intros acc; cbn [fold_left flat_map].
    - now rewrite app_nil_r.
    - now rewrite IH, extractEntry_split, app_assoc. }
  apply H.
Qed.

(** What the loop of [extractZipFiles] requires of an entry that it keeps. *)
Lemma extractEntry_kept (entry : ZipEntry) (e : Extracted) :
  In e (extractEntry [] entry) ->
  extractedName e = entryName entry
  /\ dir entry = false
  /\ isAuxiliaryMessages (entryName entry) = false
  /\ isRelevantFile (toLowerCase (entryName entry)) = true
  /\ (endsWith (entryName entry) (js ".csv") = true
      /\ asText entry = Ok (extractedContent e)
      \/ endsWith (entryName entry) (js ".csv") = false
         /\ endsWith (entryName entry) (js ".xlsx") = true
         /\ asArrayBuffer entry = Ok (extractedContent e)).
Proof.
  unfold extractEntry. cbv zeta.
  destruct (dir entry); [intros []|].
  destruct (isAuxiliaryMessages _); [intros []|].
  destruct (isRelevantFile _); [|intros []].
  destruct (endsWith _ (js ".csv")).
  - destruct (asText entry) as [c|]; [|intros []].
    intros [<-|[]]. cbn. repeat split. now left.
  - destruct (endsWith _ (js ".xlsx")); [|intros []].
    destruct (asArrayBuffer entry) as [c|]; [|intros []].
    intros [<-|[]]. cbn. repeat split. now right.
Qed.

Lemma extractEntry_at_most_one (entry : ZipEntry) :
  length (extractEntry [] entry) <= 1.
Proof.
  unfold extractEntry. cbv zeta.
  repeat match goal with
         | |- context [if ?b then _ else _] => destruct b
         | |- context [match ?r with Ok _ => _ | Throws _ => _ end] => destruct r
         end; cbn [length app]; lia.
Qed.

Lemma isRelevantFile_fileTypeOf (fileName : jsstring) :
  isRelevantFile fileName = true -> exists fileType, fileTypeOf fileName = Some fileType.
Proof.
  unfold isRelevantFile, fileTypeOf, patterns. cbn [existsb].
  repeat match goal with
         | |- context [includes fileName ?p] => destruct (includes fileName p)
         end; cbn [orb]; intros H; try discriminate; eauto.
Qed.

(** A file is queued under a name that passes the tests of the first
    loop. *)
Lemma queued_checked (file : File) (fd : FileData) :
  In fd (queued file) ->
  originalName fd = name file
  /\ isAuxiliaryMessages (fileDataName fd) = false
  /\ isRelevantFile (toLowerCase (fileDataName fd)) = true.
Proof.
  unfold queued, collectFile.
  destruct (endsWith (toLowerCase (name file)) (js ".zip")).
  - destruct (zip file) as [entries|]; [|intros []].
    cbn [fst app]. rewrite in_map_iff. intros (e & <- & He). cbn.
    rewrite extractZipFiles_flat_map in He. apply in_flat_map in He.
    destruct He as (entry & _ & He). apply extractEntry_kept in He.
    destruct He as (-> & _ & H1 & H2 & _). auto.
  - cbv zeta. destruct (isAuxiliaryMessages (name file)) eqn:A; [intros []|].
    destruct (isRelevantFile _) eqn:R; [|intros []].
    destruct (endsWith _ (js ".csv")).
    + destruct (text file); [|intros []]. intros [<-|[]]. cbn. auto.
    + destruct (endsWith _ (js ".xlsx")); [|intros []].
      destruct (arrayBuffer file); [|intros []]. intros [<-|[]]. cbn. auto.
Qed.

End QueueFacts.

(** [extractZipFiles] keeps the entries of an archive in their order, each
    at most once: its result on a list of entries is the concatenation of
    its results on the entries one by one.  A kept entry is no directory,
    is no auxiliary file of messages, has a name with one of the six
    patterns, and ends in [.csv] or [.xlsx], compared as written, without
    lower-casing; its content could be read.  Every other entry is left
    out, and the result says nothing of it. *)
Theorem extraction_is_an_ordered_filter (host : Host) (entries : list ZipEntry) :
  extractZipFiles entries = flat_map (fun entry => extractZipFiles [entry]) entries
  /\ length (extractZipFiles entries) <= length entries
  /\ (forall more : list ZipEntry,
        extractZipFiles (entries ++ more)
        = extractZipFiles entries ++ extractZipFiles more)
  /\ Forall (fun e =>
       exists entry,
         In entry entries
         /\ entryName entry = extractedName e
         /\ dir entry = false
         /\ isAuxiliaryMessages (entryName entry) = false
         /\ isRelevantFile (toLowerCase (entryName entry)) = true
         /\ (endsWith (entryName entry) (js ".csv") = true
             /\ asText entry = Ok (extractedContent e)
             \/ endsWith (entryName entry) (js ".csv") = false
                /\ endsWith (entryName entry) (js ".xlsx") = true
                /\ asArrayBuffer entry = Ok (extractedContent e)))
       (extractZipFiles entries).
Proof.
  split; [|split; [|split]].
  - rewrite extractZipFiles_flat_map. apply flat_map_ext. intros entry.
    now rewrite extractZipFiles_flat_map; cbn [flat_map]; rewrite app_nil_r.
  - rewrite extractZipFiles_flat_map.
    apply flat_map_at_most_one, extractEntry_at_most_one.
  - intros more. now rewrite !extractZipFiles_flat_map, flat_map_app.
  - apply Forall_forall. intros e He. rewrite extractZipFiles_flat_map in He.
    apply in_flat_map in He. destruct He as (entry & Hin & He).
    apply extractEntry_kept in He. destruct He as (H1 & H2 & H3 & H4 & H5).
    exists entry. split; [exact Hin|]. split; [now symmetry|]. auto.
Qed.

(** Every file of the queue comes from a file handed over, is no auxiliary
    file of messages and has a name with one of the six patterns: in the
    second loop the test for auxiliary files and the test for an unknown
    type, which the first loop has made already, never apply to it.  The
    only warnings of the second loop for a file that does not reach the
    [switch] are the one for a workbook that cannot be read and the one for
    an unsupported format. *)
Theorem queued_files_pass_the_second_checks (host : Host) (files : list File) :
  Forall (fun fd =>
    (exists file, In file files /\ originalName fd = name file)
    /\ isAuxiliaryMessages (fileDataName fd) = false
    /\ (exists fileType,
          fileTypeOf (toLowerCase (fileDataName fd)) = Some fileType)
    /\ match processedAs fd with
       | Some _ => True
       | None =>
           diagnostics fd = [js "Unsupported file format: " ++ fileDataName fd]
           \/ exists message,
                parseXLSX (content fd) = Throws message
                /\ diagnostics fd
                   = [js "Error processing " ++ fileDataName fd ++ js ": " ++ message]
       end)
    (queue files).
Proof.
  rewrite queue_flat_map. apply Forall_forall. intros fd Hfd.
  apply in_flat_map in Hfd. destruct Hfd as (file & Hfile & Hfd).
  apply queued_checked in Hfd. destruct Hfd as (Ho & Ha & Hr).
  apply isRelevantFile_fileTypeOf in Hr. destruct Hr as [ft Hft].
  split; [now exists file|]. split; [exact Ha|]. split; [now exists ft|].
  unfold diagnostics, contribution, processedAs, processFile. cbv zeta.
  rewrite Ha, Hft.
  destruct (endsWith _ (js ".csv")); [exact I|].
  destruct (endsWith _ (js ".xlsx")); [|now left].
  destruct (parseXLSX _) as [data|message]; [exact I|]. right. now exists message.
Qed.

(** A file that queues nothing leaves everything but the warnings as it
    would be without the file: the records, the processed files and the
    row counts of the other files are not touched, and its own warnings
    stand among those of the first loop at the place of the file. *)
Theorem file_that_queues_nothing_is_isolated
    (host : Host) (before after : list File) (file : File) :
  queued file = [] ->
  results (onMessage (before ++ file :: after)) = results (onMessage (before ++ after))
  /\ warnings (summary (onMessage (before ++ file :: after)))
     = flat_map notices before ++ notices file ++ flat_map notices after
         ++ flat_map diagnostics (queue (before ++ after)).
Proof.
  intros H.
  assert (Q : queue (before ++ file :: after) = queue (before ++ after)).
  { rewrite !queue_flat_map, !flat_map_app. cbn [flat_map]. now rewrite H. }
  split.
  - rewrite !onMessage_two_loops, Q. now apply process_results.
  - rewrite onMessage_two_loops.
    rewrite (fold_appends (fun p => warnings (summary p)) diagnostics)
      by (intros p fd; apply processFile_appends).
    cbn [addWarnings summary warnings emptyPayload app].
    rewrite Q, flat_map_app. cbn [flat_map]. now rewrite <- !app_assoc.
Qed.

(** An archive that cannot be opened queues nothing and is reported by one
    warning with the message of the error. *)
Theorem unreadable_archive_is_reported_once
    (host : Host) (file : File) (message : jsstring) :
  endsWith (toLowerCase (name file)) (js ".zip") = true ->
  zip file = Throws message ->
  queued file = []
  /\ notices file
     = [js "Failed to extract ZIP file " ++ name file ++ js ": " ++ message].
Proof.
  intros Hz Ht. unfold queued, notices, collectFile. now rewrite Hz, Ht.
Qed.

(* ------------------------------------------------------------------ *)
(** * The rolling hash of the first version *)

Section RollingHash.
Local Open Scope Z_scope.

Lemma toInt32_range (z : Z) : -2147483648 <= toInt32 z < 2147483648.
Proof.
  unfold toInt32.
  pose proof (Z.mod_pos_bound (z + 2147483648) 4294967296 ltac:(lia)). lia.
Qed.

Lemma toInt32_congruent (a b : Z) :
  (a - b) mod 4294967296 = 0 -> toInt32 a = toInt32 b.
Proof.
  unfold toInt32. intros H. f_equal.
  apply Z.mod_divide in H; [|lia]. destruct H as [k H].
  replace (a + 2147483648) with (b + 2147483648 + k * 4294967296) by lia.
  apply Z.mod_add. lia.
Qed.

Lemma toInt32_residue (z : Z) : (toInt32 z - z) mod 4294967296 = 0.
Proof.
  unfold toInt32.
  rewrite (Z.mod_eq (z + 2147483648) 4294967296) by lia.
  replace (z + 2147483648
           - 4294967296 * ((z + 2147483648) / 4294967296) - 2147483648 - z)
    with ((- ((z + 2147483648) / 4294967296)) * 4294967296) by lia.
  apply Z.mod_mul. lia.
Qed.

Lemma simpleHashStep_31 (hash : Z) (char : N) :
  simpleHashStep hash char = toInt32 (31 * hash + Z.of_N char).
Proof.
  unfold simpleHashStep. apply toInt32_congruent.
  pose proof (toInt32_residue (hash * 32)) as H.
  apply Z.mod_divide in H; [|lia]. destruct H as [k H].
  replace (toInt32 (hash * 32) - hash + Z.of_N char - (31 * hash + Z.of_N char))
    with (k * 4294967296) by lia.
  apply Z.mod_mul. lia.
Qed.

Lemma simpleHash_fold (input : jsstring) :
  forall h p : Z,
    (h - p) mod 4294967296 = 0 ->
    (fold_left simpleHashStep input h
     - fold_left (fun acc c => 31 * acc + Z.of_N c) input p) mod 4294967296 = 0.
Proof.
  induction input as [|c rest IH]; intros h p H; cbn [fold_left]; [exact H|].
  apply IH. rewrite simpleHashStep_31.
  pose proof (toInt32_residue (31 * h + Z.of_N c)) as R.
  apply Z.mod_divide in H; [|lia]. destruct H as [k H].
  apply Z.mod_divide in R; [|lia]. destruct R as [k' R].
  replace (toInt32 (31 * h + Z.of_N c) - (31 * p + Z.of_N c))
    with ((k' + 31 * k) * 4294967296) by lia.
  apply Z.mod_mul. lia.
Qed.

Lemma simpleHash_fold_range (input : jsstring) :
  forall h : Z,
    -2147483648 <= h < 2147483648 ->
    -2147483648 <= fold_left simpleHashStep input h < 2147483648.
Proof.
  induction input as [|c rest IH]; intros h H; cbn [fold_left]; [exact H|].
  apply IH. rewrite simpleHashStep_31. apply toInt32_range.
Qed.

Lemma toInt32_fixed (z : Z) : -2147483648 <= z < 2147483648 -> toInt32 z = z.
Proof. intros H. unfold toInt32. rewrite Z.mod_small; lia. Qed.

Lemma digitChar_base36 (d : N) : (d < 36)%N ->
  isBase36Digit (digitChar d) = true /\ digitValue (digitChar d) = Z.of_N d.
Proof.
  intros H. unfold digitChar, isBase36Digit, digitValue.
  destruct (N.ltb_spec d 10).
  - replace ((48 + d <=? 57)%N) with true by (symmetry; apply N.leb_le; lia).
    replace ((48 <=? 48 + d)%N) with true by (symmetry; apply N.leb_le; lia).
    split; [reflexivity | lia].
  - replace ((87 + d <=? 57)%N) with false by (symmetry; apply N.leb_gt; lia).
    replace ((97 <=? 87 + d)%N) with true by (symmetry; apply N.leb_le; lia).
    replace ((87 + d <=? 122)%N) with true by (symmetry; apply N.leb_le; lia).
    split; [destruct (48 <=? 87 + d)%N; reflexivity | lia].
Qed.

(** The digits that [toString36From] writes before [acc], for a number
    below [36 ^ k] and with fuel for [k] digits. *)
Lemma toString36From_digits (fuel : nat) :
  forall (k : nat) (n : Z) (acc : jsstring),
    (1 <= k <= fuel)%nat -> 0 <= n < 36 ^ Z.of_nat k ->
    exists digits : jsstring,
      toString36From fuel n acc = digits ++ acc
      /\ (1 <= length digits <= k)%nat
      /\ forallb isBase36Digit digits = true
      /\ fromBase36 digits = n.
Proof.
  induction fuel as [|fuel IH]; intros k n acc Hk Hn; [lia|].
  cbn [toString36From].
  assert (Hd : (Z.to_N (n mod 36) < 36)%N).
  { pose proof (Z.mod_pos_bound n 36 ltac:(lia)). lia. }
  destruct (digitChar_base36 _ Hd) as [D1 D2].
  rewrite Z2N.id in D2 by (pose proof (Z.mod_pos_bound n 36 ltac:(lia)); lia).
  destruct (Z.eqb_spec (n / 36) 0) as [E|E].
  - exists [digitChar (Z.to_N (n mod 36))]. split; [reflexivity|].
    split; [cbn; lia|]. split; [cbn; now rewrite D1|].
    unfold fromBase36. cbn [fold_left]. rewrite D2.
    pose proof (Z.div_mod n 36 ltac:(lia)). lia.
  - assert (Hq : 0 < n / 36).
    { pose proof (Z.div_pos n 36 ltac:(lia) ltac:(lia)). lia. }
    assert (Hk2 : (2 <= k)%nat).
    { destruct k as [|[|k]]; [lia| |lia]. exfalso. apply E.
      apply Z.div_small. cbn in Hn. lia. }
    destruct (IH (k - 1)%nat (n / 36) (digitChar (Z.to_N (n mod 36)) :: acc))
      as (digits & E1 & L & F & V).
    + lia.
    + split; [lia|]. apply Z.div_lt_upper_bound; [lia|].
      replace (36 * 36 ^ Z.of_nat (k - 1)) with (36 ^ Z.of_nat k); [lia|].
      replace (Z.of_nat k) with (Z.succ (Z.of_nat (k - 1))) by lia.
      rewrite Z.pow_succ_r by lia. reflexivity.
    + exists (digits ++ [digitChar (Z.to_N (n mod 36))]).
      split; [now rewrite E1, <- app_assoc|].
      split; [rewrite length_app; cbn [length]; lia|].
      split; [rewrite forallb_app, F; cbn; now rewrite D1|].
      unfold fromBase36 in *. rewrite fold_left_app. cbn [fold_left].
      rewrite V, D2. pose proof (Z.div_mod n 36 ltac:(lia)). lia.
Qed.

End RollingHash.

(** The rolling hash computes the polynomial in 31 of the code units,
    wrapped to a signed 32-bit integer at every step, and prints its
    absolute value in base 36: one to six digits among [0-9a-z], which read
    back to that absolute value.  A hash and its opposite print the same
    text. *)
Theorem simpleHash_is_wrapped_polynomial (input : jsstring) :
  let hash := fold_left simpleHashStep input 0%Z in
  hash = toInt32 (polynomial31 input)
  /\ (-2147483648 <= hash < 2147483648)%Z
  /\ 1 <= length (simpleHash input) <= 6
  /\ forallb isBase36Digit (simpleHash input) = true
  /\ fromBase36 (simpleHash input) = Z.abs hash
  /\ simpleHash [] = js "0".
Proof.
  cbv zeta.
  assert (R : (-2147483648 <= fold_left simpleHashStep input 0 < 2147483648)%Z).
  { apply simpleHash_fold_range. lia. }
  split.
  { rewrite <- (toInt32_fixed _ R). apply toInt32_congruent.
    apply simpleHash_fold. reflexivity. }
  split; [exact R|].
  destruct (toString36From_digits 7 6 (Z.abs (fold_left simpleHashStep input 0%Z)) [])
    as (digits & E & L & F & V).
  - lia.
  - change (36 ^ Z.of_nat 6)%Z with 2176782336%Z. lia.
  - unfold simpleHash, toString36. rewrite E, app_nil_r.
    split; [exact L|]. split; [exact F|]. split; [exact V | reflexivity].
Qed.
(* ------------------------------------------------------------------ *)
(** * The acceptance tests and the tables *)

Lemma stableHash_truthy (input : jsstring) : truthy (stableHash input) = true.
Proof.
  pose proof (stableHash_length input) as H.
  destruct (stableHash input); [discriminate | reflexivity].
Qed.

Lemma truthy_length (s : jsstring) : truthy s && (0 <? length s) = truthy s.
Proof. destruct s; reflexivity. Qed.

Section Acceptance.
Context {host : Host}.

Lemma resolveThreadId_truthy (conversationId recipientUrls to from ts : jsstring) :
  truthy (resolveThreadId conversationId recipientUrls to from ts) = true.
Proof.
  unfold resolveThreadId. destruct (truthy conversationId) eqn:E; [exact E|].
  cbv zeta. destruct (_ =? 1); [apply stableHash_truthy|].
  destruct (1 <? _); apply stableHash_truthy.
Qed.

Lemma messageOfRow_threadId (headers row : Row) (m : Message.t) (w : list jsstring) :
  messageOfRow headers row = (Some m, w) -> validateThreadId m = true.
Proof.
  unfold messageOfRow. cbv zeta. destruct (negb _); [discriminate|].
  intros [= <- _]. unfold validateThreadId. cbn [Message.threadId].
  rewrite truthy_length. apply resolveThreadId_truthy.
Qed.

End Acceptance.

(** The acceptance tests on the records of the normalisers.  A message
    passes the test of direction exactly when the lower-cased sender
    contains [you], wherever in the name; every message has a thread key
    that is not empty, in every payload; an invite passes the test of
    direction exactly when the direction column holds [outgoing], or holds
    neither word and the sender contains [you]; a job passes the test of
    the timestamp exactly when its date was understood.
    [runValidationTests] returns true for every payload: it does not apply
    the tests to the payload. *)
Theorem acceptance_tests_on_records (host : Host) (headers row : Row) :
  let content := getValueByAliases row headers MessagesAliases.content in
  let sender := getValueByAliases row headers MessagesAliases.from in
  let inviter := getValueByAliases row headers InvitationsAliases.from in
  let invitee := getValueByAliases row headers InvitationsAliases.to in
  let direction :=
    toLowerCase (getValueByAliases row headers InvitationsAliases.direction) in
  let savedOn := getValueByAliases row headers SavedJobsAliases.ts in
  option_map validateMeOrThem (fst (messageOfRow headers row))
  = (if truthy content then Some (includes (toLowerCase sender) (js "you")) else None)
  /\ option_map validateThreadId (fst (messageOfRow headers row))
     = (if truthy content then Some true else None)
  /\ option_map validateInviteDirection (fst (inviteOfRow headers row))
     = (if truthy inviter || truthy invitee
        then Some (includes direction (js "outgoing")
                   || negb (includes direction (js "incoming"))
                      && includes (toLowerCase inviter) (js "you"))
        else None)
  /\ (forall fileType : jsstring,
        option_map validateSavedJobTimestamp (fst (jobOfRow fileType headers row))
        = if jobAdmitted headers row
          then Some (truthy (parseTimestamp savedOn)) else None)
  /\ (forall files : list File,
        Forall (fun m => validateThreadId m = true) (messages (onMessage files)))
  /\ (forall payload : ParsedPayload, runValidationTests payload = true).
Proof.
  cbv zeta. split; [|split; [|split; [|split; [|split]]]].
  - unfold messageOfRow. cbv zeta.
    destruct (truthy (getValueByAliases row headers MessagesAliases.content));
      cbn [negb fst option_map]; [|reflexivity].
    unfold validateMeOrThem. cbn [Message.meOrThem].
    now destruct (includes _ (js "you")).
  - destruct (messageOfRow headers row) as [[m|] w] eqn:E.
    + cbn [fst option_map]. rewrite (messageOfRow_threadId _ _ _ _ E).
      unfold messageOfRow in E. cbv zeta in E.
      destruct (truthy (getValueByAliases row headers MessagesAliases.content));
        [reflexivity | discriminate].
    + unfold messageOfRow in E. cbv zeta in E.
      destruct (truthy (getValueByAliases row headers MessagesAliases.content));
        [discriminate | reflexivity].
  - unfold inviteOfRow. cbv zeta. rewrite <- negb_orb.
    destruct (truthy _ || truthy _); cbn [negb fst option_map]; [|reflexivity].
    unfold validateInviteDirection. cbn [Invite.direction].
    destruct (includes _ (js "outgoing")); [reflexivity|].
    destruct (includes _ (js "incoming")); [reflexivity|].
    now destruct (includes _ (js "you")).
  - intros fileType. rewrite jobOfRow_pushed.
    destruct (jobAdmitted headers row); [|reflexivity].
    cbn [option_map]. unfold validateSavedJobTimestamp, jobPushed.
    cbv zeta. cbn [SavedJob.ts]. now rewrite truthy_length.
  - intros files.
    apply (onMessage_all (fun _ => True) (fun m => validateThreadId m = true)
             (fun _ => True) (fun _ => True) (fun _ => True)); trivial.
    intros. eapply messageOfRow_threadId; eassumption.
  - reflexivity.
Qed.

(** The tables that the readers give to the normalisers have as many rows
    as the library found, header and blank lines included, with as many
    cells; every cell is a fixed point of [normalizeText], so that
    normalising a table again changes nothing.  A workbook that cannot be
    read gives the error of the library. *)
Theorem parsed_tables_are_normal (c : Content) :
  length (parseCSV c) = length (papaRows c)
  /\ map (@length jsstring) (parseCSV c) = map (@length jsstring) (papaRows c)
  /\ Forall (Forall fixedPoint) (parseCSV c)
  /\ map normalizeRow (parseCSV c) = parseCSV c
  /\ match parseXLSX c with
     | Ok data =>
         exists jsonData,
           sheetRows c = Ok jsonData
           /\ length data = length jsonData
           /\ Forall (Forall fixedPoint) data
           /\ map normalizeRow data = data
     | Throws message => sheetRows c = Throws message
     end.
Proof.
  assert (F : forall table, Forall (Forall fixedPoint) (map normalizeRow table)).
  { intros table. apply Forall_forall. intros r Hr. apply in_map_iff in Hr.
    destruct Hr as (r0 & <- & _). apply Forall_forall. intros cell Hc.
    apply in_map_iff in Hc. destruct Hc as (cell0 & <- & _).
    apply Normal_fixed, normalizeText_Normal. }
  assert (I : forall table, map normalizeRow (map normalizeRow table)
                            = map normalizeRow table).
  { intros table. rewrite map_map. apply map_ext. intros r. unfold normalizeRow.
    rewrite map_map. apply map_ext. intros cell.
    apply Normal_fixed, normalizeText_Normal. }
  unfold parseCSV, parseXLSX. split; [apply length_map|].
  split; [rewrite map_map; apply map_ext; intros r; apply length_map|].
  split; [apply F|]. split; [apply I|].
  destruct (sheetRows c) as [jsonData|message]; [|reflexivity].
  exists jsonData. split; [reflexivity|]. split; [apply length_map|].
  split; [apply F | apply I].
Qed.
(* ------------------------------------------------------------------ *)
(** * The window of the header scan *)

Section HeaderWindow.
Context {host : Host}.

Lemma findFirstNameRow_none (limit : nat) :
  forall (i : nat) (rawData : list Row),
    forallb (fun r => negb (hasFirstNameCell r)) rawData = true ->
    findFirstNameRow i limit rawData = None.
Proof.
  induction limit as [|limit IH]; intros i [|r rest] H; cbn [findFirstNameRow];
    trivial.
  cbn [forallb] in H. apply andb_true_iff in H. destruct H as [Hr H].
  apply negb_true_iff in Hr. rewrite Hr. now apply IH.
Qed.

End HeaderWindow.

(** A header of connections below ten or more rows without the marker is
    not found, whatever follows: the file gives no contact and the one
    warning that the header is missing. *)
Theorem connections_header_beyond_ten_rows_is_missed
    (host : Host) (preamble rest : list Row) (ws : list jsstring)
    (fileName : jsstring) :
  10 <= length preamble ->
  forallb (fun r => negb (hasFirstNameCell r)) (firstn 10 preamble) = true ->
  processConnections (preamble ++ rest) ws fileName
  = ([], ws ++ [js "Connections: Could not find header row with " ++ QUOTE
                  ++ js "First Name" ++ QUOTE ++ js " in " ++ fileName]).
Proof.
  intros Hlen Hpre. apply processConnections_no_header.
  rewrite findFirstNameRow_window, firstn_app.
  replace (10 - length preamble) with 0 by lia.
  cbn [firstn]. rewrite app_nil_r. now apply findFirstNameRow_none.
Qed.

(* ------------------------------------------------------------------ *)
(** * Instances *)

(** The URL of a contact is read below [URL], the first header that
    matches, not below [Profile URL]. *)
Lemma getValueByAliases_first_column_witness :
  getValueByAliases [js "n"; js " https://x/a "; js "https://x/b"]
    [js "Notes"; js "URL"; js "Profile URL"] ConnectionsAliases.url
  = js "https://x/a".
Proof.
  exact (eq_trans
    (proj1 (getValueByAliases_first_column [js "Notes"] [js "Profile URL"] (js "URL")
              ConnectionsAliases.url [js "n"; js " https://x/a "; js "https://x/b"]
              eq_refl eq_refl))
    eq_refl).
Defined.


(** Two messages that differ after their 40th code unit share an
    identifier. *)
Lemma messages_collide_after_40_units_witness :
  let sent := messages (onMessage (host := browserUTC) [twoLongMessages]) in
  Message.body (nth 1 sent noMessage) <> Message.body (nth 0 sent noMessage)
  /\ Message.id (nth 1 sent noMessage) = Message.id (nth 0 sent noMessage).
Proof.
  cbv zeta.
  set (sent := messages (onMessage (host := browserUTC) [twoLongMessages])).
  assert (L : length sent = 2) by (vm_compute; reflexivity).
  assert (H0 : In (nth 0 sent noMessage) sent) by (apply nth_In; lia).
  assert (H1 : In (nth 1 sent noMessage) sent) by (apply nth_In; lia).
  assert (Ht : Message.threadId (nth 1 sent noMessage)
               = Message.threadId (nth 0 sent noMessage))
    by (vm_compute; reflexivity).
  assert (Hs : Message.ts (nth 1 sent noMessage) = Message.ts (nth 0 sent noMessage))
    by (vm_compute; reflexivity).
  assert (Hb : firstn 40 (Message.body (nth 1 sent noMessage))
               = firstn 40 (Message.body (nth 0 sent noMessage)))
    by (vm_compute; reflexivity).
  split; [vm_compute; discriminate|].
  exact (messages_collide_after_40_units browserUTC [twoLongMessages]
           (nth 0 sent noMessage) (nth 1 sent noMessage) H0 H1 Ht Hs Hb).
Defined.

(** An archive that cannot be opened, between an export of connections and
    one of saved jobs, changes the warnings only. *)
Lemma file_that_queues_nothing_is_isolated_witness :
  results (onMessage (host := browserUTC) [firstConnections; brokenArchive; firstJobs])
  = results (onMessage (host := browserUTC) [firstConnections; firstJobs]).
Proof.
  assert (H : queued (host := browserUTC) brokenArchive = [])
    by (vm_compute; reflexivity).
  exact (proj1 (file_that_queues_nothing_is_isolated browserUTC
                  [firstConnections] [firstJobs] brokenArchive H)).
Defined.

Lemma unreadable_archive_is_reported_once_witness :
  queued (host := browserUTC) brokenArchive = []
  /\ notices (host := browserUTC) brokenArchive
     = [js "Failed to extract ZIP file export.zip: Corrupted zip"].
Proof.
  exact (unreadable_archive_is_reported_once browserUTC brokenArchive
           (js "Corrupted zip") eq_refl eq_refl).
Defined.


(** The two lines of notes above the header are discarded. *)
Lemma processConnections_preamble_witness :
  map Contact.name
    (fst (processConnections (host := browserUTC) connectionsWithPreamble []
            (js "Connections.csv")))
  = [js "John Doe"].
Proof.
  assert (Hlen : length (firstn 2 connectionsWithPreamble) < 10)
    by (vm_compute; lia).
  assert (Hpre : forallb (fun r => negb (hasFirstNameCell r))
                   (firstn 2 connectionsWithPreamble) = true)
    by (vm_compute; reflexivity).
  assert (Hhdr : hasFirstNameCell connectionsHeader = true)
    by (vm_compute; reflexivity).
  pose proof (processConnections_preamble (host := browserUTC)
                (firstn 2 connectionsWithPreamble) connectionsHeader [johnRow] []
                (js "Connections.csv") Hlen Hpre Hhdr) as H.
  change (firstn 2 connectionsWithPreamble ++ connectionsHeader :: [johnRow])
    with connectionsWithPreamble in H.
  rewrite H. vm_compute. reflexivity.
Defined.

(** Below ten lines of notes the header is not found. *)
Lemma connections_header_beyond_ten_rows_is_missed_witness :
  fst (processConnections (host := browserUTC)
         (tenNotes ++ [connectionsHeader; johnRow]) [] (js "Connections.csv"))
  = [].
Proof.
  assert (Hlen : 10 <= length tenNotes) by (vm_compute; lia).
  assert (Hpre : forallb (fun r => negb (hasFirstNameCell r)) (firstn 10 tenNotes)
                 = true) by (vm_compute; reflexivity).
  now rewrite (connections_header_beyond_ten_rows_is_missed browserUTC tenNotes
                 [connectionsHeader; johnRow] [] (js "Connections.csv") Hlen Hpre).
Defined.
(* ------------------------------------------------------------------ *)
(** * The thread key *)

Lemma truthy_streq (s : jsstring) : truthy s = negb (streq s []).
Proof. destruct s; reflexivity. Qed.

Lemma filter_truthy (l : list jsstring) :
  filter truthy l = filter (fun url => negb (streq url [])) l.
Proof. apply filter_ext. intros s. apply truthy_streq. Qed.

Lemma split_free (sep : N) (piece : jsstring) :
  free sep piece = true -> split sep piece = [piece].
Proof.
  induction piece as [|c piece IH]; [reflexivity|]. unfold free. cbn [forallb split].
  intros H. apply andb_true_iff in H. destruct H as [Hc H].
  apply negb_true_iff in Hc. rewrite Hc. now rewrite (IH H).
Qed.

Lemma split_app_sep (sep : N) (piece rest : jsstring) :
  free sep piece = true ->
  split sep (piece ++ sep :: rest) = piece :: split sep rest.
Proof.
  induction piece as [|c piece IH]; unfold free; cbn [forallb split app].
  - intros _. now rewrite N.eqb_refl.
  - intros H. apply andb_true_iff in H. destruct H as [Hc H].
    apply negb_true_iff in Hc. rewrite Hc. now rewrite (IH H).
Qed.

(** Splitting the join of pieces that are free of the separator gives the
    pieces back. *)
Lemma split_join (sep : N) (piece : jsstring) (pieces : list jsstring) :
  forallb (free sep) (piece :: pieces) = true ->
  split sep (join [sep] (piece :: pieces)) = piece :: pieces.
Proof.
  revert piece. induction pieces as [|q pieces IH]; intros piece H.
  - cbn [forallb] in H. apply andb_true_iff in H. now apply split_free.
  - cbn [forallb] in H. apply andb_true_iff in H. destruct H as [Hp H].
    change (join [sep] (piece :: q :: pieces))
      with (piece ++ sep :: join [sep] (q :: pieces)).
    rewrite (split_app_sep _ _ _ Hp). now rewrite (IH q H).
Qed.

(** A sorted array is left as it is. *)
Lemma sort_sorted (l : list jsstring) : Sorted str_le l -> sort l = l.
Proof.
  induction 1 as [|x l Hl IH Hx]; [reflexivity|]. cbn [sort]. rewrite IH.
  destruct Hx as [|y l' Hxy]; [reflexivity|]. cbn [insertSorted].
  unfold str_le in Hxy. now rewrite Hxy.
Qed.

Lemma str_leb_lexLess (a : jsstring) :
  forall b, str_leb a b = true <-> (a = b \/ lexLess a b).
Proof.
  induction a as [|x a IH]; intros [|y b]; cbn [str_leb].
  - split; [now left | reflexivity].
  - split; [|reflexivity]. intros _. right. left. exists (y :: b).
    split; [discriminate | reflexivity].
  - split; [discriminate|]. intros [E|[(rest & _ & E)|(c & u & v & a' & b' & _ & E & _)]].
    + discriminate.
    + discriminate.
    + destruct c; discriminate.
  - destruct (N.ltb_spec x y) as [Hxy|Hyx].
    + split; [|reflexivity]. intros _. right. right.
      exists [], x, y, a, b. repeat split. exact Hxy.
    + destruct (N.ltb_spec y x) as [Hlt|Hge].
      * split; [discriminate|].
        intros [E|[(rest & _ & E)|(c & u & v & a' & b' & Ea & Eb & Huv)]].
        -- injection E as -> _. lia.
        -- injection E as -> _. lia.
        -- destruct c as [|z c]; cbn [app] in Ea, Eb.
           ++ injection Ea as -> _. injection Eb as -> _. lia.
           ++ injection Ea as -> _. injection Eb as -> _. lia.
      * assert (x = y) by lia. subst y. rewrite IH. split.
        -- intros [->|[(rest & Hr & ->)|(c & u & v & a' & b' & -> & -> & Huv)]].
           ++ now left.
           ++ right. left. exists rest. split; [exact Hr | reflexivity].
           ++ right. right. exists (x :: c), u, v, a', b'. repeat split. exact Huv.
        -- intros [E|[(rest & Hr & E)|(c & u & v & a' & b' & Ea & Eb & Huv)]].
           ++ injection E as ->. now left.
           ++ injection E as ->. right. left. exists rest. now split.
           ++ destruct c as [|z c]; cbn [app] in Ea, Eb.
              ** injection Ea as -> _. injection Eb as -> _. lia.
              ** injection Ea as _ ->. injection Eb as _ ->.
                 right. right. exists c, u, v, a', b'. repeat split. exact Huv.
Qed.

Section Recipients.
Context {host : Host}.

Lemma recipientsOf_join (urls : list jsstring) :
  forallb (fun url => negb (includes url [COMMA])) urls = true ->
  recipientsOf (join [COMMA] urls)
  = filter truthy (map (fun url => normalizeText (Some url)) urls).
Proof.
  intros H. unfold recipientsOf. destruct urls as [|url urls]; [reflexivity|].
  rewrite split_join; [reflexivity|].
  rewrite forallb_forall in H. apply forallb_forall. intros u Hu.
  rewrite free_includes. now apply H.
Qed.

Lemma recipientsOf_normal (recipientUrls : jsstring) :
  Forall (fun url => url <> [] /\ fixedPoint url) (recipientsOf recipientUrls).
Proof.
  unfold recipientsOf. apply Forall_forall. intros url Hurl.
  apply filter_In in Hurl. destruct Hurl as [Hin Ht].
  split; [now apply truthy_true|].
  apply in_map_iff in Hin. destruct Hin as (piece & <- & _).
  apply Normal_fixed, normalizeText_Normal.
Qed.

End Recipients.

(** C4: the thread key of a message row is, in this order: (a) the explicit
    conversation identifier when it is not empty, as it is; (b) else, with
    the recipient URLs split on commas, normalised and the empty ones
    dropped, the hash of the single URL when there is exactly one, and the
    hash of the sorted URLs joined with a pipe when there are two or more;
    (c) else the hash of [participant|day-bucket], the participant being
    the field [to] when it is not empty and the field [from] otherwise, and
    the day bucket the UTC calendar date of the instant, or [unknown].
    The key does not change when the recipients are permuted; the columns
    [a,b] and [b,a] give the same key; and the thread key stored on a
    message is this key.
    The recipients are what the words say: the pieces of the column
    between its commas (the pieces hold no comma, and joined with commas
    they give the column back), each normalised, without the empty ones;
    for URLs without commas, the recipients of their join with commas are
    the normalised URLs that are not empty.  The sorted list is the one
    permutation of the recipients that is in the order of the code units.
    The columns [b, a] and [a,b] both give the hash of [a|b], and the
    column of the one URL [u] among empty pieces gives the hash of [u]. *)
Theorem thread_key_resolution
    (host : Host) (conversationId recipientUrls to from ts : jsstring) :
  resolveThreadId conversationId recipientUrls to from ts
  = (if truthy conversationId then conversationId
     else match recipientsOf recipientUrls with
          | [] => stableHash (orElse to from ++ PIPE ++ dayBucketOf ts)
          | [u] => stableHash u
          | recipients => stableHash (join PIPE (sort recipients))
          end)
  /\ (forall recipientUrls' : jsstring,
        Permutation (recipientsOf recipientUrls) (recipientsOf recipientUrls') ->
        resolveThreadId conversationId recipientUrls' to from ts
        = resolveThreadId conversationId recipientUrls to from ts)
  /\ resolveThreadId [] (js "a,b") to from ts = resolveThreadId [] (js "b,a") to from ts
  /\ (forall headers row : Row,
        option_map Message.threadId (fst (messageOfRow headers row))
        = if truthy (getValueByAliases row headers MessagesAliases.content)
          then Some (resolveThreadId
                       (getValueByAliases row headers MessagesAliases.convoId)
                       (getValueByAliases row headers MessagesAliases.toUrls)
                       (getValueByAliases row headers MessagesAliases.to)
                       (getValueByAliases row headers MessagesAliases.from)
                       (parseTimestamp
                          (getValueByAliases row headers MessagesAliases.date)))
          else None)
  /\ recipientsOf recipientUrls
     = filter (fun url => negb (streq url []))
         (map (fun url => normalizeText (Some url)) (split COMMA recipientUrls))
  /\ join [COMMA] (split COMMA recipientUrls) = recipientUrls
  /\ Forall (fun piece => includes piece [COMMA] = false) (split COMMA recipientUrls)
  /\ (forall urls : list jsstring,
        forallb (fun url => negb (includes url [COMMA])) urls = true ->
        recipientsOf (join [COMMA] urls)
        = filter (fun url => negb (streq url []))
            (map (fun url => normalizeText (Some url)) urls))
  /\ Forall (fun url => url <> [] /\ fixedPoint url) (recipientsOf recipientUrls)
  /\ (forall recipients : list jsstring,
        Permutation recipients (sort recipients)
        /\ Sorted str_le (sort recipients))
  /\ (forall recipients sorted : list jsstring,
        Permutation recipients sorted -> Sorted str_le sorted ->
        sort recipients = sorted)
  /\ (forall a b : jsstring, str_le a b <-> (a = b \/ lexLess a b))
  /\ resolveThreadId [] (js "b, a") to from ts = stableHash (js "a|b")
  /\ resolveThreadId [] (js "a,b") to from ts = stableHash (js "a|b")
  /\ resolveThreadId [] (js " u ,, ") to from ts = stableHash (js "u").
Proof.
  assert (Hchar : forall cid ru,
    resolveThreadId cid ru to from ts
    = (if truthy cid then cid
       else match recipientsOf ru with
            | [] => stableHash (orElse to from ++ PIPE ++ dayBucketOf ts)
            | [u] => stableHash u
            | recipients => stableHash (join PIPE (sort recipients))
            end)).
  { intros cid ru. destruct cid as [|c cid]; [|reflexivity]. cbn [truthy].
    destruct (recipientsOf ru) as [|u [|v rest]] eqn:E.
    - now apply resolveThreadId_fallback.
    - now apply resolveThreadId_single.
    - rewrite resolveThreadId_group; rewrite E; [reflexivity | simpl; lia]. }
  split; [apply Hchar|]. split; [|split; [|split]].
  - intros ru' HP. destruct conversationId as [|c cid]; [|reflexivity].
    destruct (recipientsOf recipientUrls) as [|u rest] eqn:E.
    + apply Permutation_nil in HP.
      now rewrite !resolveThreadId_fallback.
    + assert (E' : recipientsOf ru' <> []).
      { intros E'. rewrite E' in HP. symmetry in HP.
        apply Permutation_nil in HP. discriminate. }
      rewrite (resolveThreadId_recipients _ _ _ _ E').
      rewrite resolveThreadId_recipients by (rewrite E; discriminate).
      rewrite E. now rewrite (sort_Permutation _ _ HP).
  - rewrite !resolveThreadId_group by (vm_compute; lia). reflexivity.
  - intros headers row. unfold messageOfRow.
    destruct (truthy (getValueByAliases row headers MessagesAliases.content));
      reflexivity.
  - split; [apply filter_truthy|].
    split; [apply join_split|].
    split.
    { pose proof (split_pieces_free COMMA recipientUrls) as H.
      rewrite Forall_forall in H. apply Forall_forall. intros piece Hp.
      specialize (H piece Hp). rewrite free_includes in H.
      now apply negb_true_iff in H. }
    split; [intros urls H; rewrite <- filter_truthy; now apply recipientsOf_join|].
    split; [apply recipientsOf_normal|].
    split; [intros recipients; split; [apply sort_is_Permutation | apply sort_Sorted]|].
    split.
    { intros recipients sorted HP HS.
      rewrite (sort_Permutation _ _ HP). now apply sort_sorted. }
    split; [intros a b; apply str_leb_lexLess|].
    repeat split.
Qed.

(** The key of the recipients [b, a] is the key of the recipients [a, b]:
    the hash of the two URLs in the order of the code units. *)
Lemma thread_key_resolution_witness :
  recipientsOf (js "https://x/b, https://x/a") = [js "https://x/b"; js "https://x/a"]
  /\ Permutation (recipientsOf (js "https://x/a,https://x/b"))
                 (recipientsOf (js "https://x/b, https://x/a"))
  /\ resolveThreadId (host := browserUTC) []
       (js "https://x/b, https://x/a") (js "Jane") (js "You") []
     = resolveThreadId (host := browserUTC) []
       (js "https://x/a,https://x/b") (js "Jane") (js "You") []
  /\ resolveThreadId (host := browserUTC) []
       (js "https://x/a,https://x/b") (js "Jane") (js "You") []
     = stableHash (js "https://x/a|https://x/b").
Proof.
  assert (HP : Permutation (recipientsOf (js "https://x/a,https://x/b"))
                           (recipientsOf (js "https://x/b, https://x/a"))).
  { change (Permutation [js "https://x/a"; js "https://x/b"]
                        [js "https://x/b"; js "https://x/a"]).
    apply perm_swap. }
  split; [reflexivity|]. split; [exact HP|]. split.
  - exact (proj1 (proj2 (thread_key_resolution browserUTC []
                           (js "https://x/a,https://x/b") (js "Jane") (js "You") []))
                 (js "https://x/b, https://x/a") HP).
  - exact (proj1 (thread_key_resolution browserUTC []
                    (js "https://x/a,https://x/b") (js "Jane") (js "You") [])).
Defined.
